(** * The egg application worker: a shallow embedding of [lib/application.js]

    The development models the JavaScript objects the file manipulates as a
    heap of records with a prototype link, and the methods of the
    [Application] class as computations in a state-and-exception monad over
    that heap, the process clock, the registered event listeners and a trace
    of the observable effects (log records, console lines, socket and file
    writes).

    Properties are data properties.  The accessors that the prototypes of
    the framework define live outside this file and are not modelled; the
    getters [config], [loader], [router], [logger] and [coreLogger] of the
    superclass are read as properties of the application or, for the two
    loggers, as sinks of the trace. *)

From Stdlib Require Import ZArith String Ascii List Lia Bool DecimalString.
From stdpp Require Import base list strings.

Open Scope string_scope.
Open Scope list_scope.
Open Scope nat_scope.

(** ** Values and objects *)

Abbreviation loc := nat.

(** A property key is a string or a symbol; the two never collide. *)
Inductive pkey : Type :=
  | PStr (s : string)
  | PSym (s : string).

Coercion PStr : string >-> pkey.

#[global] Instance pkey_eq_dec : EqDecision pkey.
Proof. solve_decision. Defined.

Definition pkey_eqb (a b : pkey) : bool :=
  match a, b with
  | PStr s, PStr s' => String.eqb s s'
  | PSym s, PSym s' => String.eqb s s'
  | _, _ => false
  end.

(** Numbers are the integers the file handles (ports, lengths, the clock);
    strings hold their text in UTF-8. *)
Inductive value : Type :=
  | VUndef
  | VNull
  | VBool (b : bool)
  | VNum (n : Z)
  | VStr (s : string)
  | VSym (s : string)
  | VRef (l : loc).

#[global] Instance value_eq_dec : EqDecision value.
Proof. solve_decision. Defined.

(** What an object is besides its properties: a plain object, a function,
    the result of [Function.prototype.bind], an array with its elements, or
    a regular expression with its printed form. *)
Inductive okind : Type :=
  | Plain
  | Func
  | Bound (target : loc) (this : value)
  | Arr (elems : list value)
  | RegExp (text : string).

(** Own properties are kept in insertion order, the order in which [for-in]
    and [Object.keys] enumerate string keys. *)
Record obj : Type := mkObj {
  proto : option loc;
  kind : okind;
  props : list (pkey * value)
}.

Abbreviation heap := (list obj).

Definition with_props (o : obj) (ps : list (pkey * value)) : obj :=
  mkObj (proto o) (kind o) ps.

Definition with_kind (o : obj) (kd : okind) : obj :=
  mkObj (proto o) kd (props o).

Fixpoint own_get (k : pkey) (ps : list (pkey * value)) : option value :=
  match ps with
  | [] => None
  | (k', v) :: ps' => if pkey_eqb k k' then Some v else own_get k ps'
  end.

(** Assignment to an own property: an existing key keeps its place, a new
    key goes last. *)
Fixpoint own_set (k : pkey) (v : value) (ps : list (pkey * value))
  : list (pkey * value) :=
  match ps with
  | [] => [(k, v)]
  | (k', v') :: ps' =>
      if pkey_eqb k k' then (k, v) :: ps' else (k', v') :: own_set k v ps'
  end.

Definition decimal (n : Z) : string := NilZero.string_of_int (Z.to_int n).

(** The elements of an array are its index properties. *)
Definition index_props (es : list value) : list (pkey * value) :=
  imap (fun i v => (PStr (decimal (Z.of_nat i)), v)) es.

(** The own enumerable properties of an object, in enumeration order. *)
Definition enumerable_own (o : obj) : list (pkey * value) :=
  match kind o with
  | Arr es => index_props es
  | _ => []
  end ++ props o.

(** The own properties a read sees: the enumerable ones and the length of
    an array. *)
Definition own_lookup (k : pkey) (o : obj) : option value :=
  match own_get k (enumerable_own o) with
  | Some v => Some v
  | None =>
      match kind o with
      | Arr es =>
          if pkey_eqb k "length"
          then Some (VNum (Z.of_nat (length es)))
          else None
      | _ => None
      end
  end.

(** Property lookup along the prototype chain.  [Object.create] only links
    a new object to an older one, so the chain from [l] has at most [S l]
    objects (see [proto_wf] and [hget_unfold]). *)
Fixpoint hget_fuel (n : nat) (h : heap) (l : loc) (k : pkey) : value :=
  match n with
  | O => VUndef
  | S n' =>
      match h !! l with
      | None => VUndef
      | Some o =>
          match own_lookup k o with
          | Some v => v
          | None =>
              match proto o with
              | Some p => hget_fuel n' h p k
              | None => VUndef
              end
          end
      end
  end.

Definition hget (h : heap) (l : loc) (k : pkey) : value :=
  hget_fuel (S l) h l k.

(** Writing a data property always lands on the receiver itself.  The file
    never assigns to an index or to the length of an array: its arrays grow
    by [push] only. *)
Definition hset (h : heap) (l : loc) (k : pkey) (v : value) : heap :=
  match h !! l with
  | Some o => <[l := with_props o (own_set k v (props o))]> h
  | None => h
  end.

Definition hkind (h : heap) (v : value) : option okind :=
  match v with
  | VRef l => kind <$> (h !! l)
  | _ => None
  end.

(** Prototype links point to older objects. *)
Fixpoint proto_ok_from (i : nat) (h : heap) : bool :=
  match h with
  | [] => true
  | o :: t =>
      match proto o with
      | Some p => Nat.ltb p i
      | None => true
      end && proto_ok_from (S i) t
  end.

Definition proto_wf (h : heap) : Prop := proto_ok_from 0 h = true.

(** Every reference stored in the heap is allocated. *)
Definition value_closed (n : nat) (v : value) : bool :=
  match v with
  | VRef l => Nat.ltb l n
  | _ => true
  end.

Definition obj_closed (n : nat) (o : obj) : bool :=
  forallb (fun kv => value_closed n (snd kv)) (props o)
  && match kind o with
     | Bound t th => Nat.ltb t n && value_closed n th
     | Arr es => forallb (value_closed n) es
     | _ => true
     end.

Definition heap_closed (h : heap) : Prop :=
  forallb (obj_closed (length h)) h = true.

(** ** Conversions *)

Definition truthy (v : value) : bool :=
  match v with
  | VUndef | VNull => false
  | VBool b => b
  | VNum n => negb (Z.eqb n 0)
  | VStr s => negb (String.eqb s "")
  | VSym _ | VRef _ => true
  end.

Definition nullish (v : value) : bool :=
  match v with
  | VUndef | VNull => true
  | _ => false
  end.

(** ** Effects *)

(** What a [throw] hands to the nearest [catch]: an error object made by
    the runtime or the platform, with its name and its message, or any other
    value, thrown by code that is not of this file (a method of a layer, a
    [toJSON], a plugin). *)
Inductive jserr : Type :=
  | mkErr (name message : string)
  | Thrown (v : value).

(** The name of an error object; a thrown value that is none has no name. *)
Definition ename (e : jserr) : string :=
  match e with
  | mkErr name _ => name
  | Thrown _ => ""
  end.

Definition TypeError (m : string) : jserr := mkErr "TypeError" m.
Definition Error (m : string) : jserr := mkErr "Error" m.

Inductive outcome (A : Type) : Type :=
  | Ok (a : A)
  | Throw (e : jserr).

Arguments Ok {A} a.
Arguments Throw {A} e.

Inductive logger : Type :=
  | AppLogger
  | AppCoreLogger
  | LoggerAt (lg : value).

Inductive level : Type := LError | LWarn.

Inductive event : Type :=
  | EvLog (lg : logger) (lv : level) (args : list value)
  | EvConsoleError (args : list value)
  | EvSocketWrite (socket : value) (data : string)
  | EvSocketEnd (socket : value)
  | EvWriteFile (file : string) (data : string)
  | EvGraceful (server : value)
  | EvServerOn (server : value) (name : string)
  | EvLoaderLoad
  | EvSuperDumpConfig.

(** The functions this file registers as event listeners. *)
Inductive listener : Type :=
  | LCookieLimitExceed (app : value)
  | LOnServer (app : value).

(** A registration is told apart by its serial number, as the function
    objects [on] and [once] store are told apart by identity. *)
Record registration : Type := mkReg {
  reg_id : nat;
  reg_event : string;
  reg_once : bool;
  reg_fn : listener
}.

Record world : Type := mkWorld {
  w_heap : heap;
  w_now : Z;
  w_trace : list event;
  w_listeners : list registration;
  w_next_id : nat
}.

Definition set_heap (w : world) (h : heap) : world :=
  mkWorld h (w_now w) (w_trace w) (w_listeners w) (w_next_id w).

Definition add_event (w : world) (e : event) : world :=
  mkWorld (w_heap w) (w_now w) (w_trace w ++ [e]) (w_listeners w)
          (w_next_id w).

Definition add_listener (w : world) (name : string) (one : bool)
    (fn : listener) : world :=
  mkWorld (w_heap w) (w_now w) (w_trace w)
          (w_listeners w ++ [mkReg (w_next_id w) name one fn])
          (S (w_next_id w)).

Definition drop_listener (w : world) (id : nat) : world :=
  mkWorld (w_heap w) (w_now w) (w_trace w)
          (filter (fun r => reg_id r <> id) (w_listeners w))
          (w_next_id w).

(** A computation runs in a world and leaves a world behind, also when it
    throws. *)
Definition M (A : Type) : Type := world -> world * outcome A.

Definition ret {A} (a : A) : M A := fun w => (w, Ok a).

Definition throw {A} (e : jserr) : M A := fun w => (w, Throw e).

Definition bindM {A B} (m : M A) (f : A -> M B) : M B :=
  fun w =>
    match m w with
    | (w', Ok a) => f a w'
    | (w', Throw e) => (w', Throw e)
    end.

Definition try_catch {A} (m : M A) (handler : jserr -> M A) : M A :=
  fun w =>
    match m w with
    | (w', Ok a) => (w', Ok a)
    | (w', Throw e) => handler e w'
    end.

Notation "'do' x <- m ; k" := (bindM m (fun x => k))
  (at level 10, x name, m at level 100, k at level 200).
Notation "'exec' m ; k" := (bindM m (fun _ => k))
  (at level 10, m at level 100, k at level 200).

Definition emit_event (e : event) : M unit :=
  fun w => (add_event w e, Ok tt).

Fixpoint forM {A} (xs : list A) (f : A -> M unit) : M unit :=
  match xs with
  | [] => ret tt
  | x :: xs' => exec f x ; forM xs' f
  end.

Fixpoint mapM {A B} (xs : list A) (f : A -> M B) : M (list B) :=
  match xs with
  | [] => ret []
  | x :: xs' => do y <- f x ; do ys <- mapM xs' f ; ret (y :: ys)
  end.

(** ** Primitive operations on objects *)

(** The length of a string in UTF-16 code units, from its UTF-8 bytes: one
    unit for a character of one to three bytes, two for one of four. *)
Definition utf16_units (s : string) : Z :=
  fold_right
    (fun c n =>
       let b := nat_of_ascii c in
       if Nat.ltb b 128 then (n + 1)%Z
       else if Nat.ltb b 192 then n
       else if Nat.ltb b 240 then (n + 1)%Z
       else (n + 2)%Z)
    0%Z (list_ascii_of_string s).

(** [v[k]]: reading through [undefined] or [null] throws; a string has a
    [length]; the other properties of primitives are not modelled and read
    [undefined]. *)
Definition read (h : heap) (v : value) (k : pkey) : value :=
  match v with
  | VRef l => hget h l k
  | VStr s =>
      if pkey_eqb k "length" then VNum (utf16_units s) else VUndef
  | _ => VUndef
  end.

Definition get_prop (v : value) (k : pkey) : M value :=
  fun w =>
    if nullish v
    then (w, Throw (TypeError "Cannot read property of undefined or null"))
    else (w, Ok (read (w_heap w) v k)).

(** [v[k] = x] in strict mode: only objects take properties. *)
Definition set_prop (v : value) (k : pkey) (x : value) : M unit :=
  fun w =>
    match v with
    | VRef l => (set_heap w (hset (w_heap w) l k x), Ok tt)
    | VUndef | VNull =>
        (w, Throw (TypeError "Cannot set property of undefined or null"))
    | _ => (w, Throw (TypeError "Cannot create property on a primitive"))
    end.

(** A new object takes the next location of the heap. *)
Definition alloc (o : obj) : M value :=
  fun w => (set_heap w (w_heap w ++ [o]), Ok (VRef (length (w_heap w)))).

(** [Object.create(p)] *)
Definition Object_create (p : value) : M value :=
  match p with
  | VRef l => alloc (mkObj (Some l) Plain [])
  | VNull => alloc (mkObj None Plain [])
  | _ => throw (TypeError "Object prototype may only be an Object or null")
  end.

(** An object literal; [Object.prototype] has no enumerable property and is
    left out. *)
Definition new_object (ps : list (pkey * value)) : M value :=
  alloc (mkObj None Plain ps).

Definition callable (kd : option okind) : bool :=
  match kd with
  | Some Func | Some (Bound _ _) => true
  | _ => false
  end.

(** [f.bind(this)] where the [bind] member of [f] is
    [Function.prototype.bind], as it is for a function that does not shadow
    it: a new function object that shares [f]'s prototype.  A value that is
    no function is taken to have no [bind] member at all, so the call
    throws; an object that carries a [bind] method of its own would have
    that method called instead, with an effect this file cannot know.  Such
    objects are outside this model, and a statement that depends on the
    difference excludes them by a hypothesis. *)
Definition Function_bind (f : value) (this : value) : M value :=
  fun w =>
    match f with
    | VUndef | VNull =>
        (w, Throw (TypeError "Cannot read property 'bind' of undefined or null"))
    | VRef l =>
        match w_heap w !! l with
        | Some o =>
            if callable (Some (kind o))
            then alloc (mkObj (proto o) (Bound l this) []) w
            else (w, Throw (TypeError "bind is not a function"))
        | None => (w, Throw (TypeError "bind is not a function"))
        end
    | _ => (w, Throw (TypeError "bind is not a function"))
    end.

(** [Date.now()] *)
Definition Date_now : M value := fun w => (w, Ok (VNum (w_now w))).

(** ** Application#createContext *)

Definition createContext (app req res : value) : M value :=
  do pc <- get_prop app "context" ;
  do context <- Object_create pc ;
  do pr <- get_prop app "request" ;
  do request <- Object_create pr ;
  exec set_prop context "request" request ;
  do ps <- get_prop app "response" ;
  do response <- Object_create ps ;
  exec set_prop context "response" response ;
  exec set_prop response "app" app ;
  exec set_prop request "app" app ;
  exec set_prop context "app" app ;
  exec set_prop response "req" req ;
  exec set_prop request "req" req ;
  exec set_prop context "req" req ;
  exec set_prop response "res" res ;
  exec set_prop request "res" res ;
  exec set_prop context "res" res ;
  exec set_prop response "ctx" context ;
  exec set_prop request "ctx" context ;
  exec set_prop request "response" response ;
  exec set_prop response "request" request ;
  do onerror <- get_prop context "onerror" ;
  do bound <- Function_bind onerror context ;
  exec set_prop context "onerror" bound ;
  do url <- get_prop req "url" ;
  exec set_prop request "originalUrl" url ;
  exec set_prop context "originalUrl" url ;
  do now <- Date_now ;
  exec set_prop context "starttime" now ;
  ret context.

(** ** Enumeration and merging *)

Definition string_keys (ps : list (pkey * value)) : list string :=
  flat_map (fun kv => match fst kv with PStr s => [s] | PSym _ => [] end) ps.

(** [Object.keys(v)]; the indices of a string are not modelled. *)
Definition Object_keys (v : value) : M (list string) :=
  fun w =>
    match v with
    | VUndef | VNull =>
        (w, Throw (TypeError "Cannot convert undefined or null to object"))
    | VRef l =>
        match w_heap w !! l with
        | Some o => (w, Ok (string_keys (enumerable_own o)))
        | None => (w, Ok [])
        end
    | _ => (w, Ok [])
    end.

(** The keys [for (key in v)] visits: the own string keys, then those of the
    prototype chain that were not met before; none for a value that is not
    an object (the indices of a string are not modelled). *)
Fixpoint for_in_fuel (n : nat) (h : heap) (l : loc) (seen : list string)
  : list string :=
  match n with
  | O => []
  | S n' =>
      match h !! l with
      | None => []
      | Some o =>
          let own :=
            filter (fun s => s ∉ seen) (string_keys (enumerable_own o)) in
          own ++ match proto o with
                 | Some p => for_in_fuel n' h p (seen ++ own)
                 | None => []
                 end
      end
  end.

Definition for_in_keys (h : heap) (v : value) : list string :=
  match v with
  | VRef l => for_in_fuel (S l) h l []
  | _ => []
  end.

Definition for_in (v : value) : M (list string) :=
  fun w => (w, Ok (for_in_keys (w_heap w) v)).

(** The own enumerable properties [Object.assign] copies from a source:
    those of an object; none for [undefined], [null], a boolean, a number
    or a symbol.  The characters a string source would contribute are not
    modelled. *)
Definition assign_source (h : heap) (src : value) : list (pkey * value) :=
  match src with
  | VRef l =>
      match h !! l with
      | Some o => enumerable_own o
      | None => []
      end
  | _ => []
  end.

(** [Object.assign(target, source)] *)
Definition Object_assign (target source : value) : M value :=
  if nullish target
  then throw (TypeError "Cannot convert undefined or null to object")
  else
    do ps <- (fun w => (w, Ok (assign_source (w_heap w) source))) ;
    exec forM ps (fun kv => set_prop target (fst kv) (snd kv)) ;
    ret target.

(** [new http.ServerResponse(request)]: a fresh object of the platform;
    this file reads none of its fields. *)
Definition new_ServerResponse (request : value) : M value :=
  alloc (mkObj None Plain []).

(** ** Application#createAnonymousContext *)

Definition merged_key (key : string) : bool :=
  String.eqb key "headers" || String.eqb key "query" || String.eqb key "socket".

Definition default_request (headers query socket : value)
  : list (pkey * value) :=
  [ (PStr "headers", headers);
    (PStr "query", query);
    (PStr "querystring", VStr "");
    (PStr "host", VStr "127.0.0.1");
    (PStr "hostname", VStr "127.0.0.1");
    (PStr "protocol", VStr "http");
    (PStr "secure", VStr "false");
    (PStr "method", VStr "GET");
    (PStr "url", VStr "/");
    (PStr "path", VStr "/");
    (PStr "socket", socket) ].

Definition override_key (request req : value) (key : string) : M unit :=
  if merged_key key
  then
    do target <- get_prop request key ;
    do source <- get_prop req key ;
    exec Object_assign target source ;
    ret tt
  else
    do v <- get_prop req key ;
    set_prop request key v.

Definition default_headers : list (pkey * value) :=
  [ (PStr "x-forwarded-for", VStr "127.0.0.1") ].

Definition default_query : list (pkey * value) := [].

Definition default_socket : list (pkey * value) :=
  [ (PStr "remoteAddress", VStr "127.0.0.1"); (PStr "remotePort", VNum 7001) ].

(** The three sub-objects of the literal are allocated before the request
    that holds them; the order of allocation cannot be observed. *)
Definition createAnonymousContext (app req : value) : M value :=
  do headers <- new_object default_headers ;
  do query <- new_object default_query ;
  do socket <- new_object default_socket ;
  do request <- new_object (default_request headers query socket) ;
  exec (if truthy req
        then do keys <- for_in req ; forM keys (override_key request req)
        else ret tt) ;
  do response <- new_ServerResponse request ;
  createContext app request response.

(** ** Strings *)

Definition utf8 (bytes : list nat) : string :=
  string_of_list_ascii (map ascii_of_nat bytes).

(** [s.split(',')] *)
Fixpoint split_on (c : ascii) (s : string) : list string :=
  match s with
  | EmptyString => [EmptyString]
  | String a s' =>
      if Ascii.eqb a c then EmptyString :: split_on c s'
      else match split_on c s' with
           | [] => [String a EmptyString]
           | x :: xs => String a x :: xs
           end
  end.

(** White space and line terminators of the language, in UTF-8:
    U+0009..U+000D, U+0020, U+00A0, U+1680, U+2000..U+200A, U+2028, U+2029,
    U+202F, U+205F, U+3000, U+FEFF. *)
Definition js_whitespace : list (list nat) :=
  [ [9]; [10]; [11]; [12]; [13]; [32]; [194; 160]; [225; 154; 128];
    [226; 128; 128]; [226; 128; 129]; [226; 128; 130]; [226; 128; 131];
    [226; 128; 132]; [226; 128; 133]; [226; 128; 134]; [226; 128; 135];
    [226; 128; 136]; [226; 128; 137]; [226; 128; 138]; [226; 128; 168];
    [226; 128; 169]; [226; 128; 175]; [226; 129; 159]; [227; 128; 128];
    [239; 187; 191] ].

Fixpoint strip_prefix (p s : list nat) : option (list nat) :=
  match p, s with
  | [], _ => Some s
  | a :: p', b :: s' => if Nat.eqb a b then strip_prefix p' s' else None
  | _ :: _, [] => None
  end.

Fixpoint strip_any (ps : list (list nat)) (s : list nat)
  : option (list nat) :=
  match ps with
  | [] => None
  | p :: ps' =>
      match strip_prefix p s with
      | Some s' => Some s'
      | None => strip_any ps' s
      end
  end.

Fixpoint strip_all (n : nat) (ps : list (list nat)) (s : list nat)
  : list nat :=
  match n with
  | O => s
  | S n' =>
      match strip_any ps s with
      | Some s' => strip_all n' ps s'
      | None => s
      end
  end.

Definition bytes_of (s : string) : list nat :=
  map nat_of_ascii (list_ascii_of_string s).

(** [s.trim()] *)
Definition trim (s : string) : string :=
  let front := strip_all (String.length s) js_whitespace (bytes_of s) in
  let back :=
    strip_all (String.length s) (map (@rev nat) js_whitespace) (rev front) in
  utf8 (rev back).

(** ** The platform and the framework *)

(** What the file takes from Node: [path.join], [JSON.stringify] with its
    indentation argument fixed to 2, the outcome of [fs.writeFileSync] and
    the [toString] method objects other than regular expressions answer to. *)
Class Platform : Type := {
  path_join : list string -> string;
  JSON_stringify : heap -> value -> outcome string;
  fs_writeFileSync : string -> string -> option jserr;
  object_toString : heap -> value -> outcome string
}.

(** What the file takes from its superclass [EggApplication] and from the
    loader. *)
Class Framework : Type := {
  super_constructor : value -> M value;
  loader_load : value -> M unit;
  super_dumpConfig : value -> M unit
}.

Definition lift_outcome {A} (f : heap -> outcome A) : M A :=
  fun w => (w, f (w_heap w)).

(** [path.join(...)] rejects an argument that is not a string. *)
Fixpoint strings_of (vs : list value) : option (list string) :=
  match vs with
  | [] => Some []
  | VStr s :: vs' => cons s <$> strings_of vs'
  | _ :: _ => None
  end.

Definition path_join_call `{Platform} (args : list value) : M value :=
  match strings_of args with
  | Some ss => ret (VStr (path_join ss))
  | None => throw (TypeError "The path argument must be of type string")
  end.

(** The string a template literal puts in place of [${v}]. *)
Definition ToString `{Platform} (v : value) : M string :=
  match v with
  | VUndef => ret "undefined"
  | VNull => ret "null"
  | VBool true => ret "true"
  | VBool false => ret "false"
  | VNum n => ret (decimal n)
  | VStr s => ret s
  | VSym _ => throw (TypeError "Cannot convert a Symbol value to a string")
  | VRef l =>
      fun w =>
        match kind <$> (w_heap w !! l) with
        | Some (RegExp text) => (w, Ok text)
        | _ => (w, object_toString (w_heap w) v)
        end
  end.

(** [v.toString()] *)
Definition toString_call `{Platform} (v : value) : M value :=
  match v with
  | VUndef | VNull =>
      throw (TypeError "Cannot read property 'toString' of undefined or null")
  | VSym s => ret (VStr ("Symbol(" +:+ s +:+ ")"))
  | _ => do s <- ToString v ; ret (VStr s)
  end.

(** The key [obj[v]] reads. *)
Definition to_pkey `{Platform} (v : value) : M pkey :=
  match v with
  | VSym s => ret (PSym s)
  | _ => do s <- ToString v ; ret (PStr s)
  end.

Definition strict_eq (a b : value) : bool := bool_decide (a = b).

(** [`${err.message}`] on what a [catch] clause caught.  An error object
    holds its message; on any other value the member is read as on any
    value, which throws for [undefined] and [null], and what is read is
    converted to a string, which throws for a symbol and calls the
    [toString] of an object. *)
Definition caught_message `{Platform} (err : jserr) : M string :=
  match err with
  | mkErr _ message => ret message
  | Thrown v => do message <- get_prop v "message" ; ToString message
  end.

Definition log (lg : logger) (lv : level) (args : list value) : M unit :=
  emit_event (EvLog lg lv args).

Definition console_error (args : list value) : M unit :=
  emit_event (EvConsoleError args).

(** ** Application#keys *)

Definition KEYS : pkey := PSym "Application#keys".

(** [this.config.keys.split(',').map(s => s.trim())]; the array [split]
    returns does not outlive the expression and is not allocated. *)
Definition split_and_trim (ks : value) : M value :=
  match ks with
  | VStr s => alloc (mkObj None (Arr (map (fun x => VStr (trim x))
                                          (split_on "," s))) [])
  | VUndef | VNull =>
      throw (TypeError "Cannot read property 'split' of undefined or null")
  | _ => throw (TypeError "this.config.keys.split is not a function")
  end.

Definition config_of (app : value) (k : pkey) : M value :=
  do config <- get_prop app "config" ;
  get_prop config k.

Definition is_local_env (app : value) : M bool :=
  do env <- config_of app "env" ;
  if strict_eq env (VStr "local") then ret true
  else do env' <- config_of app "env" ; ret (strict_eq env' (VStr "unittest")).

Definition get_keys `{Platform} (app : value) : M value :=
  do cached <- get_prop app KEYS ;
  exec (if truthy cached then ret tt
        else
          do ks <- config_of app "keys" ;
          exec (if truthy ks then ret tt
                else
                  do loc_env <- is_local_env app ;
                  exec (if loc_env : bool
                        then
                          do baseDir <- config_of app "baseDir" ;
                          do configPath <-
                            path_join_call
                              [baseDir; VStr "config/config.default.js"] ;
                          exec console_error
                            [VStr "Cookie need secret key to sign and encrypt."] ;
                          console_error
                            [VStr "Please add `config.keys` in %s"; configPath]
                        else ret tt) ;
                  throw (Error "Please set config.keys first")) ;
          do ks' <- config_of app "keys" ;
          do arr <- split_and_trim ks' ;
          set_prop app KEYS arr) ;
  get_prop app KEYS.

(** ** The reply to a malformed request *)

Definition dquote : string := String (ascii_of_nat 34) EmptyString.
Definition LF : string := String (ascii_of_nat 10) EmptyString.
Definition CRLF : string := String (ascii_of_nat 13) LF.

(** U+2764, the heart of the page. *)
Definition heart : string := utf8 [226; 157; 164].

Definition DEFAULT_BAD_REQUEST_HTML : string :=
  "<html>" +:+ LF +:+
  "  <head><title>400 Bad Request</title></head>" +:+ LF +:+
  "  <body bgcolor=" +:+ dquote +:+ "white" +:+ dquote +:+ ">" +:+ LF +:+
  "  <center><h1>400 Bad Request</h1></center>" +:+ LF +:+
  "  <hr><center>" +:+ heart +:+ "</center>" +:+ LF +:+
  "  </body>" +:+ LF +:+
  "  </html>".

(** [Buffer.byteLength(s)]: the length of the UTF-8 encoding. *)
Definition Buffer_byteLength (s : string) : Z := Z.of_nat (String.length s).

Definition DEFAULT_BAD_REQUEST_HTML_LENGTH : Z :=
  Buffer_byteLength DEFAULT_BAD_REQUEST_HTML.

Definition DEFAULT_BAD_REQUEST_RESPONSE : string :=
  "HTTP/1.1 400 Bad Request" +:+ CRLF +:+
  "Content-Length: " +:+ decimal DEFAULT_BAD_REQUEST_HTML_LENGTH +:+
  CRLF +:+ CRLF +:+ DEFAULT_BAD_REQUEST_HTML.

(** [socket.end(data)] writes the data and then closes the socket. *)
Definition socket_end (socket : value) (data : string) : M unit :=
  match socket with
  | VRef _ =>
      exec emit_event (EvSocketWrite socket data) ;
      emit_event (EvSocketEnd socket)
  | VUndef | VNull =>
      throw (TypeError "Cannot read property 'end' of undefined or null")
  | _ => throw (TypeError "socket.end is not a function")
  end.

Definition onClientError (app err socket : value) : M value :=
  do address <- get_prop socket "remoteAddress" ;
  do port <- get_prop socket "remotePort" ;
  do code <- get_prop err "code" ;
  do message <- get_prop err "message" ;
  exec log AppLogger LError
    [VStr "A client (%s:%d) error [%s] occurred: %s";
     address; port; code; message] ;
  exec socket_end socket DEFAULT_BAD_REQUEST_RESPONSE ;
  ret VUndef.

(** ** Application#[WARN_CONFUSED_CONFIG] *)

Definition warn_confused_key (app confused : value) (key : string) : M unit :=
  do v <- config_of app key ;
  if strict_eq v VUndef then ret tt
  else
    do replacement <- get_prop confused key ;
    log AppLogger LWarn
      [VStr "Unexpected config key `%s` exists, Please use `%s` instead.";
       VStr key; replacement].

Definition warnConfusedConfig (app : value) : M value :=
  do confusedConfigurations <- config_of app "confusedConfigurations" ;
  do keys <- Object_keys confusedConfigurations ;
  exec forM keys (warn_confused_key app confusedConfigurations) ;
  ret VUndef.

(** ** Application#dumpConfig *)

(** The values [for (const x of v)] visits: the elements of an array, the
    characters of a string (one for each byte of its text). *)
Definition iterate (v : value) : M (list value) :=
  fun w =>
    match v with
    | VRef l =>
        match kind <$> (w_heap w !! l) with
        | Some (Arr es) => (w, Ok es)
        | _ => (w, Throw (TypeError "object is not iterable"))
        end
    | VStr s =>
        (w, Ok (map (fun c => VStr (String c EmptyString))
                    (list_ascii_of_string s)))
    | _ => (w, Throw (TypeError "value is not iterable"))
    end.

(** [arr.map(f)] *)
Definition Array_map (arr : value) (f : value -> M value) : M value :=
  match arr with
  | VUndef | VNull =>
      throw (TypeError "Cannot read property 'map' of undefined or null")
  | VRef l =>
      do kd <- (fun w => (w, Ok (kind <$> (w_heap w !! l)))) ;
      match kd with
      | Some (Arr es) =>
          do ys <- mapM es f ;
          alloc (mkObj None (Arr ys) [])
      | _ => throw (TypeError "map is not a function")
      end
  | _ => throw (TypeError "map is not a function")
  end.

(** [arr.push(x)] on an array of this file's own making. *)
Definition Array_push (arr : value) (x : value) : M unit :=
  fun w =>
    match arr with
    | VRef l =>
        match w_heap w !! l with
        | Some o =>
            match kind o with
            | Arr es =>
                (set_heap w (<[l := with_kind o (Arr (es ++ [x]))]> (w_heap w)),
                 Ok tt)
            | _ => (w, Throw (TypeError "push is not a function"))
            end
        | None => (w, Throw (TypeError "push is not a function"))
        end
    | _ => (w, Throw (TypeError "push is not a function"))
    end.

(** [stack[FULLPATH] || stack._name || stack.name || 'anonymous'] *)
Definition handler_id (FULLPATH : pkey) (stack : value) : M value :=
  do a <- get_prop stack FULLPATH ;
  if truthy a then ret a
  else
    do b <- get_prop stack "_name" ;
    if truthy b then ret b
    else
      do c <- get_prop stack "name" ;
      if truthy c then ret c else ret (VStr "anonymous").

Definition dump_layer `{Platform} (FULLPATH : value) (routers layer : value)
  : M unit :=
  do name <- get_prop layer "name" ;
  do methods <- get_prop layer "methods" ;
  do paramNames <- get_prop layer "paramNames" ;
  do path <- get_prop layer "path" ;
  do re <- get_prop layer "regexp" ;
  do regexp <- toString_call re ;
  do handlers <- get_prop layer "stack" ;
  do stack <-
    Array_map handlers
      (fun s => do key <- to_pkey FULLPATH ; handler_id key s) ;
  do entry <- new_object
    [ (PStr "name", name); (PStr "methods", methods);
      (PStr "paramNames", paramNames); (PStr "path", path);
      (PStr "regexp", regexp); (PStr "stack", stack) ] ;
  Array_push routers entry.

Definition writeFileSync `{Platform} (file : value) (data : string) : M unit :=
  match file with
  | VStr f =>
      match fs_writeFileSync f data with
      | None => emit_event (EvWriteFile f data)
      | Some e => throw e
      end
  | _ => throw (TypeError "The path argument must be of type string")
  end.

Definition dump_routers `{Platform} (app rundir FULLPATH : value) : M unit :=
  do dumpRouterFile <- path_join_call [rundir; VStr "router.json"] ;
  do routers <- alloc (mkObj None (Arr []) []) ;
  do router <- get_prop app "router" ;
  do layers_v <- get_prop router "stack" ;
  do layers <- iterate layers_v ;
  exec forM layers (dump_layer FULLPATH routers) ;
  do text <- lift_outcome (fun h => JSON_stringify h routers) ;
  writeFileSync dumpRouterFile text.

Definition dumpConfig `{Platform} `{Framework} (app : value) : M value :=
  exec super_dumpConfig app ;
  do rundir <- config_of app "rundir" ;
  do loader <- get_prop app "loader" ;
  do FileLoader <- get_prop loader "FileLoader" ;
  do FULLPATH <- get_prop FileLoader "FULLPATH" ;
  exec try_catch (dump_routers app rundir FULLPATH)
    (fun err =>
       do message <- caught_message err ;
       log AppCoreLogger LWarn
         [VStr ("dumpConfig router.json error: " +:+ message)]) ;
  ret VUndef.

(** ** Application#locals *)

Definition LOCALS : pkey := PSym "Application#locals".

Definition init_locals (app : value) : M unit :=
  do cur <- get_prop app LOCALS ;
  if truthy cur then ret tt
  else do bag <- new_object [] ; set_prop app LOCALS bag.

Definition get_locals (app : value) : M value :=
  exec init_locals app ;
  get_prop app LOCALS.

(** [assign] of the [utility] package: every own enumerable string key of a
    truthy source is assigned on the target; an array stands for the list of
    its elements as sources. *)
Definition assign_one (target obj : value) : M unit :=
  if truthy obj
  then
    do keys <- Object_keys obj ;
    forM keys (fun key => do v <- get_prop obj key ; set_prop target key v)
  else ret tt.

Definition utility_assign (target objects : value) : M value :=
  do sources <-
    (fun w =>
       match hkind (w_heap w) objects with
       | Some (Arr es) => (w, Ok es)
       | _ => (w, Ok [objects])
       end) ;
  exec forM sources (assign_one target) ;
  ret target.

Definition set_locals (app val : value) : M value :=
  exec init_locals app ;
  do bag <- get_prop app LOCALS ;
  exec utility_assign bag val ;
  ret VUndef.

(** ** Events *)

Definition on (name : string) (fn : listener) : M unit :=
  fun w => (add_listener w name false fn, Ok tt).

Definition once (name : string) (fn : listener) : M unit :=
  fun w => (add_listener w name true fn, Ok tt).

(** [server.on(name, fn)] on the server handed over by the transport. *)
Definition server_on (server : value) (name : string) : M unit :=
  match server with
  | VRef _ => emit_event (EvServerOn server name)
  | VUndef | VNull =>
      throw (TypeError "Cannot read property 'on' of undefined or null")
  | _ => throw (TypeError "server.on is not a function")
  end.

Definition onServer (app server : value) : M value :=
  exec emit_event (EvGraceful server) ;
  exec server_on server "clientError" ;
  ret VUndef.

(** [lg.error(...)] on a logger read from an object. *)
Definition logger_error (lg : value) (args : list value) : M unit :=
  match lg with
  | VRef _ => log (LoggerAt lg) LError args
  | VUndef | VNull =>
      throw (TypeError "Cannot read property 'error' of undefined or null")
  | _ => throw (TypeError "error is not a function")
  end.

Definition onCookieLimitExceed `{Platform} (payload : value) : M value :=
  do name <- get_prop payload "name" ;
  do value <- get_prop payload "value" ;
  do ctx <- get_prop payload "ctx" ;
  do name_s <- ToString name ;
  do len <- get_prop value "length" ;
  do len_s <- ToString len ;
  do err <- new_object
    [(PStr "message",
      VStr ("cookie " +:+ name_s +:+ "'s length(" +:+ len_s +:+
            ") exceed the limit(4093)"))] ;
  exec set_prop err "name" (VStr "CookieLimitExceedError") ;
  exec set_prop err "key" name ;
  exec set_prop err "cookie" value ;
  do coreLogger <- get_prop ctx "coreLogger" ;
  exec logger_error coreLogger [err] ;
  ret VUndef.

Definition run_listener `{Platform} (fn : listener) (args : list value)
  : M value :=
  match fn with
  | LCookieLimitExceed _ => onCookieLimitExceed (hd VUndef args)
  | LOnServer app => onServer app (hd VUndef args)
  end.

(** [emit(name, ...args)]: the listeners registered for [name] when the
    event is emitted run in registration order; one registered with [once]
    is removed before it runs. *)
Definition emit `{Platform} (name : string) (args : list value) : M bool :=
  do regs <-
    (fun w => (w, Ok (filter (fun r => reg_event r = name) (w_listeners w)))) ;
  exec forM regs
    (fun r =>
       exec (if reg_once r
             then (fun w => (drop_listener w (reg_id r), Ok tt))
             else ret tt) ;
       exec run_listener (reg_fn r) args ;
       ret tt) ;
  ret (negb (Nat.eqb (length regs) 0)).

Definition BIND_EVENTS (app : value) : M value :=
  exec on "cookieLimitExceed" (LCookieLimitExceed app) ;
  exec once "server" (LOnServer app) ;
  ret VUndef.

(** ** The constructor *)

Definition Application_new `{Platform} `{Framework} (options : value)
  : M value :=
  do options' <-
    (if strict_eq options VUndef then new_object [] else ret options) ;
  exec set_prop options' "type" (VStr "application") ;
  do this <- super_constructor options' ;
  exec try_catch (loader_load this) (fun e => throw e) ;
  exec dumpConfig this ;
  exec warnConfusedConfig this ;
  exec BIND_EVENTS this ;
  ret this.

(** ** What a constructed application provides *)

(** The three prototypes are allocated objects and the context prototype
    resolves [onerror] to a function, as the superclass sets them up. *)
Definition app_ready (h : heap) (app : value) : bool :=
  match read h app "context", read h app "request", read h app "response" with
  | VRef pc, VRef pr, VRef ps =>
      Nat.ltb pc (length h) && Nat.ltb pr (length h) && Nat.ltb ps (length h)
      && callable (hkind h (read h (VRef pc) "onerror"))
  | _, _, _ => false
  end.

Definition proto_of (h : heap) (v : value) : option loc :=
  match v with
  | VRef l => match h !! l with Some o => proto o | None => None end
  | _ => None
  end.

Definition ref_loc (v : value) : option loc :=
  match v with
  | VRef l => Some l
  | _ => None
  end.

(** The four objects [createContext] leaves at the end of a heap [h]: the
    context, the request facet, the response facet and the bound error
    handler. *)
Definition context_objs (h : heap) (now : Z) (app req res : value) : list obj :=
  let n := length h in
  let ctx := VRef n in
  let request := VRef (n + 1) in
  let response := VRef (n + 2) in
  let onerror := read h (read h app "context") "onerror" in
  let url := read h req "url" in
  [ mkObj (ref_loc (read h app "context")) Plain
      [ (PStr "request", request); (PStr "response", response);
        (PStr "app", app); (PStr "req", req); (PStr "res", res);
        (PStr "onerror", VRef (n + 3)); (PStr "originalUrl", url);
        (PStr "starttime", VNum now) ];
    mkObj (ref_loc (read h app "request")) Plain
      [ (PStr "app", app); (PStr "req", req); (PStr "res", res);
        (PStr "ctx", ctx); (PStr "response", response);
        (PStr "originalUrl", url) ];
    mkObj (ref_loc (read h app "response")) Plain
      [ (PStr "app", app); (PStr "req", req); (PStr "res", res);
        (PStr "ctx", ctx); (PStr "request", request) ];
    mkObj (proto_of h onerror) (Bound (default 0 (ref_loc onerror)) ctx) [] ].

(** The three facets of a context and the prototype each derives from. *)
Inductive facet : Type := FContext | FRequest | FResponse.

Definition facet_of (h : heap) (ctx : value) (F : facet) : value :=
  match F with
  | FContext => ctx
  | FRequest => read h ctx "request"
  | FResponse => read h ctx "response"
  end.

Definition shared_proto (h : heap) (app : value) (F : facet) : value :=
  match F with
  | FContext => read h app "context"
  | FRequest => read h app "request"
  | FResponse => read h app "response"
  end.

(** The fields [createContext] itself assigns on each facet. *)
Definition created_fields (F : facet) : list pkey :=
  match F with
  | FContext =>
      [ PStr "request"; PStr "response"; PStr "app"; PStr "req"; PStr "res";
        PStr "onerror"; PStr "originalUrl"; PStr "starttime" ]
  | FRequest =>
      [ PStr "app"; PStr "req"; PStr "res"; PStr "ctx"; PStr "response";
        PStr "originalUrl" ]
  | FResponse =>
      [ PStr "app"; PStr "req"; PStr "res"; PStr "ctx"; PStr "request" ]
  end.

Definition is_created_field (F : facet) (k : pkey) : bool :=
  existsb (pkey_eqb k) (created_fields F).

(** ** The request of an anonymous context, as a function of the overrides *)

Definition is_nonempty_string (v : value) : bool :=
  match v with
  | VStr s => negb (String.eqb s "")
  | _ => false
  end.

(** The keys of the overrides the loop of [createAnonymousContext] visits. *)
Definition override_keys (h : heap) (req : value) : list string :=
  if truthy req then for_in_keys h req else [].

(** [k] is an enumerable string key of the object at [l] or of an object
    on its prototype chain. *)
Inductive has_key (h : heap) (k : string) : loc -> Prop :=
  | has_own l o :
      h !! l = Some o -> is_Some (own_get (PStr k) (enumerable_own o)) ->
      has_key h k l
  | has_inherited l o p :
      h !! l = Some o -> proto o = Some p -> has_key h k p -> has_key h k l.

(** The overrides list the key [k]: they are an object that has it. *)
Definition listed (h : heap) (req : value) (k : string) : Prop :=
  match req with
  | VRef l => has_key h k l
  | _ => False
  end.

(** The value a list of properties gives a key when they are assigned in
    order: that of its last entry for the key. *)
Definition assigned (s : pkey) (ps : list (pkey * value)) : option value :=
  own_get s (rev ps).

Definition default_sub (k : string) : list (pkey * value) :=
  if String.eqb k "headers" then default_headers
  else if String.eqb k "socket" then default_socket
  else default_query.

(** What subfield [s] of the merged key [k] reads after the merge. *)
Definition merged_value (h : heap) (req : value) (k : string) (s : pkey)
  : value :=
  let overridden :=
    if bool_decide (k ∈ override_keys h req)
    then assigned s (assign_source h (read h req k))
    else None in
  match overridden with
  | Some v => v
  | None => default VUndef (own_get s (default_sub k))
  end.

(** What a key that is not merged reads on the synthetic request. *)
Definition replaced_value (h : heap) (req : value) (k : string) : value :=
  if bool_decide (k ∈ override_keys h req)
  then read h req k
  else default VUndef (own_get k (default_request VUndef VUndef VUndef)).

(** The properties of the four objects the defaults are made of, and what
    one turn of the override loop does to them. *)
Record anon_props : Type := mkAnon {
  a_headers : list (pkey * value);
  a_query : list (pkey * value);
  a_socket : list (pkey * value);
  a_request : list (pkey * value)
}.

Definition anon_objs (st : anon_props) : list obj :=
  [ mkObj None Plain (a_headers st); mkObj None Plain (a_query st);
    mkObj None Plain (a_socket st); mkObj None Plain (a_request st) ].

Definition anon_defaults (n : nat) : anon_props :=
  mkAnon default_headers default_query default_socket
         (default_request (VRef n) (VRef (n + 1)) (VRef (n + 2))).

Definition merge_into (ps base : list (pkey * value)) : list (pkey * value) :=
  fold_left (fun acc kv => own_set (fst kv) (snd kv) acc) ps base.

Definition anon_at (i : nat) (st : anon_props) : list (pkey * value) :=
  match i with
  | 0 => a_headers st
  | 1 => a_query st
  | 2 => a_socket st
  | _ => a_request st
  end.

Definition anon_with (i : nat) (ps : list (pkey * value)) (st : anon_props)
  : anon_props :=
  match i with
  | 0 => mkAnon ps (a_query st) (a_socket st) (a_request st)
  | 1 => mkAnon (a_headers st) ps (a_socket st) (a_request st)
  | 2 => mkAnon (a_headers st) (a_query st) ps (a_request st)
  | _ => mkAnon (a_headers st) (a_query st) (a_socket st) ps
  end.

(** Where the sub-object of a merged key sits among the four objects. *)
Definition merged_index (key : string) : nat :=
  if String.eqb key "headers" then 0
  else if String.eqb key "query" then 1
  else 2.

Definition anon_step (h : heap) (req : value) (st : anon_props)
    (key : string) : anon_props :=
  if merged_key key
  then
    let i := merged_index key in
    anon_with i (merge_into (assign_source h (read h req key)) (anon_at i st)) st
  else anon_with 3 (own_set key (read h req key) (a_request st)) st.

(** The synthetic request refers to its three sub-objects. *)
Definition anon_linked (n : nat) (st : anon_props) : Prop :=
  forall key,
    merged_key key = true ->
    own_get (PStr key) (a_request st) = Some (VRef (n + merged_index key)).

(** The heap [createAnonymousContext] hands to [createContext]: the heap it
    started in, the four objects of the synthetic request and the response. *)
Definition anon_final (h : heap) (req : value) : anon_props :=
  fold_left (anon_step h req) (override_keys h req) (anon_defaults (length h)).

Definition anon_heap (h : heap) (req : value) : heap :=
  h ++ (anon_objs (anon_final h req) ++ [mkObj None Plain []]).

(** ** A sample application *)

(** A heap with the error handler (0), the context, request and response
    prototypes (1-3), the configuration (4), the application (5) and the
    raw request and response of a connection (6, 7). *)
Definition sample_heap : heap :=
  [ mkObj None Func [(PStr "name", VStr "onerror")];
    mkObj None Plain [(PStr "onerror", VRef 0); (PStr "state", VNull)];
    mkObj None Plain [(PStr "fresh", VBool false)];
    mkObj None Plain [(PStr "status", VNum 404)];
    mkObj None Plain [(PStr "env", VStr "prod"); (PStr "keys", VStr "a, b ,c");
                      (PStr "baseDir", VStr "/srv/app")];
    mkObj None Plain [(PStr "context", VRef 1); (PStr "request", VRef 2);
                      (PStr "response", VRef 3); (PStr "config", VRef 4)];
    mkObj None Plain [(PStr "url", VStr "/home"); (PStr "method", VStr "GET")];
    mkObj None Plain [] ].

Definition sample_app : value := VRef 5.
Definition sample_req : value := VRef 6.
Definition sample_res : value := VRef 7.

Definition sample_world : world := mkWorld sample_heap 1700000000000 [] [] 0.

(** A platform for the samples: paths are joined with a slash, every
    write succeeds. *)
Definition sample_platform : Platform :=
  {| path_join := String.concat "/";
     JSON_stringify := fun _ _ => Ok "<json>";
     fs_writeFileSync := fun _ _ => None;
     object_toString := fun _ _ => Ok "[object Object]" |}.

(** The sample application on a developer's machine, before any secret is
    configured: the configuration (4) has no [keys] and [env] is [local]. *)
Definition sample_local_heap : heap :=
  <[4 := mkObj None Plain [(PStr "env", VStr "local");
                           (PStr "baseDir", VStr "/srv/app")]]> sample_heap.

Definition sample_local_world : world :=
  mkWorld sample_local_heap 1700000000000 [] [] 0.

(** The environment test of the [keys] accessor. *)
Definition local_env (env : value) : bool :=
  strict_eq env (VStr "local") || strict_eq env (VStr "unittest").

Definition keys_array (s : string) : obj :=
  mkObj None (Arr (map (fun x => VStr (trim x)) (split_on "," s))) [].

Definition keys_guidance `{Platform} (baseDir : string) : list event :=
  [ EvConsoleError [VStr "Cookie need secret key to sign and encrypt."];
    EvConsoleError
      [VStr "Please add `config.keys` in %s";
       VStr (path_join [baseDir; "config/config.default.js"])] ].

Definition add_events (w : world) (es : list event) : world :=
  mkWorld (w_heap w) (w_now w) (w_trace w ++ es) (w_listeners w) (w_next_id w).

(** The head and the body of an HTTP message: what stands before and after
    the first empty line. *)
Definition message_parts (msg : string) : option (string * string) :=
  match String.index 0 (CRLF +:+ CRLF) msg with
  | Some i =>
      Some (String.substring 0 i msg,
            String.substring (i + 4) (String.length msg - (i + 4)) msg)
  | None => None
  end.

(** A malformed connection: the socket (8) and the parse error (9). *)
Definition sample_socket_heap : heap :=
  sample_heap ++
  [ mkObj None Plain [(PStr "remoteAddress", VStr "10.0.0.7");
                      (PStr "remotePort", VNum 51234)];
    mkObj None Plain [(PStr "code", VStr "HPE_INVALID_METHOD");
                      (PStr "message", VStr "Parse Error")] ].

(** The warnings [warnConfusedConfig] logs for the keys of the mapping [m],
    given the configuration [c]. *)
Definition confused_warning (h : heap) (c m : loc) (key : string)
  : list event :=
  if strict_eq (hget h c key) VUndef then []
  else [ EvLog AppLogger LWarn
           [ VStr "Unexpected config key `%s` exists, Please use `%s` instead.";
             VStr key; hget h m key ] ].

Definition confused_warnings (h : heap) (c m : loc) (keys : list string)
  : list event :=
  flat_map (confused_warning h c m) keys.

(** A configuration (1) that still sets [oldKey], with the mapping (0) of
    deprecated keys, and its application (2). *)
Definition sample_confused_heap : heap :=
  [ mkObj None Plain [(PStr "oldKey", VStr "newKey");
                      (PStr "bodyparser", VStr "bodyParser")];
    mkObj None Plain [(PStr "oldKey", VNum 5);
                      (PStr "confusedConfigurations", VRef 0)];
    mkObj None Plain [(PStr "config", VRef 1)] ].

(** The application's locals: the private slot of the application [a]
    holds the bag [b], an object literal with the properties [ps]. *)
Definition locals_ready (h : heap) (a b : loc) (ps : list (pkey * value))
  : Prop :=
  exists oa,
    h !! a = Some oa /\ kind oa = Plain /\
    own_get LOCALS (props oa) = Some (VRef b) /\
    h !! b = Some (mkObj None Plain ps) /\ a <> b.

Definition is_array (o : obj) : bool :=
  match kind o with
  | Arr _ => true
  | _ => false
  end.

(** The own enumerable string keys of an object, each with the value the
    object reads for it. *)
Definition own_value (o : obj) (key : string) : value :=
  default VUndef (own_get (PStr key) (enumerable_own o)).

Definition own_pairs (o : obj) : list (pkey * value) :=
  map (fun key => (PStr key, own_value o key)) (string_keys (enumerable_own o)).

(** An application (0) whose locals were never touched, and two objects
    (1, 2) to assign: [{ title: 'egg', lang: 'en' }] and [{ lang: 'fr' }]. *)
Definition sample_locals_heap : heap :=
  [ mkObj None Plain [(PStr "name", VStr "demo")];
    mkObj None Plain [(PStr "title", VStr "egg"); (PStr "lang", VStr "en")];
    mkObj None Plain [(PStr "lang", VStr "fr")] ].

(** The same application once the getter has made the bag (3). *)
Definition sample_locals_ready_heap : heap :=
  [ mkObj None Plain [(PStr "name", VStr "demo"); (LOCALS, VRef 3)];
    mkObj None Plain [(PStr "title", VStr "egg"); (PStr "lang", VStr "en")];
    mkObj None Plain [(PStr "lang", VStr "fr")];
    mkObj None Plain [] ].

(** ** The router snapshot, as a function of the router *)

Definition array_elems (h : heap) (v : value) : option (list value) :=
  match hkind h v with
  | Some (Arr es) => Some es
  | _ => None
  end.

Definition regexp_text (h : heap) (v : value) : option string :=
  match hkind h v with
  | Some (RegExp text) => Some text
  | _ => None
  end.

(** The identifier of a handler: its [FULLPATH], else its [_name], else its
    [name], else ['anonymous']. *)
Definition handler_name (h : heap) (FULLPATH : pkey) (s : value) : value :=
  if truthy (read h s FULLPATH) then read h s FULLPATH
  else if truthy (read h s "_name") then read h s "_name"
  else if truthy (read h s "name") then read h s "name"
  else VStr "anonymous".

(** A layer the router can hold: an object whose [regexp] is a regular
    expression and whose [stack] is an array of handlers. *)
Definition layer_ok (h : heap) (layer : value) : bool :=
  negb (nullish layer) && value_closed (length h) layer
  && match regexp_text h (read h layer "regexp"),
           array_elems h (read h layer "stack") with
     | Some _, Some hs =>
         forallb (fun s => negb (nullish s) && value_closed (length h) s) hs
     | _, _ => false
     end.

(** The array of handler identifiers and the element of the snapshot made
    for a layer. *)
Definition layer_stack (h : heap) (FULLPATH : pkey) (layer : value) : obj :=
  mkObj None
    (Arr (map (handler_name h FULLPATH)
              (default [] (array_elems h (read h layer "stack")))))
    [].

Definition layer_entry (h : heap) (layer stack : value) : obj :=
  mkObj None Plain
    [ (PStr "name", read h layer "name");
      (PStr "methods", read h layer "methods");
      (PStr "paramNames", read h layer "paramNames");
      (PStr "path", read h layer "path");
      (PStr "regexp",
       VStr (default "" (regexp_text h (read h layer "regexp"))));
      (PStr "stack", stack) ].

(** The objects made for the layers from the [k]-th on, when the array of
    the snapshot sits at [n], and the references the array holds to them. *)
Fixpoint snapshot_objs (h : heap) (FULLPATH : pkey) (n k : nat)
    (layers : list value) : list obj :=
  match layers with
  | [] => []
  | layer :: layers' =>
      layer_stack h FULLPATH layer
      :: layer_entry h layer (VRef (n + 1 + 2 * k))
      :: snapshot_objs h FULLPATH n (S k) layers'
  end.

Fixpoint snapshot_refs (n k : nat) (layers : list value) : list value :=
  match layers with
  | [] => []
  | _ :: layers' => VRef (n + 2 + 2 * k) :: snapshot_refs n (S k) layers'
  end.

Definition router_snapshot (h : heap) (FULLPATH : pkey) (layers : list value)
  : list obj :=
  mkObj None (Arr (snapshot_refs (length h) 0 layers)) []
  :: snapshot_objs h FULLPATH (length h) 0 layers.

(** An application (17) with one route: the router (8) holds the layer (6)
    named [home], whose handlers are a controller method loaded from a file
    (0) and a function without a name (1). *)
Definition sample_router_heap : heap :=
  [ mkObj None Func [(PStr "name", VStr "index");
                     (PSym "EGG_LOADER_ITEM_FULLPATH",
                      VStr "/srv/app/app/controller/home.js#index()")];
    mkObj None Func [(PStr "name", VStr "")];
    mkObj None (RegExp "/^(?:\/(?=$))?$/i") [];
    mkObj None (Arr [VRef 0; VRef 1]) [];
    mkObj None (Arr [VStr "HEAD"; VStr "GET"]) [];
    mkObj None (Arr []) [];
    mkObj None Plain [(PStr "name", VStr "home"); (PStr "methods", VRef 4);
                      (PStr "paramNames", VRef 5); (PStr "path", VStr "/");
                      (PStr "regexp", VRef 2); (PStr "stack", VRef 3)];
    mkObj None (Arr [VRef 6]) [];
    mkObj None Plain [(PStr "stack", VRef 7)];
    mkObj None Plain [(PStr "FULLPATH", VSym "EGG_LOADER_ITEM_FULLPATH")];
    mkObj None Plain [(PStr "FileLoader", VRef 9)];
    mkObj None Plain [(PStr "rundir", VStr "/srv/app/run");
                      (PStr "env", VStr "prod");
                      (PStr "confusedConfigurations", VRef 12)];
    mkObj None Plain [(PStr "bodyparser", VStr "bodyParser")];
    mkObj None Func [(PStr "name", VStr "onerror")];
    mkObj None Plain [(PStr "onerror", VRef 13)];
    mkObj None Plain [];
    mkObj None Plain [];
    mkObj None Plain [(PStr "config", VRef 11); (PStr "loader", VRef 10);
                      (PStr "router", VRef 8); (PStr "context", VRef 14);
                      (PStr "request", VRef 15); (PStr "response", VRef 16)] ].

Definition sample_router_world : world :=
  mkWorld sample_router_heap 1700000000000 [] [] 0.

(** A framework for the samples: the superclass hands over the application
    at 17; loading and the dump of the configuration leave a mark in the
    trace. *)
Definition sample_framework : Framework :=
  {| super_constructor := fun _ => ret (VRef 17);
     loader_load := fun _ => emit_event EvLoaderLoad;
     super_dumpConfig := fun _ => emit_event EvSuperDumpConfig |}.

(** A platform on which the run directory cannot be written. *)
Definition readonly_platform : Platform :=
  {| path_join := String.concat "/";
     JSON_stringify := fun _ _ => Ok "<json>";
     fs_writeFileSync :=
       fun _ _ => Some (Error "EACCES: permission denied");
     object_toString := fun _ _ => Ok "[object Object]" |}.

(** A platform on which an object that is no regular expression answers
    [toString] by throwing [null]. *)
Definition throwing_platform : Platform :=
  {| path_join := String.concat "/";
     JSON_stringify := fun _ _ => Ok "<json>";
     fs_writeFileSync := fun _ _ => None;
     object_toString := fun _ _ => Throw (Thrown VNull) |}.

(** The sample router whose layer has such an object (15) for its
    [regexp]. *)
Definition sample_throwing_world : world :=
  set_heap sample_router_world (hset sample_router_heap 6 "regexp" (VRef 15)).

(** The warning [dumpConfig] logs for a failure whose message is [msg]. *)
Definition router_warning (msg : string) : event :=
  EvLog AppCoreLogger LWarn [VStr ("dumpConfig router.json error: " +:+ msg)].

(** ** Emitting an event several times *)

Fixpoint emit_times `{Platform} (name : string) (args : list value) (n : nat)
  : M unit :=
  match n with
  | O => ret tt
  | S n' => exec emit name args ; emit_times name args n'
  end.

Definition no_listener (name : string) (w : world) : Prop :=
  Forall (fun r => reg_event r <> name) (w_listeners w).

(** The two registrations [BIND_EVENTS] adds, the first with serial number
    [id]. *)
Definition bound_listeners (id : nat) (app : value) : list registration :=
  [ mkReg id "cookieLimitExceed" false (LCookieLimitExceed app);
    mkReg (S id) "server" true (LOnServer app) ].

Definition server_events (srv : value) : list event :=
  [ EvGraceful srv; EvServerOn srv "clientError" ].

(** The payload of [cookieLimitExceed]: an object with the name and the
    value of the cookie, both strings, and the context, whose [coreLogger]
    is the logger [lg]. *)
Definition cookie_payload (h : heap) (p : loc) (nm val : string) (lg : loc)
  : Prop :=
  exists op c oc,
    h !! p = Some op /\ h !! c = Some oc /\
    own_lookup "name" op = Some (VStr nm) /\
    own_lookup "value" op = Some (VStr val) /\
    own_lookup "ctx" op = Some (VRef c) /\
    own_lookup "coreLogger" oc = Some (VRef lg).

Definition cookie_error (nm val : string) : obj :=
  mkObj None Plain
    [ (PStr "message",
       VStr ("cookie " +:+ nm +:+ "'s length(" +:+ decimal (utf16_units val)
             +:+ ") exceed the limit(4093)"));
      (PStr "name", VStr "CookieLimitExceedError");
      (PStr "key", VStr nm);
      (PStr "cookie", VStr val) ].

Definition cookie_log (lg : loc) (err : loc) : event :=
  EvLog (LoggerAt (VRef lg)) LError [VRef err].

(** A listening server (0), and a context (2) with its logger (1) whose
    cookie [sid] (3 is the payload) has grown too long. *)
Definition sample_events_heap : heap :=
  [ mkObj None Plain [(PStr "listening", VBool true)];
    mkObj None Plain [];
    mkObj None Plain [(PStr "coreLogger", VRef 1)];
    mkObj None Plain [(PStr "name", VStr "sid");
                      (PStr "value", VStr "0123456789");
                      (PStr "ctx", VRef 2)];
    mkObj None Plain [] ].

Definition sample_events_world : world :=
  mkWorld sample_events_heap 0 [] [] 0.

(** The same heap with the overrides
    [{ query: { a: '1' }, method: 'POST', headers: { 'user-agent': 'cron' } }]
    at 10. *)
Definition sample_override_heap : heap :=
  sample_heap ++
  [ mkObj None Plain [(PStr "a", VStr "1")];
    mkObj None Plain [(PStr "user-agent", VStr "cron")];
    mkObj None Plain [(PStr "query", VRef 8); (PStr "method", VStr "POST");
                      (PStr "headers", VRef 9)] ].

Definition sample_override : value := VRef 10.

Definition sample_override_world : world :=
  mkWorld sample_override_heap 1700000000000 [] [] 0.

(** ** What a computation leaves alone *)

(** The world [w'] still has the objects that sit below [n] in [w] as they
    were, and the clock and the listeners of [w]. *)
Definition kept (n : nat) (w w' : world) : Prop :=
  take n (w_heap w') = take n (w_heap w) /\
  length (w_heap w) <= length (w_heap w') /\
  w_now w' = w_now w /\
  w_listeners w' = w_listeners w /\ w_next_id w' = w_next_id w.

(** Run in a world that has at least [n] objects, [m] keeps those below
    [n], and the events it adds to the trace and its outcome are related by
    [R]. *)
Definition frames {A} (n : nat) (m : M A)
    (R : list event -> outcome A -> Prop) : Prop :=
  forall w,
    n <= length (w_heap w) ->
    exists es,
      kept n w (m w).1 /\ w_trace (m w).1 = w_trace w ++ es /\ R es (m w).2.

(** The same for a computation that adds nothing to the trace: its result
    satisfies [Q], the error it throws satisfies [E]. *)
Definition quiet {A} (n : nat) (m : M A) (Q : A -> Prop) (E : jserr -> Prop)
  : Prop :=
  frames n m (fun es r =>
                es = [] /\ match r with Ok a => Q a | Throw e => E e end).

Definition is_TypeError (e : jserr) : Prop := ename e = "TypeError".

(** A reference to an object allocated at [n] or later. *)
Definition fresh_ref (n : nat) (v : value) : Prop :=
  exists l, v = VRef l /\ n <= l.

(** ** What [createContext] needs *)

(** The values [Object.create] takes as a prototype. *)
Definition is_proto (v : value) : bool :=
  match v with
  | VRef _ | VNull => true
  | _ => false
  end.

(** An application whose [context] is an object on which [onerror] resolves
    to a function and whose [request] and [response] are objects or [null],
    and a raw request that is neither [undefined] nor [null]. *)
Definition creatable (h : heap) (app req : value) : bool :=
  match read h app "context" with
  | VRef pc =>
      is_proto (read h app "request") && is_proto (read h app "response")
      && callable (hkind h (hget h pc "onerror"))
      && negb (nullish req)
  | _ => false
  end.

(** Every value of a list of properties is allocated below [n]. *)
Definition props_closed (n : nat) (ps : list (pkey * value)) : bool :=
  forallb (fun kv => value_closed n (snd kv)) ps.

Definition anon_closed (n : nat) (st : anon_props) : Prop :=
  forall i, props_closed n (anon_at i st) = true.

(** ** The shape of the secret keys *)

(** The number of occurrences of a character in a string. *)
Fixpoint count_char (c : ascii) (s : string) : nat :=
  match s with
  | EmptyString => 0
  | String a s' => (if Ascii.eqb a c then 1 else 0) + count_char c s'
  end.

(** No white space or line terminator stands at the start or at the end of
    the string. *)
Definition no_space_around (s : string) : Prop :=
  Forall (fun p => ~ p `prefix_of` bytes_of s /\ ~ p `suffix_of` bytes_of s)
         js_whitespace.

Definition any_error (e : jserr) : Prop := True.

(** What [dump_routers] may add to the trace: the write of the file when it
    returns, nothing when it throws. *)
Definition router_dump_events `{Platform} (rundir : value)
    (es : list event) (r : outcome unit) : Prop :=
  match r with
  | Ok _ =>
      exists d text,
        rundir = VStr d /\ es = [EvWriteFile (path_join [d; "router.json"]) text]
  | Throw _ => es = []
  end.

(** ** The options of the constructor *)

(** The options the superclass constructor receives and the world it runs
    in: a missing argument stands for a new object, and [type] is set on the
    object, which is the caller's own when one is given.  Anything else has
    no options to offer. *)
Definition typed_options (options : value) (w : world)
  : option (world * value) :=
  match options with
  | VUndef =>
      Some (set_heap w
              (w_heap w ++ [mkObj None Plain [(PStr "type", VStr "application")]]),
            VRef (length (w_heap w)))
  | VRef l =>
      Some (set_heap w (hset (w_heap w) l "type" (VStr "application")), options)
  | _ => None
  end.

(** ** The hook for uncaught exceptions *)

(** The [error] function [onServer] hands to [graceful],
    [(err, throwErrorCount) => { ... }], in the process [pid]. *)
Definition graceful_error `{Platform} (app : value) (pid : Z)
    (err throwErrorCount : value) : M value :=
  do message <- get_prop err "message" ;
  exec (if truthy message
        then
          do old <- get_prop err "message" ;
          do count <- ToString throwErrorCount ;
          do old_s <- ToString old ;
          set_prop err "message"
            (VStr (old_s +:+ " (uncaughtException throw " +:+ count +:+
                   " times on pid:" +:+ decimal pid +:+ ")"))
        else ret tt) ;
  exec log AppCoreLogger LError [err] ;
  ret VUndef.

Definition uncaught_suffix (count pid : Z) : string :=
  " (uncaughtException throw " +:+ decimal count +:+ " times on pid:" +:+
  decimal pid +:+ ")".

(** An error (0) thrown outside any request. *)
Definition sample_uncaught_heap : heap :=
  [ mkObj None Plain [(PStr "name", VStr "Error"); (PStr "message", VStr "boom")] ].

(** A framework whose loader fails. *)
Definition failing_framework : Framework :=
  {| super_constructor := fun _ => ret (VRef 17);
     loader_load := fun _ => throw (Error "plugin not found");
     super_dumpConfig := fun _ => emit_event EvSuperDumpConfig |}.

(** ** Application#runInBackground *)

(** What [runInBackground] takes from outside this file: the callee that
    [eggUtils.getCalleeFromStack(true)] reads off the call stack, and what
    calling a function of the heap with a receiver and arguments does. *)
Class Background : Type := {
  getCalleeFromStack : world -> string;
  call_function : value -> value -> list value -> M value
}.

(** [obj.name(...args)]: the method is looked up on the object and called
    with the object as its receiver. *)
Definition call_method `{Background} (obj : value) (name : string)
    (args : list value) : M value :=
  do f <- get_prop obj name ;
  do kd <- (fun w => (w, Ok (hkind (w_heap w) f))) ;
  if callable kd then call_function f obj args
  else throw (TypeError (name +:+ " is not a function")).

Definition runInBackground `{Background} (app scope : value) : M value :=
  do ctx <- createAnonymousContext app VUndef ;
  do name <- get_prop scope "name" ;
  exec (if truthy name then ret tt
        else
          do callee <- (fun w => (w, Ok (VStr (getCalleeFromStack w)))) ;
          set_prop scope "_name" callee) ;
  exec call_method ctx "runInBackground" [scope] ;
  ret VUndef.

(** A background in which the callee is a fixed place of the source and a
    call leaves a mark in the log of its receiver. *)
Definition sample_background : Background :=
  {| getCalleeFromStack := fun _ => "app/schedule/sync.js:12:5";
     call_function := fun f this args =>
       exec log (LoggerAt this) LError (f :: args) ; ret VUndef |}.

(** The sample application whose context prototype (1) has the method
    [runInBackground] (8), and a task without a name (9). *)
Definition sample_background_heap : heap :=
  <[1 := mkObj None Plain [(PStr "onerror", VRef 0); (PStr "state", VNull);
                           (PStr "runInBackground", VRef 8)]]> sample_heap
  ++ [ mkObj None Func [(PStr "name", VStr "runInBackground")];
       mkObj None Func [(PStr "name", VStr "")] ].

(** ** Lemmas on the heap *)

Arguments hget : simpl never.
Arguments hset : simpl never.

Definition agree_below (n : nat) (h h' : heap) : Prop :=
  forall l, l < n -> h !! l = h' !! l.

Lemma proto_ok_from_lookup i h l o p :
  proto_ok_from i h = true ->
  h !! l = Some o -> proto o = Some p -> p < i + l.
Proof.
  revert i l. induction h as [|x h IH]; intros i l Hok Hl Hp; [easy|].
  simpl in Hok. apply andb_true_iff in Hok as [Hx Hrest].
  destruct l as [|l]; simpl in Hl.
  - injection Hl as ->. rewrite Hp in Hx. apply Nat.ltb_lt in Hx. lia.
  - specialize (IH (S i) l Hrest Hl Hp). lia.
Qed.

Lemma proto_wf_lookup h l o p :
  proto_wf h -> h !! l = Some o -> proto o = Some p -> p < l.
Proof. intros Hwf Hl Hp. apply (proto_ok_from_lookup 0 h l o p); auto. Qed.

Lemma proto_ok_from_app i h t :
  proto_ok_from i (h ++ t) =
  proto_ok_from i h && proto_ok_from (i + length h) t.
Proof.
  revert i. induction h as [|x h IH]; intros i; simpl.
  - now rewrite Nat.add_0_r.
  - rewrite IH, andb_assoc. do 2 f_equal. lia.
Qed.

Lemma proto_wf_app h t :
  proto_wf h -> proto_ok_from (length h) t = true -> proto_wf (h ++ t).
Proof.
  unfold proto_wf. intros Hh Ht. now rewrite proto_ok_from_app, Hh.
Qed.

Lemma proto_ok_from_insert i h l o o' :
  h !! l = Some o -> proto o' = proto o ->
  proto_ok_from i (<[l := o']> h) = proto_ok_from i h.
Proof.
  revert i l. induction h as [|x h IH]; intros i l Hl Hp; [easy|].
  destruct l as [|l]; simpl in *.
  - injection Hl as ->. now rewrite Hp.
  - now rewrite (IH _ _ Hl Hp).
Qed.

Lemma proto_wf_hset h l k v : proto_wf h -> proto_wf (hset h l k v).
Proof.
  unfold proto_wf, hset. intros Hwf.
  destruct (h !! l) as [o|] eqn:Hl; [|exact Hwf].
  now rewrite (proto_ok_from_insert 0 h l o).
Qed.

Lemma hget_fuel_enough h k :
  proto_wf h ->
  forall n m l, l < n -> l < m -> hget_fuel n h l k = hget_fuel m h l k.
Proof.
  intros Hwf. induction n as [|n IH]; intros m l Hn Hm; [lia|].
  destruct m as [|m]; [lia|]. cbn [hget_fuel].
  destruct (h !! l) as [o|] eqn:Hl; [|reflexivity].
  destruct (own_lookup k o); [reflexivity|].
  destruct (proto o) as [p|] eqn:Hp; [|reflexivity].
  pose proof (proto_wf_lookup h l o p Hwf Hl Hp). apply IH; lia.
Qed.

Lemma hget_unfold h l k :
  proto_wf h ->
  hget h l k =
  match h !! l with
  | None => VUndef
  | Some o =>
      match own_lookup k o with
      | Some v => v
      | None =>
          match proto o with
          | Some p => hget h p k
          | None => VUndef
          end
      end
  end.
Proof.
  intros Hwf. unfold hget at 1. cbn [hget_fuel].
  destruct (h !! l) as [o|] eqn:Hl; [|reflexivity].
  destruct (own_lookup k o); [reflexivity|].
  destruct (proto o) as [p|] eqn:Hp; [|reflexivity].
  pose proof (proto_wf_lookup h l o p Hwf Hl Hp).
  unfold hget. apply hget_fuel_enough; auto.
Qed.

Lemma hget_fuel_agree n h h' k :
  proto_wf h -> agree_below n h h' ->
  forall f l, l < n -> hget_fuel f h l k = hget_fuel f h' l k.
Proof.
  intros Hwf Hag. induction f as [|f IH]; intros l Hl; [reflexivity|].
  cbn [hget_fuel]. rewrite <- (Hag l Hl).
  destruct (h !! l) as [o|] eqn:Ho; [|reflexivity].
  destruct (own_lookup k o); [reflexivity|].
  destruct (proto o) as [p|] eqn:Hp; [|reflexivity].
  pose proof (proto_wf_lookup h l o p Hwf Ho Hp). apply IH; lia.
Qed.

Lemma hget_agree n h h' l k :
  proto_wf h -> agree_below n h h' -> l < n -> hget h l k = hget h' l k.
Proof. intros. unfold hget. now apply (hget_fuel_agree n). Qed.

(** A read that starts at an object both heaps hold alike, and whose
    prototype lies in the part they share, gives the same value. *)
Lemma hget_through n h h' l k :
  proto_wf h -> agree_below n h h' -> h !! l = h' !! l ->
  (forall o p, h !! l = Some o -> proto o = Some p -> p < n) ->
  hget h l k = hget h' l k.
Proof.
  intros Hwf Hag Hl Hp. unfold hget. cbn [hget_fuel]. rewrite <- Hl.
  destruct (h !! l) as [o|] eqn:Ho; [|reflexivity].
  destruct (own_lookup k o); [reflexivity|].
  destruct (proto o) as [p|] eqn:Hpo; [|reflexivity].
  apply (hget_fuel_agree n); eauto.
Qed.

Lemma agree_below_app h t : agree_below (length h) h (h ++ t).
Proof. intros l Hl. symmetry. now apply lookup_app_l. Qed.

Lemma agree_below_hset n h l k v :
  n <= l -> agree_below n h (hset h l k v).
Proof.
  intros Hn l' Hl'. unfold hset. destruct (h !! l); [|reflexivity].
  symmetry. apply list_lookup_insert_ne. lia.
Qed.

Lemma hget_old h t l k :
  proto_wf h -> l < length h -> hget (h ++ t) l k = hget h l k.
Proof.
  intros Hwf Hl. symmetry.
  apply (hget_agree (length h)); auto using agree_below_app.
Qed.

Lemma read_old h t v k :
  proto_wf h -> value_closed (length h) v = true ->
  read (h ++ t) v k = read h v k.
Proof.
  intros Hwf Hv. destruct v; simpl in *; try reflexivity.
  apply hget_old; auto. now apply Nat.ltb_lt.
Qed.

Lemma hget_fresh h t i o k :
  proto_wf h -> t !! i = Some o ->
  (forall p, proto o = Some p -> p < length h) ->
  hget (h ++ t) (length h + i) k =
  match own_lookup k o with
  | Some v => v
  | None =>
      match proto o with
      | Some p => hget h p k
      | None => VUndef
      end
  end.
Proof.
  intros Hwf Hi Hp. unfold hget at 1. cbn [hget_fuel].
  rewrite lookup_app_r by lia.
  replace (length h + i - length h) with i by lia. rewrite Hi.
  destruct (own_lookup k o); [reflexivity|].
  destruct (proto o) as [p|] eqn:Hpo; [|reflexivity].
  specialize (Hp p eq_refl).
  rewrite <- (hget_fuel_agree (length h) h (h ++ t) k Hwf (agree_below_app h t))
    by lia.
  apply hget_fuel_enough; auto; lia.
Qed.

Lemma hset_fresh h t l i k v :
  l = length h + i -> hset (h ++ t) l k v = h ++ hset t i k v.
Proof.
  intros ->. unfold hset. rewrite lookup_app_r by lia.
  replace (length h + i - length h) with i by lia.
  destruct (t !! i); [|reflexivity]. apply insert_app_r.
Qed.

(** ** Running [createContext] *)

Lemma app_ready_inv h app :
  app_ready h app = true ->
  exists a pc pr ps f o,
    app = VRef a /\
    hget h a "context" = VRef pc /\ hget h a "request" = VRef pr /\
    hget h a "response" = VRef ps /\
    pc < length h /\ pr < length h /\ ps < length h /\
    hget h pc "onerror" = VRef f /\ h !! f = Some o /\
    callable (Some (kind o)) = true.
Proof.
  unfold app_ready. intros H.
  destruct app as [| | | |s| |a]; simpl in H; try discriminate.
  destruct (hget h a "context") as [| | | | | |pc] eqn:Hc; try discriminate.
  destruct (hget h a "request") as [| | | | | |pr] eqn:Hr; try discriminate.
  destruct (hget h a "response") as [| | | | | |ps] eqn:Hs; try discriminate.
  repeat (apply andb_true_iff in H as [H ?]).
  destruct (hget h pc "onerror") as [| | | | | |f] eqn:Hf; try discriminate.
  simpl in *. destruct (h !! f) as [o|] eqn:Ho; try discriminate.
  exists a, pc, pr, ps, f, o.
  repeat split; auto; now apply Nat.ltb_lt.
Qed.

Lemma hget_allocated h l k :
  hget h l k <> VUndef -> l < length h.
Proof.
  unfold hget. cbn [hget_fuel]. intros H.
  destruct (h !! l) eqn:Hl; [|congruence]. eapply lookup_lt_Some; eauto.
Qed.

(** Steps of a computation on a heap [h ++ t], where [h] is the heap the
    computation started in and [t] holds the objects allocated since. *)

Lemma bind_run {A B} (m : M A) (f : A -> M B) w w' a :
  m w = (w', Ok a) -> bindM m f w = f a w'.
Proof. unfold bindM. now intros ->. Qed.

Lemma bind_throw {A B} (m : M A) (f : A -> M B) w w' e :
  m w = (w', Throw e) -> bindM m f w = (w', Throw e).
Proof. unfold bindM. now intros ->. Qed.

Lemma run_get v k w :
  nullish v = false -> get_prop v k w = (w, Ok (read (w_heap w) v k)).
Proof. unfold get_prop. now intros ->. Qed.

Lemma run_get_old h t now tr ls id v k :
  proto_wf h -> nullish v = false -> value_closed (length h) v = true ->
  get_prop v k (mkWorld (h ++ t) now tr ls id) =
  (mkWorld (h ++ t) now tr ls id, Ok (read h v k)).
Proof.
  intros Hwf Hv Hcl. rewrite run_get by assumption. simpl.
  now rewrite read_old.
Qed.

Lemma run_get_fresh h t now tr ls id i o k :
  proto_wf h -> t !! i = Some o ->
  (forall p, proto o = Some p -> p < length h) ->
  get_prop (VRef (length h + i)) k (mkWorld (h ++ t) now tr ls id) =
  (mkWorld (h ++ t) now tr ls id,
   Ok match own_lookup k o with
      | Some v => v
      | None =>
          match proto o with
          | Some p => hget h p k
          | None => VUndef
          end
      end).
Proof.
  intros Hwf Hi Hp. rewrite run_get by reflexivity. simpl.
  now rewrite (hget_fresh h t i o).
Qed.

Lemma run_alloc h t now tr ls id o :
  alloc o (mkWorld (h ++ t) now tr ls id) =
  (mkWorld (h ++ (t ++ [o])) now tr ls id, Ok (VRef (length h + length t))).
Proof.
  unfold alloc, set_heap. simpl. now rewrite length_app, app_assoc.
Qed.

Lemma run_set_fresh h t now tr ls id i o k v :
  t !! i = Some o ->
  set_prop (VRef (length h + i)) k v (mkWorld (h ++ t) now tr ls id) =
  (mkWorld (h ++ <[i := mkObj (proto o) (kind o) (own_set k v (props o))]> t)
            now tr ls id,
   Ok tt).
Proof.
  intros Hi. unfold set_prop, set_heap. simpl.
  rewrite (hset_fresh h t _ i) by reflexivity. unfold hset. now rewrite Hi.
Qed.

Lemma run_bind_fresh h t now tr ls id f o this :
  f < length h -> h !! f = Some o -> callable (Some (kind o)) = true ->
  Function_bind (VRef f) this (mkWorld (h ++ t) now tr ls id) =
  (mkWorld (h ++ (t ++ [mkObj (proto o) (Bound f this) []])) now tr ls id,
   Ok (VRef (length h + length t))).
Proof.
  intros Hf Ho Hc. unfold Function_bind. cbn [w_heap].
  rewrite lookup_app_l by assumption. rewrite Ho, Hc. apply run_alloc.
Qed.

Ltac side :=
  first [ assumption | reflexivity | apply Nat.ltb_lt; assumption
        | cbn; intros ? [= <-]; assumption | discriminate ].

Ltac norm_fresh :=
  lazymatch goal with
  | |- _ (mkWorld (?h ++ ?t) _ _ _ _) = _ =>
      let t' := eval cbn in t in change t with t'
  end.

Ltac norm_lookup :=
  repeat match goal with
  | |- context [own_lookup ?k ?o] =>
      let r := eval cbn in (own_lookup k o) in
      progress change (own_lookup k o) with r
  end; cbv beta iota.

Ltac run_step lem :=
  erewrite bind_run; [| solve [ lem; side ] ]; cbn [length app Nat.add];
  norm_fresh.

Lemma createContext_run w app req res :
  proto_wf (w_heap w) ->
  app_ready (w_heap w) app = true ->
  nullish req = false ->
  value_closed (length (w_heap w)) req = true ->
  createContext app req res w =
  (set_heap w (w_heap w ++ context_objs (w_heap w) (w_now w) app req res),
   Ok (VRef (length (w_heap w)))).
Proof.
  intros Hwf Hready Hreq Hcl.
  destruct (app_ready_inv _ _ Hready)
    as (a & pc & pr & ps & f & o & -> & Hc & Hr & Hs & Hpc & Hpr & Hps & Hf & Ho & Hcall).
  destruct w as [h now tr ls id]. simpl in *.
  assert (Ha : a < length h) by (apply (hget_allocated h a "context"); congruence).
  assert (Hflt : f < length h) by (eapply lookup_lt_Some; eauto).
  unfold createContext. cbn [w_heap w_now set_heap w_trace w_listeners w_next_id].
  replace (mkWorld h now tr ls id) with (mkWorld (h ++ []) now tr ls id)
    by now rewrite app_nil_r.
  run_step ltac:(apply run_get_old). cbn [read]. rewrite Hc.
  cbn [Object_create].
  run_step ltac:(apply run_alloc).
  run_step ltac:(apply run_get_old). cbn [read]. rewrite Hr.
  cbn [Object_create].
  run_step ltac:(apply run_alloc).
  run_step ltac:(apply run_set_fresh).
  run_step ltac:(apply run_get_old). cbn [read]. rewrite Hs.
  cbn [Object_create].
  run_step ltac:(apply run_alloc).
  do 14 run_step ltac:(apply run_set_fresh).
  run_step ltac:(apply run_get_fresh).
  norm_lookup. cbn [proto]. rewrite Hf.
  erewrite bind_run; [| eapply run_bind_fresh; [exact Hflt | exact Ho | exact Hcall] ].
  cbn [length app Nat.add]. norm_fresh.
  run_step ltac:(apply run_set_fresh).
  run_step ltac:(apply run_get_old).
  do 2 run_step ltac:(apply run_set_fresh).
  unfold Date_now at 1.
  run_step ltac:(reflexivity).
  cbn [w_now].
  run_step ltac:(apply run_set_fresh).
  unfold ret, set_heap, context_objs. cbn [w_heap w_now w_trace w_listeners w_next_id read].
  rewrite Hc, Hr, Hs. cbn [read ref_loc]. rewrite Hf. cbn [ref_loc proto_of default].
  rewrite Ho, !Nat.add_0_r. reflexivity.
Qed.

Lemma hget_fresh0 h t o k :
  proto_wf h -> t !! 0 = Some o ->
  (forall p, proto o = Some p -> p < length h) ->
  hget (h ++ t) (length h) k =
  match own_lookup k o with
  | Some v => v
  | None =>
      match proto o with
      | Some p => hget h p k
      | None => VUndef
      end
  end.
Proof.
  intros. rewrite <- (Nat.add_0_r (length h)) at 1. now apply hget_fresh.
Qed.

Lemma pkey_eqb_eq a b : pkey_eqb a b = true <-> a = b.
Proof.
  destruct a, b; simpl; rewrite ?String.eqb_eq; split; congruence.
Qed.

Lemma pkey_eqb_refl a : pkey_eqb a a = true.
Proof. now apply pkey_eqb_eq. Qed.

Lemma pkey_eqb_neq a b : pkey_eqb a b = false <-> a <> b.
Proof.
  rewrite <- pkey_eqb_eq. destruct (pkey_eqb a b); split; congruence.
Qed.

Lemma own_get_set_eq k v ps : own_get k (own_set k v ps) = Some v.
Proof.
  induction ps as [|[k' v'] ps IH]; simpl.
  - now rewrite pkey_eqb_refl.
  - destruct (pkey_eqb k k') eqn:E; simpl.
    + now rewrite pkey_eqb_refl.
    + now rewrite E.
Qed.

Lemma own_get_set_ne k k' v ps :
  k' <> k -> own_get k' (own_set k v ps) = own_get k' ps.
Proof.
  intros Hne. apply pkey_eqb_neq in Hne.
  induction ps as [|[k0 v0] ps IH]; simpl.
  - now rewrite Hne.
  - destruct (pkey_eqb k k0) eqn:E; simpl.
    + apply pkey_eqb_eq in E as <-. now rewrite Hne.
    + now rewrite IH.
Qed.

(** The objects [createContext] adds keep the heap well formed, and the
    application stays ready in the heap they extend. *)
Lemma context_objs_wf h now app req res :
  proto_wf h -> app_ready h app = true ->
  proto_wf (h ++ context_objs h now app req res).
Proof.
  intros Hwf Hready.
  destruct (app_ready_inv _ _ Hready)
    as (a & pc & pr & ps & f & o & -> & Hc & Hr & Hs & Hpc & Hpr & Hps & Hf & Ho & Hcall).
  apply proto_wf_app; [assumption|].
  unfold context_objs. cbn [read]. rewrite Hc, Hr, Hs. cbn [read ref_loc].
  rewrite Hf. cbn [proto_of proto_ok_from proto]. rewrite Ho.
  assert (Hflt : f < length h) by (eapply lookup_lt_Some; eauto).
  repeat (apply andb_true_iff; split); try (apply Nat.ltb_lt; lia); auto.
  destruct (proto o) as [p|] eqn:Hp; [|reflexivity].
  pose proof (proto_wf_lookup h f o p Hwf Ho Hp). apply Nat.ltb_lt. lia.
Qed.

Lemma app_ready_app h t app :
  proto_wf h -> app_ready h app = true -> app_ready (h ++ t) app = true.
Proof.
  intros Hwf Hready.
  destruct (app_ready_inv _ _ Hready)
    as (a & pc & pr & ps & f & o & -> & Hc & Hr & Hs & Hpc & Hpr & Hps & Hf & Ho & Hcall).
  assert (Ha : a < length h) by (apply (hget_allocated h a "context"); congruence).
  unfold app_ready. cbn [read].
  rewrite !hget_old by assumption. rewrite Hc, Hr, Hs.
  cbn [read]. rewrite hget_old by assumption. rewrite Hf.
  cbn [hkind]. rewrite lookup_app_l by (eapply lookup_lt_Some; eauto).
  rewrite Ho. cbn [fmap option_fmap option_map]. rewrite Hcall.
  rewrite length_app.
  repeat (apply andb_true_iff; split); try (apply Nat.ltb_lt; lia); auto.
Qed.

Lemma lookup_fresh (h t : heap) i : (h ++ t) !! (length h + i) = t !! i.
Proof. rewrite lookup_app_r by lia. f_equal. lia. Qed.

Lemma lookup_fresh0 (h t : heap) : (h ++ t) !! (length h) = t !! 0.
Proof. rewrite <- (Nat.add_0_r (length h)) at 1. apply lookup_fresh. Qed.

Lemma hget_own h l o k v :
  h !! l = Some o -> own_lookup k o = Some v -> hget h l k = v.
Proof.
  intros Hl Hk. unfold hget. cbn [hget_fuel]. now rewrite Hl, Hk.
Qed.

Ltac own_read :=
  eapply hget_own;
  [ first [ rewrite lookup_fresh0 | rewrite lookup_fresh ]; reflexivity
  | reflexivity ].

(** ** Theorems on [createContext] *)



(** C2: right after [createContext(req, res)] the three facets refer to one
    another ([request.ctx] and [response.ctx] are the context,
    [request.response] is [context.response], [response.request] is
    [context.request]), all three carry the application, the raw request
    and the raw response, and [originalUrl] on the context and on the
    request is [req.url]. *)
Theorem createContext_back_references w app req res w' ctx :
  proto_wf (w_heap w) ->
  app_ready (w_heap w) app = true ->
  nullish req = false ->
  value_closed (length (w_heap w)) req = true ->
  createContext app req res w = (w', Ok ctx) ->
  let h' := w_heap w' in
  let request := read h' ctx "request" in
  let response := read h' ctx "response" in
  (read h' request "ctx" = ctx /\ read h' response "ctx" = ctx /\
   read h' request "response" = response /\
   read h' response "request" = request) /\
  (read h' ctx "app" = app /\ read h' request "app" = app /\
   read h' response "app" = app) /\
  (read h' ctx "req" = req /\ read h' request "req" = req /\
   read h' response "req" = req) /\
  (read h' ctx "res" = res /\ read h' request "res" = res /\
   read h' response "res" = res) /\
  (read h' ctx "originalUrl" = read h' req "url" /\
   read h' request "originalUrl" = read h' req "url") /\
  (ctx <> request /\ ctx <> response /\ request <> response).
Proof.
  intros Hwf Hready Hreq Hcl Hrun.
  rewrite createContext_run in Hrun by assumption.
  injection Hrun as <- <-. cbn zeta. cbn [w_heap set_heap read].
  set (h := w_heap w). set (t := context_objs h (w_now w) app req res).
  assert (Hrq : hget (h ++ t) (length h) "request" = VRef (length h + 1))
    by own_read.
  assert (Hrs : hget (h ++ t) (length h) "response" = VRef (length h + 2))
    by own_read.
  rewrite Hrq, Hrs. cbn [read]. rewrite (read_old h t req) by assumption.
  repeat split; try own_read; intros [= E]; lia.
Qed.

Lemma createContext_back_references_witness :
  let r := createContext sample_app sample_req sample_res sample_world in
  let h' := w_heap (fst r) in
  let ctx := VRef 8 in
  let request := read h' ctx "request" in
  let response := read h' ctx "response" in
  (read h' request "ctx" = ctx /\ read h' response "ctx" = ctx /\
   read h' request "response" = response /\
   read h' response "request" = request) /\
  (read h' ctx "app" = sample_app /\ read h' request "app" = sample_app /\
   read h' response "app" = sample_app) /\
  (read h' ctx "req" = sample_req /\ read h' request "req" = sample_req /\
   read h' response "req" = sample_req) /\
  (read h' ctx "res" = sample_res /\ read h' request "res" = sample_res /\
   read h' response "res" = sample_res) /\
  (read h' ctx "originalUrl" = read h' sample_req "url" /\
   read h' request "originalUrl" = read h' sample_req "url") /\
  (ctx <> request /\ ctx <> response /\ request <> response).
Proof.
  apply (createContext_back_references sample_world sample_app sample_req
           sample_res);
    [ reflexivity | reflexivity | reflexivity | reflexivity
    | vm_compute; reflexivity ].
Defined.

(** ** Isolation of contexts *)

Lemma own_lookup_plain k o :
  kind o = Plain -> own_lookup k o = own_get k (props o).
Proof.
  unfold own_lookup, enumerable_own. intros ->. simpl.
  now destruct (own_get k (props o)).
Qed.

Lemma hget_hset_same h x o k v :
  h !! x = Some o -> kind o = Plain -> hget (hset h x k v) x k = v.
Proof.
  intros Hx Hk. unfold hset. rewrite Hx.
  eapply hget_own.
  - apply list_lookup_insert_eq. eapply lookup_lt_Some; eauto.
  - rewrite own_lookup_plain by assumption. apply own_get_set_eq.
Qed.

Lemma hget_hset_other n h x y k v k' :
  proto_wf h -> x <> y -> n <= x ->
  (forall o p, h !! y = Some o -> proto o = Some p -> p < n) ->
  hget (hset h x k v) y k' = hget h y k'.
Proof.
  intros Hwf Hxy Hn Hp. symmetry. apply (hget_through n); auto.
  - now apply agree_below_hset.
  - unfold hset. destruct (h !! x); [|reflexivity].
    symmetry. now apply list_lookup_insert_ne.
Qed.

Lemma hget_hset_below n h x p k v k' :
  proto_wf h -> n <= x -> p < n ->
  hget (hset h x k v) p k' = hget h p k'.
Proof.
  intros Hwf Hn Hp. symmetry.
  apply (hget_agree n); auto using agree_below_hset.
Qed.

(** Each facet of a new context is a plain object allocated after the heap
    [createContext] started in; its prototype is the shared one, which is
    older; and it owns only the fields [createContext] assigns. *)
Lemma created_facet h now app req res F :
  proto_wf h -> app_ready h app = true ->
  let t := context_objs h now app req res in
  exists x o p,
    facet_of (h ++ t) (VRef (length h)) F = VRef x /\
    length h <= x < length h + 3 /\
    (h ++ t) !! x = Some o /\ proto o = Some p /\ kind o = Plain /\
    p < length h /\ shared_proto h app F = VRef p /\
    (forall k, is_created_field F k = false -> own_get k (props o) = None).
Proof.
  intros Hwf Hready t.
  destruct (app_ready_inv _ _ Hready)
    as (a & pc & pr & ps & f & o & -> & Hc & Hr & Hs & Hpc & Hpr & Hps & Hf & Ho & Hcall).
  assert (Hrq : hget (h ++ t) (length h) "request" = VRef (length h + 1))
    by own_read.
  assert (Hrs : hget (h ++ t) (length h) "response" = VRef (length h + 2))
    by own_read.
  assert (Hfield : forall k ks ps,
            existsb (pkey_eqb k) ks = false -> map fst ps = ks ->
            own_get k ps = None).
  { intros k ks ps0 Hex <-. induction ps0 as [|[k0 v0] ps0 IH]; [reflexivity|].
    simpl in *. apply orb_false_elim in Hex as [-> Hex]. auto. }
  destruct F; cbn [facet_of shared_proto read];
    rewrite ?Hc, ?Hr, ?Hs, ?Hrq, ?Hrs;
    [ exists (length h); eexists; exists pc
    | exists (length h + 1); eexists; exists pr
    | exists (length h + 2); eexists; exists ps ];
    (split; [reflexivity|]); (split; [lia|]);
    (split; [first [rewrite lookup_fresh0 | rewrite lookup_fresh]; reflexivity|]);
    (split; [cbn [proto read]; rewrite ?Hc, ?Hr, ?Hs; reflexivity|]);
    (split; [reflexivity|]);
    (split; [assumption|]); (split; [reflexivity|]);
    intros k Hk; (eapply Hfield; [exact Hk|reflexivity]).
Qed.

Lemma shared_proto_app h t app F :
  proto_wf h -> app_ready h app = true ->
  shared_proto (h ++ t) app F = shared_proto h app F.
Proof.
  intros Hwf Hready.
  destruct (app_ready_inv _ _ Hready) as (a & ? & ? & ? & ? & ? & -> & Hc & _).
  assert (Ha : a < length h) by (apply (hget_allocated h a "context"); congruence).
  destruct F; cbn [shared_proto read]; now apply hget_old.
Qed.

Lemma length_hset h l k v : length (hset h l k v) = length h.
Proof. unfold hset. destruct (h !! l); [apply length_insert|reflexivity]. Qed.

Lemma hset_app_l h (t : heap) l k v :
  l < length h -> hset (h ++ t) l k v = hset h l k v ++ t.
Proof.
  intros Hl. unfold hset. rewrite lookup_app_l by assumption.
  destruct (h !! l); [|reflexivity]. now apply insert_app_l.
Qed.

Lemma read_agree h0 g v k :
  proto_wf h0 -> agree_below (length h0) h0 g ->
  value_closed (length h0) v = true -> read g v k = read h0 v k.
Proof.
  intros Hwf Hg Hv. destruct v; simpl in *; try reflexivity.
  symmetry. apply (hget_agree (length h0)); auto. now apply Nat.ltb_lt.
Qed.

(** What [createContext] reads lies in the part of the heap the application
    was constructed in: a heap that agrees with it there is as ready, and
    gets the same four objects. *)
Lemma app_ready_agree h0 g app :
  proto_wf h0 -> agree_below (length h0) h0 g -> length h0 <= length g ->
  app_ready h0 app = true -> app_ready g app = true.
Proof.
  intros Hwf Hg Hlen Hready.
  destruct (app_ready_inv _ _ Hready)
    as (a & pc & pr & ps & f & o & -> & Hc & Hr & Hs & Hpc & Hpr & Hps & Hf & Ho & Hcall).
  assert (Ha : a < length h0) by (apply (hget_allocated h0 a "context"); congruence).
  assert (Hfl : f < length h0) by (eapply lookup_lt_Some; eauto).
  unfold app_ready.
  rewrite !(read_agree h0 g (VRef a)) by (auto; now apply Nat.ltb_lt).
  cbn [read]. rewrite Hc, Hr, Hs. cbn [read].
  rewrite <- (hget_agree (length h0) h0 g pc) by auto.
  rewrite Hf. cbn [hkind]. rewrite <- (Hg f Hfl), Ho.
  cbn [fmap option_fmap option_map]. rewrite Hcall.
  repeat (apply andb_true_iff; split); try (apply Nat.ltb_lt; lia); auto.
Qed.

Lemma context_objs_agree h0 g g' now app req res :
  proto_wf h0 -> app_ready h0 app = true ->
  value_closed (length h0) req = true ->
  agree_below (length h0) h0 g -> agree_below (length h0) h0 g' ->
  length g = length g' ->
  context_objs g now app req res = context_objs g' now app req res.
Proof.
  intros Hwf Hready Hreq Hg Hg' Hlen.
  destruct (app_ready_inv _ _ Hready)
    as (a & pc & pr & ps & f & o & -> & Hc & Hr & Hs & Hpc & Hpr & Hps & Hf & Ho & Hcall).
  assert (Ha : a < length h0) by (apply (hget_allocated h0 a "context"); congruence).
  assert (Hfl : f < length h0) by (eapply lookup_lt_Some; eauto).
  unfold context_objs. rewrite Hlen.
  rewrite !(read_agree h0 g (VRef a)), !(read_agree h0 g' (VRef a))
    by (auto; now apply Nat.ltb_lt).
  rewrite (read_agree h0 g req), (read_agree h0 g' req) by auto.
  cbn [read]. rewrite Hc. cbn [read].
  rewrite <- (hget_agree (length h0) h0 g pc),
          <- (hget_agree (length h0) h0 g' pc) by auto.
  rewrite Hf. cbn [proto_of].
  now rewrite <- (Hg f Hfl), <- (Hg' f Hfl).
Qed.

(** C1: two contexts made by [createContext] do not see each other's
    writes.  A write to any field of a facet of one context is read back on
    that facet, and leaves every field of every facet of the other context,
    and of the shared prototypes, as it was; a field [createContext] did not
    assign reads on both contexts what the shared prototype holds.  A write
    made on the first context before the second one is created changes
    nothing either: the second context comes out the same, in the world the
    write would have given afterwards, and reads as if nothing was written. *)
Theorem context_isolation w0 w1 w2 app reqA resA reqB resB ctxA ctxB :
  proto_wf (w_heap w0) ->
  app_ready (w_heap w0) app = true ->
  nullish reqA = false -> value_closed (length (w_heap w0)) reqA = true ->
  nullish reqB = false -> value_closed (length (w_heap w1)) reqB = true ->
  createContext app reqA resA w0 = (w1, Ok ctxA) ->
  createContext app reqB resB w1 = (w2, Ok ctxB) ->
  let h := w_heap w2 in
  (forall F k v,
     exists w3,
       set_prop (facet_of h ctxA F) k v w2 = (w3, Ok tt) /\
       read (w_heap w3) (facet_of h ctxA F) k = v /\
       (forall F' k',
          read (w_heap w3) (facet_of h ctxB F') k' =
          read h (facet_of h ctxB F') k') /\
       (forall F' k',
          read (w_heap w3) (shared_proto h app F') k' =
          read h (shared_proto h app F') k')) /\
  (forall F k v,
     exists w3,
       set_prop (facet_of h ctxB F) k v w2 = (w3, Ok tt) /\
       read (w_heap w3) (facet_of h ctxB F) k = v /\
       (forall F' k',
          read (w_heap w3) (facet_of h ctxA F') k' =
          read h (facet_of h ctxA F') k') /\
       (forall F' k',
          read (w_heap w3) (shared_proto h app F') k' =
          read h (shared_proto h app F') k')) /\
  (forall F k,
     is_created_field F k = false ->
     read h (facet_of h ctxA F) k = read h (shared_proto h app F) k /\
     read h (facet_of h ctxB F) k = read h (shared_proto h app F) k) /\
  (forall F k v w1',
     value_closed (length (w_heap w0)) reqB = true ->
     set_prop (facet_of (w_heap w1) ctxA F) k v w1 = (w1', Ok tt) ->
     exists w2',
       createContext app reqB resB w1' = (w2', Ok ctxB) /\
       set_prop (facet_of h ctxA F) k v w2 = (w2', Ok tt) /\
       (forall F' k',
          read (w_heap w2') (facet_of (w_heap w2') ctxB F') k' =
          read h (facet_of h ctxB F') k')).
Proof.
  intros Hwf0 Hready0 HreqA HclA HreqB HclB HrunA HrunB.
  rewrite createContext_run in HrunA by assumption.
  injection HrunA as <- <-.
  pose proof (context_objs_wf _ (w_now w0) _ reqA resA Hwf0 Hready0) as Hwf1.
  pose proof (app_ready_app _ (context_objs (w_heap w0) (w_now w0) app reqA resA)
                _ Hwf0 Hready0) as Hready1.
  set (h0 := w_heap w0) in *.
  set (tA := context_objs h0 (w_now w0) app reqA resA) in *.
  cbn [w_heap set_heap] in HclB.
  rewrite createContext_run in HrunB by assumption.
  injection HrunB as <- <-.
  cbn [w_heap set_heap w_now] in *.
  set (h1 := h0 ++ tA) in *.
  pose proof (context_objs_wf _ (w_now w0) _ reqB resB Hwf1 Hready1) as Hwf2.
  set (tB := context_objs h1 (w_now w0) app reqB resB) in *.
  assert (Hlen : length h1 = length h0 + 4)
    by (unfold h1; rewrite length_app; reflexivity).
  assert (Hsh : forall F, shared_proto (h1 ++ tB) app F = shared_proto h0 app F).
  { intros F. rewrite shared_proto_app by assumption.
    now apply shared_proto_app. }
  (* the facets of the first context, seen in the final heap *)
  assert (HA : forall F, exists x o p,
             facet_of (h1 ++ tB) (VRef (length h0)) F = VRef x /\
             length h0 <= x < length h1 /\
             (h1 ++ tB) !! x = Some o /\ proto o = Some p /\ kind o = Plain /\
             p < length h0 /\ shared_proto h0 app F = VRef p /\
             (forall k, is_created_field F k = false ->
                        own_get k (props o) = None)).
  { intros F.
    destruct (created_facet h0 (w_now w0) app reqA resA F Hwf0 Hready0)
      as (x & o & p & Hf & Hx & Hl & Hp & Hk & Hlt & Hs & Hown).
    exists x, o, p. repeat split; try assumption; try lia.
    - rewrite <- Hf. destruct F; cbn [facet_of]; try reflexivity;
        apply read_old; try assumption; apply Nat.ltb_lt;
        rewrite ?length_app; simpl; lia.
    - rewrite lookup_app_l by lia. exact Hl. }
  (* the facets of the second context *)
  assert (HB : forall F, exists x o p,
             facet_of (h1 ++ tB) (VRef (length h1)) F = VRef x /\
             length h1 <= x /\
             (h1 ++ tB) !! x = Some o /\ proto o = Some p /\ kind o = Plain /\
             p < length h0 /\ shared_proto h0 app F = VRef p /\
             (forall k, is_created_field F k = false ->
                        own_get k (props o) = None)).
  { intros F.
    destruct (created_facet h1 (w_now w0) app reqB resB F Hwf1 Hready1)
      as (x & o & p & Hf & Hx & Hl & Hp & Hk & Hlt & Hs & Hown).
    destruct (HA F) as (_ & _ & p' & _ & _ & _ & _ & _ & Hlt' & Hs' & _).
    unfold h1 in Hs at 1. rewrite shared_proto_app in Hs by assumption.
    assert (p = p') by congruence. subst p'.
    exists x, o, p. repeat split; try assumption; lia. }
  assert (P1 : forall F k v,
     exists w3,
       set_prop (facet_of (h1 ++ tB) (VRef (length h0)) F) k v
         (set_heap (set_heap w0 h1) (h1 ++ tB)) = (w3, Ok tt) /\
       read (w_heap w3) (facet_of (h1 ++ tB) (VRef (length h0)) F) k = v /\
       (forall F' k',
          read (w_heap w3) (facet_of (h1 ++ tB) (VRef (length h1)) F') k' =
          read (h1 ++ tB) (facet_of (h1 ++ tB) (VRef (length h1)) F') k') /\
       (forall F' k',
          read (w_heap w3) (shared_proto (h1 ++ tB) app F') k' =
          read (h1 ++ tB) (shared_proto (h1 ++ tB) app F') k')).
  { intros F k v.
    destruct (HA F) as (x & o & p & Hf & Hx & Hl & Hp & Hk & Hlt & Hs & Hown).
    rewrite Hf. eexists. split; [reflexivity|]. cbn [w_heap set_heap read].
    split; [eapply hget_hset_same; eauto|]. split.
    + intros F' k'.
      destruct (HB F') as (y & oy & py & Hfy & Hy & Hly & Hpy & _ & Hlty & _).
      rewrite Hfy. cbn [read].
      apply (hget_hset_other (length h0)); try assumption; try lia.
      intros o' p' Ho' Hp'. congruence.
    + intros F' k'. rewrite Hsh.
      destruct (HA F') as (_ & _ & p' & _ & _ & _ & _ & _ & Hlt' & Hs' & _).
      rewrite Hs'. cbn [read].
      apply (hget_hset_below (length h0)); try assumption; lia. }
  split; [exact P1|]. split; [|split; [intros F k Hcr; split|]].
  - intros F k v.
    destruct (HB F) as (x & o & p & Hf & Hx & Hl & Hp & Hk & Hlt & Hs & Hown).
    rewrite Hf. eexists. split; [reflexivity|]. cbn [w_heap set_heap read].
    split; [eapply hget_hset_same; eauto|]. split.
    + intros F' k'.
      destruct (HA F') as (y & oy & py & Hfy & Hy & Hly & Hpy & _ & Hlty & _).
      rewrite Hfy. cbn [read].
      apply (hget_hset_other (length h0)); try assumption; try lia.
      intros o' p' Ho' Hp'. congruence.
    + intros F' k'. rewrite Hsh.
      destruct (HA F') as (_ & _ & p' & _ & _ & _ & _ & _ & Hlt' & Hs' & _).
      rewrite Hs'. cbn [read].
      apply (hget_hset_below (length h0)); try assumption; lia.
  - destruct (HA F) as (x & o & p & Hf & Hx & Hl & Hp & Hk & Hlt & Hs & Hown).
    rewrite Hf, Hsh, Hs. cbn [read].
    rewrite (hget_unfold (h1 ++ tB) x) by assumption.
    rewrite Hl, own_lookup_plain, Hown, Hp by assumption. reflexivity.
  - destruct (HB F) as (x & o & p & Hf & Hx & Hl & Hp & Hk & Hlt & Hs & Hown).
    rewrite Hf, Hsh, Hs. cbn [read].
    rewrite (hget_unfold (h1 ++ tB) x) by assumption.
    rewrite Hl, own_lookup_plain, Hown, Hp by assumption. reflexivity.
  - intros F k v w1' HclB0 Hset.
    destruct (created_facet h0 (w_now w0) app reqA resA F Hwf0 Hready0)
      as (x & o & p & Hf & Hx & Hl & _).
    change (facet_of h1 (VRef (length h0)) F = VRef x) in Hf.
    assert (Hf' : facet_of (h1 ++ tB) (VRef (length h0)) F = VRef x).
    { rewrite <- Hf. destruct F; cbn [facet_of]; try reflexivity;
        apply read_old; try assumption; apply Nat.ltb_lt; lia. }
    rewrite Hf in Hset. unfold set_prop in Hset. injection Hset as <-.
    cbn [w_heap set_heap].
    assert (Hag : agree_below (length h0) h0 (hset h1 x k v)).
    { intros l Hlt. rewrite <- (agree_below_hset (length h0) h1 x k v) by lia.
      now apply agree_below_app. }
    assert (Hobjs : context_objs (hset h1 x k v) (w_now w0) app reqB resB = tB).
    { apply (context_objs_agree h0); auto using length_hset.
      apply agree_below_app. }
    destruct (P1 F k v) as (w3 & Hw3 & _ & HreadB & _).
    rewrite Hf' in Hw3. unfold set_prop in Hw3. injection Hw3 as <-.
    cbn [w_heap set_heap] in HreadB.
    rewrite hset_app_l in HreadB by lia.
    eexists. split; [|split].
    + rewrite createContext_run; cbn [w_heap set_heap w_now];
        rewrite ?length_hset;
        [ rewrite Hobjs; reflexivity
        | now apply proto_wf_hset
        | apply (app_ready_agree h0); auto; rewrite length_hset; lia
        | assumption | assumption ].
    + rewrite Hf'. unfold set_prop. cbn [w_heap set_heap].
      rewrite hset_app_l by lia. reflexivity.
    + intros F' k'. cbn [w_heap set_heap].
      rewrite <- HreadB. f_equal.
      destruct F'; cbn [facet_of]; try reflexivity.
      * exact (HreadB FContext (PStr "request")).
      * exact (HreadB FContext (PStr "response")).
Qed.

Lemma context_isolation_witness :
  let w1 := fst (createContext sample_app sample_req sample_res sample_world) in
  let w2 := fst (createContext sample_app sample_req sample_res w1) in
  let ctxA := VRef 8 in
  let ctxB := VRef 12 in
  let h := w_heap w2 in
  (forall F k v,
     exists w3,
       set_prop (facet_of h ctxA F) k v w2 = (w3, Ok tt) /\
       read (w_heap w3) (facet_of h ctxA F) k = v /\
       (forall F' k',
          read (w_heap w3) (facet_of h ctxB F') k' =
          read h (facet_of h ctxB F') k') /\
       (forall F' k',
          read (w_heap w3) (shared_proto h sample_app F') k' =
          read h (shared_proto h sample_app F') k')) /\
  (forall F k v,
     exists w3,
       set_prop (facet_of h ctxB F) k v w2 = (w3, Ok tt) /\
       read (w_heap w3) (facet_of h ctxB F) k = v /\
       (forall F' k',
          read (w_heap w3) (facet_of h ctxA F') k' =
          read h (facet_of h ctxA F') k') /\
       (forall F' k',
          read (w_heap w3) (shared_proto h sample_app F') k' =
          read h (shared_proto h sample_app F') k')) /\
  (forall F k,
     is_created_field F k = false ->
     read h (facet_of h ctxA F) k = read h (shared_proto h sample_app F) k /\
     read h (facet_of h ctxB F) k = read h (shared_proto h sample_app F) k) /\
  (forall F k v w1',
     value_closed (length (w_heap sample_world)) sample_req = true ->
     set_prop (facet_of (w_heap w1) ctxA F) k v w1 = (w1', Ok tt) ->
     exists w2',
       createContext sample_app sample_req sample_res w1' = (w2', Ok ctxB) /\
       set_prop (facet_of h ctxA F) k v w2 = (w2', Ok tt) /\
       (forall F' k',
          read (w_heap w2') (facet_of (w_heap w2') ctxB F') k' =
          read h (facet_of h ctxB F') k')).
Proof.
  intros w1 w2 ctxA ctxB.
  apply (context_isolation sample_world w1 w2 sample_app sample_req sample_res
           sample_req sample_res ctxA ctxB);
    [ reflexivity | reflexivity | reflexivity | reflexivity | reflexivity
    | vm_compute; reflexivity | vm_compute; reflexivity
    | vm_compute; reflexivity ].
Defined.

(** On the sample application: the first context gets [state] written
    before the second one is created; the second context, and a third one
    created afterwards, still read the prototype's [null]. *)
Example isolation_sample :
  let w1 := (createContext sample_app sample_req sample_res sample_world).1 in
  let w1' := (set_prop (VRef 8) "state" (VStr "alice") w1).1 in
  let w2 := (createContext sample_app sample_req sample_res w1').1 in
  let w2' := (set_prop (VRef 13) "fresh" (VBool true) w2).1 in
  let w3 := (createContext sample_app sample_req sample_res w2').1 in
  let h := w_heap w3 in
  read h (VRef 8) "state" = VStr "alice" /\
  read h (VRef 12) "state" = VNull /\
  read h (VRef 16) "state" = VNull /\
  read h (read h (VRef 12) "request") "fresh" = VBool true /\
  read h (read h (VRef 8) "request") "fresh" = VBool false /\
  read h (read h (VRef 16) "request") "fresh" = VBool false.
Proof. vm_compute. repeat split. Qed.

(** ** Closed heaps and frames for enumeration *)

Lemma heap_closed_lookup h l o :
  heap_closed h -> h !! l = Some o -> obj_closed (length h) o = true.
Proof.
  unfold heap_closed. intros Hc Hl.
  rewrite forallb_forall in Hc. apply Hc.
  apply list_elem_of_In. eapply list_elem_of_lookup_2; eauto.
Qed.

Lemma own_get_In k ps v : own_get k ps = Some v -> In v (map snd ps).
Proof.
  induction ps as [|[k' v'] ps IH]; simpl; [discriminate|].
  destruct (pkey_eqb k k'); [intros [= ->]; now left | auto].
Qed.

Lemma imap_snd (g : nat -> value -> pkey * value) (l : list value) :
  (forall i v, snd (g i v) = v) -> map snd (imap g l) = l.
Proof.
  revert g. induction l as [|x l IH]; intros g Hg; simpl; [reflexivity|].
  rewrite Hg. f_equal. apply IH. intros i v. apply Hg.
Qed.

Lemma index_props_values es : map snd (index_props es) = es.
Proof. unfold index_props. now apply imap_snd. Qed.

Lemma own_lookup_closed n k o v :
  obj_closed n o = true -> own_lookup k o = Some v -> value_closed n v = true.
Proof.
  unfold obj_closed, own_lookup, enumerable_own.
  intros Hc Hk. apply andb_true_iff in Hc as [Hp Hkd].
  rewrite forallb_forall in Hp.
  destruct (own_get k _) as [v'|] eqn:Hg.
  - injection Hk as <-. apply own_get_In in Hg.
    rewrite map_app in Hg. apply in_app_or in Hg as [Hg|Hg].
    + destruct (kind o); simpl in Hg; try contradiction.
      rewrite index_props_values in Hg.
      rewrite forallb_forall in Hkd. auto.
    + apply in_map_iff in Hg as ([k0 v0] & <- & Hin). apply (Hp _ Hin).
  - destruct (kind o); try discriminate.
    destruct (pkey_eqb k "length"); [|discriminate].
    now injection Hk as <-.
Qed.

Lemma hget_closed h l k :
  heap_closed h -> value_closed (length h) (hget h l k) = true.
Proof.
  intros Hc. unfold hget. generalize (S l) as fuel. intros fuel. revert l.
  induction fuel as [|fuel IH]; intros l; cbn [hget_fuel]; [reflexivity|].
  destruct (h !! l) as [o|] eqn:Hl; [|reflexivity].
  destruct (own_lookup k o) as [v|] eqn:Hk.
  - eapply own_lookup_closed; eauto using heap_closed_lookup.
  - destruct (proto o); [apply IH | reflexivity].
Qed.

Lemma read_closed h v k :
  heap_closed h -> value_closed (length h) (read h v k) = true.
Proof.
  intros Hc. destruct v; simpl; try reflexivity.
  - now destruct (pkey_eqb k "length").
  - now apply hget_closed.
Qed.

Lemma for_in_fuel_agree n h h' :
  proto_wf h -> agree_below n h h' ->
  forall f l seen, l < n -> for_in_fuel f h l seen = for_in_fuel f h' l seen.
Proof.
  intros Hwf Hag. induction f as [|f IH]; intros l seen Hl; [reflexivity|].
  cbn [for_in_fuel]. rewrite <- (Hag l Hl).
  destruct (h !! l) as [o|] eqn:Ho; [|reflexivity].
  destruct (proto o) as [p|] eqn:Hp; [|reflexivity].
  pose proof (proto_wf_lookup h l o p Hwf Ho Hp).
  f_equal. apply IH. lia.
Qed.

Lemma for_in_keys_old h t v :
  proto_wf h -> value_closed (length h) v = true ->
  for_in_keys (h ++ t) v = for_in_keys h v.
Proof.
  intros Hwf Hv. destruct v; try reflexivity.
  cbn [for_in_keys value_closed] in *.
  apply Nat.ltb_lt in Hv. symmetry.
  apply (for_in_fuel_agree (length h)); auto using agree_below_app.
Qed.

Lemma assign_source_old h t v :
  value_closed (length h) v = true ->
  assign_source (h ++ t) v = assign_source h v.
Proof.
  intros Hv. destruct v; try reflexivity. simpl in *.
  apply Nat.ltb_lt in Hv. now rewrite lookup_app_l.
Qed.

(** ** Running the override loop of [createAnonymousContext] *)

Lemma own_get_app k ps qs :
  own_get k (ps ++ qs) =
  match own_get k ps with
  | Some v => Some v
  | None => own_get k qs
  end.
Proof.
  induction ps as [|[k' v'] ps IH]; simpl; [reflexivity|].
  now destruct (pkey_eqb k k').
Qed.

Lemma own_get_merge_into s ps base :
  own_get s (merge_into ps base) =
  match assigned s ps with
  | Some v => Some v
  | None => own_get s base
  end.
Proof.
  unfold assigned. revert base.
  induction ps as [|[k v] ps IH]; intros base; [reflexivity|].
  cbn [merge_into fold_left fst snd rev]. fold (merge_into ps (own_set k v base)).
  rewrite IH, own_get_app.
  destruct (own_get s (rev ps)); [reflexivity|].
  cbn [own_get]. destruct (pkey_eqb s k) eqn:E.
  - apply pkey_eqb_eq in E as ->. apply own_get_set_eq.
  - apply pkey_eqb_neq in E. now apply own_get_set_ne.
Qed.

Lemma anon_with_at i st : anon_with i (anon_at i st) st = st.
Proof. destruct st. now destruct i as [|[|[|i]]]. Qed.

Lemma anon_at_with i ps st : anon_at i (anon_with i ps st) = ps.
Proof. now destruct i as [|[|[|i]]]. Qed.

Lemma anon_with_with i ps qs st :
  anon_with i qs (anon_with i ps st) = anon_with i qs st.
Proof. now destruct i as [|[|[|i]]]. Qed.

Lemma run_set_anon h now tr ls id st i k v :
  i < 4 ->
  set_prop (VRef (length h + i)) k v (mkWorld (h ++ anon_objs st) now tr ls id) =
  (mkWorld (h ++ anon_objs (anon_with i (own_set k v (anon_at i st)) st))
           now tr ls id,
   Ok tt).
Proof.
  intros Hi.
  destruct i as [|[|[|[|i]]]]; try lia;
    (erewrite run_set_fresh by reflexivity); reflexivity.
Qed.

Lemma run_assign_anon h now tr ls id i ps :
  i < 4 ->
  forall st,
    forM ps (fun kv => set_prop (VRef (length h + i)) (fst kv) (snd kv))
         (mkWorld (h ++ anon_objs st) now tr ls id) =
    (mkWorld (h ++ anon_objs (anon_with i (merge_into ps (anon_at i st)) st))
             now tr ls id,
     Ok tt).
Proof.
  intros Hi. induction ps as [|[k v] ps IH]; intros st.
  - cbn [forM merge_into fold_left]. now rewrite anon_with_at.
  - cbn [forM fst snd].
    erewrite bind_run by (apply run_set_anon; exact Hi).
    rewrite IH, anon_at_with, anon_with_with. reflexivity.
Qed.

Lemma merged_key_cases key :
  merged_key key = true ->
  key = "headers" \/ key = "query" \/ key = "socket".
Proof.
  unfold merged_key. intros H.
  apply orb_true_iff in H as [H|H]; [apply orb_true_iff in H as [H|H]|];
    apply String.eqb_eq in H; auto.
Qed.

Lemma merged_index_lt key : merged_index key < 3.
Proof.
  unfold merged_index.
  destruct (String.eqb key "headers"); [lia|].
  destruct (String.eqb key "query"); lia.
Qed.

Lemma anon_linked_step n h req st key :
  anon_linked n st -> anon_linked n (anon_step h req st key).
Proof.
  intros Hl key' Hm. unfold anon_step.
  destruct (merged_key key) eqn:Hk.
  - pose proof (merged_index_lt key).
    replace (a_request (anon_with (merged_index key) _ st)) with (a_request st)
      by (now destruct (merged_index key) as [|[|[|i]]]; try lia).
    now apply Hl.
  - cbn [anon_with a_request]. rewrite own_get_set_ne; [now apply Hl|].
    intros [= ->]. congruence.
Qed.

Lemma run_override_key h now tr ls id req st key :
  proto_wf h -> heap_closed h ->
  nullish req = false -> value_closed (length h) req = true ->
  anon_linked (length h) st ->
  override_key (VRef (length h + 3)) req key
    (mkWorld (h ++ anon_objs st) now tr ls id) =
  (mkWorld (h ++ anon_objs (anon_step h req st key)) now tr ls id, Ok tt).
Proof.
  intros Hwf Hcl Hreq Hv Hl. unfold override_key, anon_step.
  destruct (merged_key key) eqn:Hk.
  - erewrite bind_run by (apply run_get; reflexivity).
    cbn [w_heap read].
    erewrite (hget_own _ _ (mkObj None Plain (a_request st)));
      [ | rewrite lookup_fresh; reflexivity
        | rewrite own_lookup_plain by reflexivity; apply (Hl key Hk) ].
    erewrite bind_run by (now apply run_get_old).
    unfold Object_assign. cbn [nullish].
    erewrite bind_run; [|erewrite bind_run; [|reflexivity]].
    2: { cbn [w_heap].
         rewrite assign_source_old by (now apply read_closed).
         erewrite bind_run;
           [|apply run_assign_anon; pose proof (merged_index_lt key); lia].
         reflexivity. }
    reflexivity.
  - erewrite bind_run by (now apply run_get_old).
    now rewrite (run_set_anon h now tr ls id st 3) by lia.
Qed.

Lemma run_override_loop h now tr ls id req keys :
  proto_wf h -> heap_closed h ->
  nullish req = false -> value_closed (length h) req = true ->
  forall st,
    anon_linked (length h) st ->
    forM keys (override_key (VRef (length h + 3)) req)
      (mkWorld (h ++ anon_objs st) now tr ls id) =
    (mkWorld (h ++ anon_objs (fold_left (anon_step h req) keys st))
             now tr ls id,
     Ok tt).
Proof.
  intros Hwf Hcl Hreq Hv.
  induction keys as [|key keys IH]; intros st Hl; [reflexivity|].
  cbn [forM fold_left].
  erewrite bind_run by (now apply run_override_key).
  apply IH. now apply anon_linked_step.
Qed.

Lemma anon_at_with_ne i j ps st :
  i < 3 -> i <> j -> anon_at i (anon_with j ps st) = anon_at i st.
Proof.
  intros Hi Hij.
  destruct i as [|[|[|i]]]; try lia; destruct j as [|[|[|j]]];
    try lia; reflexivity.
Qed.

Lemma merged_index_inj k k' :
  merged_key k = true -> merged_key k' = true ->
  merged_index k = merged_index k' -> k = k'.
Proof.
  intros Hk Hk'.
  destruct (merged_key_cases k Hk) as [-> | [-> | ->]];
    destruct (merged_key_cases k' Hk') as [-> | [-> | ->]];
    cbn; congruence.
Qed.

Lemma anon_linked_fold n h req keys st :
  anon_linked n st -> anon_linked n (fold_left (anon_step h req) keys st).
Proof.
  revert st. induction keys as [|key keys IH]; intros st Hl; [exact Hl|].
  cbn [fold_left]. apply IH. now apply anon_linked_step.
Qed.

Lemma fold_request_lookup h req keys :
  forall st k,
    merged_key k = false ->
    own_get (PStr k) (a_request (fold_left (anon_step h req) keys st)) =
    if bool_decide (k ∈ keys) then Some (read h req k)
    else own_get (PStr k) (a_request st).
Proof.
  induction keys as [|key keys IH]; intros st k Hk.
  - rewrite bool_decide_eq_false_2 by apply not_elem_of_nil. reflexivity.
  - cbn [fold_left]. rewrite IH by assumption.
    destruct (decide (k = key)) as [-> | Hne].
    + rewrite (bool_decide_eq_true_2 (key ∈ key :: keys))
        by apply list_elem_of_here.
      unfold anon_step. rewrite Hk. cbn [anon_with a_request].
      rewrite own_get_set_eq. now destruct (bool_decide (key ∈ keys)).
    + assert (E : bool_decide (k ∈ key :: keys) = bool_decide (k ∈ keys)).
      { apply bool_decide_ext. rewrite elem_of_cons. tauto. }
      rewrite E. destruct (bool_decide (k ∈ keys)); [reflexivity|].
      unfold anon_step. destruct (merged_key key) eqn:Hm.
      * pose proof (merged_index_lt key).
        now destruct (merged_index key) as [|[|[|i]]]; try lia.
      * cbn [anon_with a_request]. apply own_get_set_ne. congruence.
Qed.

Lemma fold_sub_lookup h req keys :
  forall st k s,
    merged_key k = true ->
    own_get s (anon_at (merged_index k) (fold_left (anon_step h req) keys st)) =
    if bool_decide (k ∈ keys)
    then match assigned s (assign_source h (read h req k)) with
         | Some v => Some v
         | None => own_get s (anon_at (merged_index k) st)
         end
    else own_get s (anon_at (merged_index k) st).
Proof.
  induction keys as [|key keys IH]; intros st k s Hk.
  - rewrite bool_decide_eq_false_2 by apply not_elem_of_nil. reflexivity.
  - cbn [fold_left]. rewrite IH by assumption.
    destruct (decide (k = key)) as [-> | Hne].
    + rewrite (bool_decide_eq_true_2 (key ∈ key :: keys))
        by apply list_elem_of_here.
      unfold anon_step at 1 2. rewrite Hk. cbn zeta.
      rewrite anon_at_with, own_get_merge_into.
      destruct (bool_decide (key ∈ keys));
        now destruct (assigned s (assign_source h (read h req key))).
    + assert (E : bool_decide (k ∈ key :: keys) = bool_decide (k ∈ keys)).
      { apply bool_decide_ext. rewrite elem_of_cons. tauto. }
      rewrite E.
      assert (Hsame : anon_at (merged_index k) (anon_step h req st key) =
                      anon_at (merged_index k) st).
      { unfold anon_step. pose proof (merged_index_lt k).
        destruct (merged_key key) eqn:Hm; apply anon_at_with_ne; try lia.
        intros Hidx. apply Hne. now apply merged_index_inj. }
      now rewrite Hsame.
Qed.

Lemma anon_linked_defaults n : anon_linked n (anon_defaults n).
Proof.
  intros key Hk.
  destruct (merged_key_cases key Hk) as [-> | [-> | ->]]; cbn;
    now rewrite ?Nat.add_0_r.
Qed.

Lemma default_request_plain k a b c a' b' c' :
  merged_key k = false ->
  own_get (PStr k) (default_request a b c) =
  own_get (PStr k) (default_request a' b' c').
Proof.
  unfold merged_key. intros H.
  apply orb_false_elim in H as [H Hs]. apply orb_false_elim in H as [Hh Hq].
  unfold default_request. cbn [own_get pkey_eqb]. rewrite Hh, Hq.
  repeat match goal with
         | |- context [String.eqb k ?x] => destruct (String.eqb k x) eqn:?
         end; congruence.
Qed.

Lemma hget_plain_root h l ps k :
  h !! l = Some (mkObj None Plain ps) ->
  hget h l k = default VUndef (own_get k ps).
Proof.
  intros Hl. unfold hget. cbn [hget_fuel]. rewrite Hl.
  rewrite own_lookup_plain by reflexivity. cbn [props proto].
  now destruct (own_get k ps).
Qed.

Lemma truthy_not_nullish v : truthy v = true -> nullish v = false.
Proof. now destruct v. Qed.

(** ** What [for-in] enumerates *)

Lemma string_keys_own_get key ps :
  key ∈ string_keys ps <-> is_Some (own_get (PStr key) ps).
Proof.
  induction ps as [|[k v] ps IH].
  - split; [intros Hin; now apply not_elem_of_nil in Hin|intros [x Hx]; discriminate].
  - unfold string_keys. cbn [flat_map fst own_get].
    fold (string_keys ps). rewrite elem_of_app, IH.
    destruct (pkey_eqb (PStr key) k) eqn:E.
    + apply pkey_eqb_eq in E as <-. split; [now eexists|].
      intros _. left. apply list_elem_of_here.
    + split; [|tauto]. intros [Hin | Hs]; [|exact Hs].
      destruct k as [s|s]; [|now apply not_elem_of_nil in Hin].
      apply list_elem_of_singleton in Hin as ->.
      cbn in E. now rewrite String.eqb_refl in E.
Qed.

Lemma for_in_fuel_spec h k :
  proto_wf h ->
  forall n l seen,
    l < n ->
    (k ∈ for_in_fuel n h l seen <-> has_key h k l /\ k ∉ seen).
Proof.
  intros Hwf. induction n as [|n IH]; intros l seen Hl; [lia|].
  cbn [for_in_fuel]. destruct (h !! l) as [o|] eqn:Ho.
  2: { split; [intros Hin; now apply not_elem_of_nil in Hin|].
       intros [Hk _]. inversion Hk; congruence. }
  cbn zeta.
  set (own := filter (fun s => s ∉ seen) (string_keys (enumerable_own o))).
  assert (Hown : k ∈ own <->
                 is_Some (own_get (PStr k) (enumerable_own o)) /\ k ∉ seen).
  { unfold own. rewrite list_elem_of_filter, string_keys_own_get. tauto. }
  assert (Hrest : k ∈ match proto o with
                      | Some p => for_in_fuel n h p (seen ++ own)
                      | None => []
                      end <->
                  exists p, proto o = Some p /\ has_key h k p /\
                            k ∉ seen ++ own).
  { destruct (proto o) as [p|] eqn:Hp.
    - pose proof (proto_wf_lookup h l o p Hwf Ho Hp) as Hlt.
      rewrite IH by lia. split; [intros H; exists p; tauto|].
      intros (p' & [= <-] & H). exact H.
    - split; [intros Hin; now apply not_elem_of_nil in Hin|].
      intros (p' & Hp' & _). discriminate. }
  rewrite elem_of_app, Hown, Hrest. split.
  - intros [[Hs Hseen] | (p & Hp & Hk & Hnot)].
    + split; [now apply (has_own h k l o)|exact Hseen].
    + split; [now apply (has_inherited h k l o p)|].
      intros Hin. apply Hnot. apply elem_of_app. now left.
  - intros [Hk Hseen].
    destruct (decide (is_Some (own_get (PStr k) (enumerable_own o))))
      as [Hs|Hs]; [left; tauto|].
    right. inversion Hk as [l' o' Ho' Hs' | l' o' p Ho' Hp Hkp]; subst.
    + rewrite Ho in Ho'. injection Ho' as <-. contradiction.
    + rewrite Ho in Ho'. injection Ho' as <-. exists p.
      split; [exact Hp|]. split; [exact Hkp|].
      rewrite elem_of_app, Hown. tauto.
Qed.

Lemma override_keys_listed h req k :
  proto_wf h -> (k ∈ override_keys h req <-> listed h req k).
Proof.
  intros Hwf. unfold override_keys, listed.
  destruct req as [| |b|z|s|s|l]; cbn [truthy for_in_keys];
    try (split; [intros Hin|intros []];
         repeat match goal with
                | H : _ ∈ (if ?c then _ else _) |- _ => destruct c
                end; now apply not_elem_of_nil in Hin).
  rewrite (for_in_fuel_spec h k Hwf (S l) l []) by lia.
  split; [tauto|]. intros Hk. split; [exact Hk|apply not_elem_of_nil].
Qed.

Lemma own_get_absent k ps : k ∉ map fst ps -> own_get k ps = None.
Proof.
  induction ps as [|[k' v] ps IH]; [reflexivity|].
  cbn [map fst own_get]. intros Hk.
  apply not_elem_of_cons in Hk as [Hne Hk].
  destruct (pkey_eqb k k') eqn:E; [now apply pkey_eqb_eq in E|now apply IH].
Qed.

Lemma assigned_distinct s ps :
  NoDup (map fst ps) -> assigned s ps = own_get s ps.
Proof.
  unfold assigned. induction ps as [|[k v] ps IH]; [reflexivity|].
  cbn [map fst rev own_get]. intros Hnd. apply NoDup_cons in Hnd as [Hk Hnd].
  rewrite own_get_app, (IH Hnd). cbn [own_get].
  destruct (pkey_eqb s k) eqn:E.
  - apply pkey_eqb_eq in E as ->. now rewrite (own_get_absent k ps Hk).
  - now destruct (own_get s ps).
Qed.

Lemma createAnonymousContext_run w app req :
  proto_wf (w_heap w) -> heap_closed (w_heap w) ->
  app_ready (w_heap w) app = true ->
  value_closed (length (w_heap w)) req = true ->
  let h := w_heap w in
  let h1 := anon_heap h req in
  createAnonymousContext app req w =
  (set_heap w
     (h1 ++ context_objs h1 (w_now w) app (VRef (length h + 3))
                         (VRef (length h + 4))),
   Ok (VRef (length h1))).
Proof.
  intros Hwf Hcl Hready Hv. destruct w as [h now tr ls id]. cbn [w_heap w_now].
  cbn zeta. unfold createAnonymousContext, new_object, new_ServerResponse.
  replace (mkWorld h now tr ls id) with (mkWorld (h ++ []) now tr ls id)
    by now rewrite app_nil_r.
  do 4 (erewrite bind_run by apply run_alloc; cbn [length List.app Nat.add]).
  rewrite Nat.add_0_r.
  change [mkObj None Plain default_headers; mkObj None Plain default_query;
          mkObj None Plain default_socket;
          mkObj None Plain
            (default_request (VRef (length h)) (VRef (length h + 1))
               (VRef (length h + 2)))]
    with (anon_objs (anon_defaults (length h))).
  assert (Hloop :
    (if truthy req
     then do keys <- for_in req ;
          forM keys (override_key (VRef (length h + 3)) req)
     else ret tt)
      (mkWorld (h ++ anon_objs (anon_defaults (length h))) now tr ls id) =
    (mkWorld (h ++ anon_objs (anon_final h req)) now tr ls id, Ok tt)).
  { unfold anon_final, override_keys. destruct (truthy req) eqn:Ht.
    - unfold for_in. erewrite bind_run by reflexivity. cbn [w_heap].
      rewrite for_in_keys_old by assumption.
      apply run_override_loop; auto using truthy_not_nullish,
        anon_linked_defaults.
    - reflexivity. }
  erewrite bind_run by exact Hloop.
  erewrite bind_run by apply run_alloc.
  cbn [length anon_objs Nat.add].
  fold (anon_heap h req).
  assert (Hwf1 : proto_wf (anon_heap h req))
    by (apply proto_wf_app; [assumption|reflexivity]).
  assert (Hlen : length (anon_heap h req) = length h + 5)
    by (unfold anon_heap; rewrite length_app; reflexivity).
  rewrite createContext_run; cbn [w_heap w_now set_heap].
  - reflexivity.
  - exact Hwf1.
  - now apply app_ready_app.
  - reflexivity.
  - cbn [value_closed]. apply Nat.ltb_lt. lia.
Qed.

(** C3: the request [createAnonymousContext] makes.  The keys [headers],
    [query] and [socket] always read a sub-object of the call's own making.
    When the overrides list such a key and hold an object for it, a subfield
    reads what that object assigns it (its own enumerable property, the
    last entry when a key occurs twice), else its default; when the
    overrides do not list the key, or hold no object for it, every subfield
    reads its default.  Any other key reads the override's value when the
    overrides list the key, else its default.  Without overrides the request
    is the default one. *)
Theorem createAnonymousContext_overrides w app req :
  proto_wf (w_heap w) -> heap_closed (w_heap w) ->
  app_ready (w_heap w) app = true ->
  value_closed (length (w_heap w)) req = true ->
  is_nonempty_string req = false ->
  (forall k, merged_key k = true ->
             is_nonempty_string (read (w_heap w) req k) = false) ->
  exists w' ctx r,
    createAnonymousContext app req w = (w', Ok ctx) /\
    let h := w_heap w in
    let h' := w_heap w' in
    read h' ctx "req" = VRef r /\
    (forall k, merged_key k = true ->
       exists d,
         read h' (VRef r) (PStr k) = VRef d /\ length h <= d /\
         (forall m om,
            listed h req k -> read h req k = VRef m -> h !! m = Some om ->
            (forall s,
               read h' (VRef d) s =
               match assigned s (enumerable_own om) with
               | Some v => v
               | None => default VUndef (own_get s (default_sub k))
               end) /\
            (kind om = Plain -> NoDup (map fst (props om)) ->
             forall s v,
               own_get s (props om) = Some v -> read h' (VRef d) s = v)) /\
         (listed h req k -> (forall m, read h req k <> VRef m) ->
          forall s,
            read h' (VRef d) s = default VUndef (own_get s (default_sub k))) /\
         (~ listed h req k ->
          forall s,
            read h' (VRef d) s = default VUndef (own_get s (default_sub k)))) /\
    (forall k, merged_key k = false ->
       (listed h req k -> read h' (VRef r) (PStr k) = read h req k) /\
       (~ listed h req k ->
        read h' (VRef r) (PStr k) =
        default VUndef (own_get (PStr k) (default_request VUndef VUndef VUndef)))) /\
    (truthy req = false ->
       read h' (VRef r) "method" = VStr "GET" /\
       read h' (VRef r) "url" = VStr "/" /\
       read h' (VRef r) "path" = VStr "/" /\
       read h' (VRef r) "host" = VStr "127.0.0.1" /\
       read h' (VRef r) "hostname" = VStr "127.0.0.1" /\
       read h' (VRef r) "protocol" = VStr "http" /\
       read h' (VRef r) "querystring" = VStr "" /\
       (forall s, read h' (read h' (VRef r) "query") s = VUndef) /\
       read h' (read h' (VRef r) "headers") "x-forwarded-for" =
         VStr "127.0.0.1" /\
       read h' (read h' (VRef r) "socket") "remoteAddress" = VStr "127.0.0.1" /\
       read h' (read h' (VRef r) "socket") "remotePort" = VNum 7001).
Proof.
  intros Hwf Hcl Hready Hv _ _.
  pose proof (createAnonymousContext_run w app req Hwf Hcl Hready Hv) as Hrun.
  cbn zeta in Hrun.
  set (h := w_heap w) in *. set (h1 := anon_heap h req) in *.
  set (t := context_objs h1 (w_now w) app (VRef (length h + 3))
              (VRef (length h + 4))) in *.
  assert (Hwf1 : proto_wf h1)
    by (apply proto_wf_app; [assumption|reflexivity]).
  assert (Hlen : length h1 = length h + 5)
    by (unfold h1, anon_heap; rewrite length_app; reflexivity).
  assert (Hlink : anon_linked (length h) (anon_final h req))
    by apply anon_linked_fold, anon_linked_defaults.
  assert (Hobj : forall i, i < 4 ->
            (h1 ++ t) !! (length h + i) =
            Some (mkObj None Plain (anon_at i (anon_final h req)))).
  { intros i Hi. rewrite lookup_app_l by lia. unfold h1, anon_heap.
    rewrite lookup_fresh.
    now destruct i as [|[|[|[|i]]]]; try lia. }
  assert (Htop : forall k,
            hget (h1 ++ t) (length h + 3) k =
            default VUndef (own_get k (a_request (anon_final h req)))).
  { intros k. apply hget_plain_root. apply (Hobj 3). lia. }
  exists (set_heap w (h1 ++ t)), (VRef (length h1)), (length h + 3).
  split; [exact Hrun|]. cbn zeta. cbn [w_heap set_heap].
  assert (Hsub : forall k, merged_key k = true ->
            read (h1 ++ t) (VRef (length h + 3)) (PStr k) =
              VRef (length h + merged_index k) /\
            forall s, read (h1 ++ t) (VRef (length h + merged_index k)) s =
                      merged_value h req k s).
  { intros k Hk. pose proof (merged_index_lt k) as Hi. cbn [read]. split.
    - now rewrite Htop, (Hlink k Hk).
    - intros s.
      rewrite (hget_plain_root _ _ _ _ (Hobj (merged_index k) ltac:(lia))).
      unfold anon_final. rewrite fold_sub_lookup by assumption.
      unfold merged_value.
      replace (anon_at (merged_index k) (anon_defaults (length h)))
        with (default_sub k)
        by (destruct (merged_key_cases k Hk) as [-> | [-> | ->]]; reflexivity).
      destruct (bool_decide (k ∈ override_keys h req)); [|reflexivity].
      now destruct (assigned s (assign_source h (read h req k))). }
  assert (Hplain : forall k, merged_key k = false ->
            read (h1 ++ t) (VRef (length h + 3)) (PStr k) =
            replaced_value h req k).
  { intros k Hk. cbn [read]. rewrite Htop. unfold anon_final.
    rewrite fold_request_lookup by assumption. unfold replaced_value.
    destruct (bool_decide (k ∈ override_keys h req)); [reflexivity|].
    cbn [anon_defaults a_request].
    now rewrite (default_request_plain k _ _ _ VUndef VUndef VUndef). }
  assert (Hyes : forall k, listed h req k ->
            bool_decide (k ∈ override_keys h req) = true)
    by (intros k Hk; apply bool_decide_eq_true, override_keys_listed; auto).
  assert (Hno : forall k, ~ listed h req k ->
            bool_decide (k ∈ override_keys h req) = false).
  { intros k Hk. apply bool_decide_eq_false. intros Hin. apply Hk.
    now apply override_keys_listed. }
  split; [cbn [read]; own_read|]. split; [|split].
  - intros k Hk. destruct (Hsub k Hk) as [Hd Hs].
    exists (length h + merged_index k).
    split; [exact Hd|]. split; [lia|]. split; [|split].
    + intros m om Hl Hm Hom.
      assert (Hgen : forall s,
                read (h1 ++ t) (VRef (length h + merged_index k)) s =
                match assigned s (enumerable_own om) with
                | Some v => v
                | None => default VUndef (own_get s (default_sub k))
                end).
      { intros s. rewrite Hs. unfold merged_value.
        rewrite (Hyes k Hl), Hm. cbn [assign_source]. now rewrite Hom. }
      split; [exact Hgen|]. intros Hkind Hnd s v Hown. rewrite Hgen.
      unfold enumerable_own. rewrite Hkind. cbn [List.app].
      now rewrite (assigned_distinct s _ Hnd), Hown.
    + intros Hl Hm s. rewrite Hs. unfold merged_value. rewrite (Hyes k Hl).
      destruct (read h req k) as [| | | | | |m]; try reflexivity.
      now destruct (Hm m).
    + intros Hl s. rewrite Hs. unfold merged_value. now rewrite (Hno k Hl).
  - intros k Hk. rewrite (Hplain k Hk). unfold replaced_value. split.
    + intros Hl. now rewrite (Hyes k Hl).
    + intros Hl. now rewrite (Hno k Hl).
  - intros Ht.
    assert (Hnone : forall k, ~ listed h req k).
    { intros k Hl. unfold listed in Hl. destruct req; try contradiction.
      discriminate. }
    assert (Hdef : forall k s, merged_key k = true ->
              read (h1 ++ t) (read (h1 ++ t) (VRef (length h + 3)) (PStr k)) s =
              default VUndef (own_get s (default_sub k))).
    { intros k s Hk. destruct (Hsub k Hk) as [-> Hs]. rewrite Hs.
      unfold merged_value. now rewrite (Hno k (Hnone k)). }
    repeat split;
      lazymatch goal with
      | |- read _ (read _ _ (PStr ?k)) _ = _ => now rewrite (Hdef k _ eq_refl)
      | |- read _ _ (PStr ?k) = _ =>
          rewrite (Hplain k eq_refl); unfold replaced_value;
          rewrite (Hno k (Hnone k)); reflexivity
      | |- _ => intros s; now rewrite (Hdef "query" s eq_refl)
      end.
Qed.

Lemma createAnonymousContext_overrides_witness :
  exists w' ctx r,
    createAnonymousContext sample_app sample_override sample_override_world =
      (w', Ok ctx) /\
    let h' := w_heap w' in
    read h' ctx "req" = VRef r /\
    read h' (VRef r) "method" = VStr "POST" /\
    read h' (VRef r) "host" = VStr "127.0.0.1" /\
    read h' (VRef r) "path" = VStr "/" /\
    read h' (VRef r) "protocol" = VStr "http" /\
    read h' (read h' (VRef r) "query") "a" = VStr "1" /\
    read h' (read h' (VRef r) "headers") "user-agent" = VStr "cron" /\
    read h' (read h' (VRef r) "headers") "x-forwarded-for" = VStr "127.0.0.1" /\
    read h' (read h' (VRef r) "socket") "remoteAddress" = VStr "127.0.0.1" /\
    read h' (read h' (VRef r) "socket") "remotePort" = VNum 7001.
Proof.
  destruct (createAnonymousContext_overrides sample_override_world sample_app
              sample_override)
    as (w' & ctx & r & Hrun & Hreq & Hmerged & Hplain & _);
    [ reflexivity | reflexivity | reflexivity | reflexivity | reflexivity
    | intros k Hk;
      destruct (merged_key_cases k Hk) as [-> | [-> | ->]]; reflexivity | ].
  cbn zeta in Hreq, Hmerged, Hplain. cbn [w_heap sample_override_world] in *.
  assert (Hown : forall k,
            is_Some (own_get (PStr k)
                       [(PStr "query", VRef 8); (PStr "method", VStr "POST");
                        (PStr "headers", VRef 9)]) ->
            listed sample_override_heap sample_override k).
  { intros k Hk. now eapply has_own. }
  assert (Hnot : forall k,
            own_get (PStr k)
              [(PStr "query", VRef 8); (PStr "method", VStr "POST");
               (PStr "headers", VRef 9)] = None ->
            ~ listed sample_override_heap sample_override k).
  { intros k Hk Hl. inversion Hl as [l o Ho [v Hv] | l o p Ho Hp _].
    - injection Ho as <-. cbn in Hv. cbn in Hk. congruence.
    - injection Ho as <-. discriminate. }
  exists w', ctx, r. split; [exact Hrun|]. cbn zeta. split; [exact Hreq|].
  split; [now apply (Hplain "method" eq_refl), Hown|].
  split; [now apply (Hplain "host" eq_refl), Hnot|].
  split; [now apply (Hplain "path" eq_refl), Hnot|].
  split; [now apply (Hplain "protocol" eq_refl), Hnot|].
  destruct (Hmerged "query" eq_refl) as (q & -> & _ & Hq & _).
  destruct (Hmerged "headers" eq_refl) as (hd & -> & _ & Hhd & _).
  destruct (Hmerged "socket" eq_refl) as (sk & -> & _ & _ & _ & Hsk).
  destruct (Hq 8 (mkObj None Plain [(PStr "a", VStr "1")])
              (Hown "query" ltac:(now eexists)) eq_refl eq_refl) as [Hq1 _].
  destruct (Hhd 9 (mkObj None Plain [(PStr "user-agent", VStr "cron")])
              (Hown "headers" ltac:(now eexists)) eq_refl eq_refl) as [Hhd1 _].
  split; [exact (Hq1 "a")|]. split; [exact (Hhd1 "user-agent")|].
  split; [exact (Hhd1 "x-forwarded-for")|].
  split; [exact (Hsk (Hnot "socket" eq_refl) "remoteAddress")|].
  exact (Hsk (Hnot "socket" eq_refl) "remotePort").
Defined.

(** The overrides of the sample, read back from the synthetic request: the
    merged sub-objects keep their defaults next to the overriding
    subfields, [method] is replaced and the other keys are the defaults. *)
Example anonymous_sample_reads :
  let r := createAnonymousContext sample_app sample_override
             sample_override_world in
  let h' := w_heap (fst r) in
  let request := read h' (VRef 16) "req" in
  snd r = Ok (VRef 16) /\
  read h' (read h' request "query") "a" = VStr "1" /\
  read h' (read h' request "headers") "user-agent" = VStr "cron" /\
  read h' (read h' request "headers") "x-forwarded-for" = VStr "127.0.0.1" /\
  read h' (read h' request "socket") "remotePort" = VNum 7001 /\
  read h' request "method" = VStr "POST" /\
  read h' request "host" = VStr "127.0.0.1" /\
  read h' request "path" = VStr "/" /\
  read h' request "protocol" = VStr "http" /\
  read h' request "query" <> VRef 8.
Proof. vm_compute. repeat split; congruence. Qed.

(** Without an argument the request is the default one. *)
Example anonymous_default_reads :
  let r := createAnonymousContext sample_app VUndef sample_world in
  let h' := w_heap (fst r) in
  let request := read h' (VRef 13) "req" in
  snd r = Ok (VRef 13) /\
  read h' request "method" = VStr "GET" /\
  read h' request "url" = VStr "/" /\
  read h' request "path" = VStr "/" /\
  read h' request "host" = VStr "127.0.0.1" /\
  read h' request "hostname" = VStr "127.0.0.1" /\
  read h' request "protocol" = VStr "http" /\
  read h' request "querystring" = VStr "" /\
  assign_source h' (read h' request "query") = [] /\
  read h' (read h' request "headers") "x-forwarded-for" = VStr "127.0.0.1" /\
  read h' (read h' request "socket") "remoteAddress" = VStr "127.0.0.1".
Proof. vm_compute. repeat split. Qed.

(** ** The [keys] accessor *)

Lemma bind_ret {A B} (a : A) (f : A -> M B) w : bindM (ret a) f w = f a w.
Proof. reflexivity. Qed.

Lemma run_config_of w a c k :
  hget (w_heap w) a "config" = VRef c ->
  config_of (VRef a) k w = (w, Ok (hget (w_heap w) c k)).
Proof.
  intros Hc. unfold config_of.
  erewrite bind_run by (apply run_get; reflexivity).
  cbn [read]. rewrite Hc. now rewrite run_get.
Qed.

Lemma run_is_local_env w a c :
  hget (w_heap w) a "config" = VRef c ->
  is_local_env (VRef a) w = (w, Ok (local_env (hget (w_heap w) c "env"))).
Proof.
  intros Hc. unfold is_local_env, local_env.
  erewrite bind_run by (eapply run_config_of; exact Hc).
  destruct (strict_eq _ (VStr "local")); [reflexivity|].
  erewrite bind_run by (eapply run_config_of; exact Hc). reflexivity.
Qed.

Lemma get_keys_cached `{Platform} w a :
  truthy (hget (w_heap w) a KEYS) = true ->
  get_keys (VRef a) w = (w, Ok (hget (w_heap w) a KEYS)).
Proof.
  intros Ht. unfold get_keys.
  erewrite bind_run by (apply run_get; reflexivity).
  cbn [read]. rewrite Ht, bind_ret. now rewrite run_get.
Qed.

Lemma own_lookup_set_ne k k' v o :
  k' <> k -> kind o = Plain ->
  own_lookup k' (mkObj (proto o) (kind o) (own_set k v (props o))) =
  own_lookup k' o.
Proof.
  intros Hne Hk. rewrite !own_lookup_plain by assumption.
  now apply own_get_set_ne.
Qed.

(** A write to another field, on the same or on another object, does not
    change what an own field of a plain object reads. *)
Lemma hget_own_hset h l o k v x k' v' :
  h !! l = Some o -> kind o = Plain -> own_get k (props o) = Some v ->
  k <> k' -> hget (hset h x k' v') l k = v.
Proof.
  intros Hl Hk Hg Hne. unfold hset.
  destruct (h !! x) as [ox|] eqn:Hx.
  - destruct (decide (x = l)) as [-> | Hxl].
    + rewrite Hl in Hx. injection Hx as <-. eapply hget_own.
      * apply list_lookup_insert_eq. eapply lookup_lt_Some; eauto.
      * rewrite own_lookup_plain by assumption. cbn [props with_props].
        now rewrite own_get_set_ne.
    + eapply hget_own.
      * rewrite list_lookup_insert_ne by assumption. exact Hl.
      * now rewrite own_lookup_plain.
  - eapply hget_own; [exact Hl|]. now rewrite own_lookup_plain.
Qed.

Lemma string_eqb_nonempty s : s <> "" -> negb (String.eqb s "") = true.
Proof.
  intros Hs. destruct (String.eqb s "") eqn:E; [|reflexivity].
  apply String.eqb_eq in E. contradiction.
Qed.

Lemma get_keys_first `{Platform} w a c oa s :
  w_heap w !! a = Some oa -> kind oa = Plain ->
  hget (w_heap w) a "config" = VRef c ->
  truthy (hget (w_heap w) a KEYS) = false ->
  hget (w_heap w) c "keys" = VStr s -> s <> "" ->
  let h := w_heap w in
  get_keys (VRef a) w =
  (set_heap w (hset (h ++ [keys_array s]) a KEYS (VRef (length h))),
   Ok (VRef (length h))).
Proof.
  intros Ha Hk Hc Ht Hs Hne h. unfold get_keys.
  erewrite bind_run by (apply run_get; reflexivity).
  cbn [read]. rewrite Ht.
  erewrite bind_run.
  2: { erewrite bind_run by (eapply run_config_of; exact Hc).
       rewrite Hs. cbn [truthy]. rewrite string_eqb_nonempty by assumption.
       rewrite bind_ret.
       erewrite bind_run by (eapply run_config_of; exact Hc).
       rewrite Hs. cbn [split_and_trim].
       erewrite bind_run by reflexivity.
       reflexivity. }
  rewrite run_get by reflexivity.
  cbn [w_heap set_heap read]. fold h. f_equal. f_equal.
  eapply hget_hset_same; [|exact Hk].
  rewrite lookup_app_l by (eapply lookup_lt_Some; eauto). exact Ha.
Qed.

Lemma get_keys_missing `{Platform} w a c :
  hget (w_heap w) a "config" = VRef c ->
  truthy (hget (w_heap w) a KEYS) = false ->
  truthy (hget (w_heap w) c "keys") = false ->
  let h := w_heap w in
  (local_env (hget h c "env") = true ->
   forall b, hget h c "baseDir" = VStr b ->
   get_keys (VRef a) w =
   (add_events w (keys_guidance b),
    Throw (Error "Please set config.keys first"))) /\
  (local_env (hget h c "env") = false ->
   get_keys (VRef a) w = (w, Throw (Error "Please set config.keys first"))).
Proof.
  intros Hc Ht Hks h. split.
  - intros Hl b Hb. unfold get_keys.
    erewrite bind_run by (apply run_get; reflexivity).
    cbn [read]. rewrite Ht.
    erewrite bind_throw; [reflexivity|].
    erewrite bind_run by (eapply run_config_of; exact Hc).
    rewrite Hks.
    erewrite bind_throw; [reflexivity|].
    erewrite bind_run by (eapply run_is_local_env; exact Hc).
    fold h. rewrite Hl.
    erewrite bind_run.
    2: { erewrite bind_run by (eapply run_config_of; exact Hc).
         fold h. rewrite Hb. unfold path_join_call. cbn [strings_of fmap option_fmap option_map].
         rewrite bind_ret. erewrite bind_run by reflexivity. reflexivity. }
    unfold throw, add_events, add_event, keys_guidance.
    cbn [w_heap w_now w_trace w_listeners w_next_id].
    now rewrite <- app_assoc.
  - intros Hl. unfold get_keys.
    erewrite bind_run by (apply run_get; reflexivity).
    cbn [read]. rewrite Ht.
    erewrite bind_throw; [reflexivity|].
    erewrite bind_run by (eapply run_config_of; exact Hc).
    rewrite Hks.
    erewrite bind_throw; [reflexivity|].
    erewrite bind_run by (eapply run_is_local_env; exact Hc).
    fold h. rewrite Hl. rewrite bind_ret. reflexivity.
Qed.

(** C4: the [keys] accessor.  From a comma-separated [config.keys] the
    first access makes the array of the trimmed segments (["a","b","c"] for
    "a, b ,c") and caches it in the application's private slot; every access
    that finds the slot filled returns that very array and changes nothing,
    whatever [config.keys] has become.  Without [config.keys] the access
    throws; the two lines of guidance are printed before the throw when
    [config.env] is [local] or [unittest] and nothing is printed otherwise. *)
Theorem keys_accessor `{Platform} w a c oa :
  w_heap w !! a = Some oa -> kind oa = Plain ->
  hget (w_heap w) a "config" = VRef c ->
  let h := w_heap w in
  let app := VRef a in
  let failure : outcome value := Throw (Error "Please set config.keys first") in
  map trim (split_on "," "a, b ,c") = ["a"; "b"; "c"] /\
  (truthy (hget h a KEYS) = false ->
   forall s, hget h c "keys" = VStr s -> s <> "" ->
   exists w',
     get_keys app w = (w', Ok (VRef (length h))) /\
     w_heap w' !! length h = Some (keys_array s) /\
     w_trace w' = w_trace w /\
     get_keys app w' = (w', Ok (VRef (length h))) /\
     (forall v w'',
        set_prop (VRef c) "keys" v w' = (w'', Ok tt) ->
        get_keys app w'' = (w'', Ok (VRef (length h))))) /\
  (forall w',
     truthy (hget (w_heap w') a KEYS) = true ->
     get_keys app w' = (w', Ok (hget (w_heap w') a KEYS))) /\
  (truthy (hget h a KEYS) = false -> truthy (hget h c "keys") = false ->
   (local_env (hget h c "env") = true ->
    forall b, hget h c "baseDir" = VStr b ->
    get_keys app w = (add_events w (keys_guidance b), failure)) /\
   (local_env (hget h c "env") = false -> get_keys app w = (w, failure))).
Proof.
  intros Ha Hk Hc h app failure. subst h app failure.
  split; [vm_compute; reflexivity|]. split; [|split].
  - intros Ht s Hs Hne.
    pose proof (get_keys_first w a c oa s Ha Hk Hc Ht Hs Hne) as Hrun.
    cbn zeta in Hrun.
    set (h := w_heap w) in *.
    set (h' := hset (h ++ [keys_array s]) a KEYS (VRef (length h))) in *.
    assert (Hlt : a < length h) by (eapply lookup_lt_Some; eauto).
    assert (Ha' : h' !! a =
                  Some (with_props oa (own_set KEYS (VRef (length h)) (props oa)))).
    { unfold h', hset. rewrite lookup_app_l, Ha by assumption.
      apply list_lookup_insert_eq. rewrite length_app. lia. }
    assert (Hcached : hget h' a KEYS = VRef (length h)).
    { eapply hget_own; [exact Ha'|].
      rewrite own_lookup_plain by assumption. apply own_get_set_eq. }
    exists (set_heap w h'). split; [exact Hrun|]. cbn [w_heap set_heap w_trace].
    split; [|split; [reflexivity|split]].
    + unfold h', hset. rewrite lookup_app_l, Ha by assumption.
      rewrite list_lookup_insert_ne by lia. apply lookup_fresh0.
    + rewrite get_keys_cached; cbn [w_heap set_heap]; now rewrite Hcached.
    + intros v w'' [= <-].
      assert (Hstill : hget (hset h' c "keys" v) a KEYS = VRef (length h)).
      { eapply hget_own_hset; [exact Ha'|exact Hk| |discriminate].
        apply own_get_set_eq. }
      rewrite get_keys_cached; cbn [w_heap set_heap]; now rewrite Hstill.
  - intros w' Ht. now apply get_keys_cached.
  - intros Ht Hks. now apply get_keys_missing.
Qed.

Lemma keys_accessor_witness :
  let w := sample_world in
  let h := sample_heap in
  let app := VRef 5 in
  let get_keys := @get_keys sample_platform in
  let failure : outcome value := Throw (Error "Please set config.keys first") in
  map trim (split_on "," "a, b ,c") = ["a"; "b"; "c"] /\
  (truthy (hget h 5 KEYS) = false ->
   forall s, hget h 4 "keys" = VStr s -> s <> "" ->
   exists w',
     get_keys app w = (w', Ok (VRef (length h))) /\
     w_heap w' !! length h = Some (keys_array s) /\
     w_trace w' = w_trace w /\
     get_keys app w' = (w', Ok (VRef (length h))) /\
     (forall v w'',
        set_prop (VRef 4) "keys" v w' = (w'', Ok tt) ->
        get_keys app w'' = (w'', Ok (VRef (length h))))) /\
  (forall w',
     truthy (hget (w_heap w') 5 KEYS) = true ->
     get_keys app w' = (w', Ok (hget (w_heap w') 5 KEYS))) /\
  (truthy (hget h 5 KEYS) = false -> truthy (hget h 4 "keys") = false ->
   (local_env (hget h 4 "env") = true ->
    forall b, hget h 4 "baseDir" = VStr b ->
    get_keys app w =
    (add_events w (@keys_guidance sample_platform b), failure)) /\
   (local_env (hget h 4 "env") = false -> get_keys app w = (w, failure))).
Proof.
  apply (@keys_accessor sample_platform sample_world 5 4
           (mkObj None Plain
              [(PStr "context", VRef 1); (PStr "request", VRef 2);
               (PStr "response", VRef 3); (PStr "config", VRef 4)]));
    reflexivity.
Defined.

(** The accessor on the samples: the list of the three secrets, cached at
    the first access; without secret, guidance and failure on a developer's
    machine, bare failure elsewhere. *)
Example keys_sample_first :
  let r := @get_keys sample_platform sample_app sample_world in
  snd r = Ok (VRef 8) /\
  w_heap (fst r) !! 8 = Some (mkObj None (Arr [VStr "a"; VStr "b"; VStr "c"]) []) /\
  @get_keys sample_platform sample_app (fst r) = (fst r, Ok (VRef 8)).
Proof. vm_compute. repeat split. Qed.

Example keys_sample_local :
  @get_keys sample_platform sample_app sample_local_world =
  (add_events sample_local_world
     [ EvConsoleError [VStr "Cookie need secret key to sign and encrypt."];
       EvConsoleError [VStr "Please add `config.keys` in %s";
                       VStr "/srv/app/config/config.default.js"] ],
   Throw (Error "Please set config.keys first")).
Proof. vm_compute. reflexivity. Qed.

Example keys_sample_production :
  let w := set_heap sample_world
             (hset sample_heap 4 "keys" VUndef) in
  @get_keys sample_platform sample_app w =
  (w, Throw (Error "Please set config.keys first")).
Proof. vm_compute. reflexivity. Qed.

(** ** The reply to a malformed request *)

(** C5: [onClientError] logs the remote address, the remote port, the error
    code and the error message, then writes the fixed reply to the socket
    and closes it; the heap is left as it was, so no context is made.  The
    reply is the status line, a [Content-Length] header and, after an empty
    line, the fixed page; the header gives 168, the length of the page in
    bytes (the page has 166 UTF-16 code units: its heart takes three
    bytes). *)
Theorem onClientError_reply w app e s :
  let h := w_heap w in
  let err := VRef e in
  let socket := VRef s in
  onClientError app err socket w =
    (add_events w
       [ EvLog AppLogger LError
           [ VStr "A client (%s:%d) error [%s] occurred: %s";
             read h socket "remoteAddress"; read h socket "remotePort";
             read h err "code"; read h err "message" ];
         EvSocketWrite socket DEFAULT_BAD_REQUEST_RESPONSE;
         EvSocketEnd socket ],
     Ok VUndef) /\
  w_heap (fst (onClientError app err socket w)) = h /\
  message_parts DEFAULT_BAD_REQUEST_RESPONSE =
    Some ("HTTP/1.1 400 Bad Request" +:+ CRLF +:+ "Content-Length: 168",
          DEFAULT_BAD_REQUEST_HTML) /\
  Buffer_byteLength DEFAULT_BAD_REQUEST_HTML = 168%Z /\
  String.length DEFAULT_BAD_REQUEST_HTML = 168 /\
  utf16_units DEFAULT_BAD_REQUEST_HTML = 166%Z.
Proof.
  intros h err socket.
  assert (Hrun : onClientError app err socket w =
    (add_events w
       [ EvLog AppLogger LError
           [ VStr "A client (%s:%d) error [%s] occurred: %s";
             read h socket "remoteAddress"; read h socket "remotePort";
             read h err "code"; read h err "message" ];
         EvSocketWrite socket DEFAULT_BAD_REQUEST_RESPONSE;
         EvSocketEnd socket ],
     Ok VUndef)).
  { unfold onClientError.
    do 4 (erewrite bind_run by (apply run_get; reflexivity)).
    fold h. unfold log, socket_end, socket, emit_event.
    erewrite bind_run by reflexivity.
    erewrite bind_run by reflexivity.
    unfold ret, add_events, add_event.
    cbn [w_heap w_now w_trace w_listeners w_next_id].
    now rewrite <- !app_assoc. }
  split; [exact Hrun|]. split; [now rewrite Hrun|].
  repeat split; vm_compute; reflexivity.
Qed.

(** The three effects on the sample connection. *)
Example onClientError_sample :
  w_trace (fst (onClientError sample_app (VRef 9) (VRef 8)
                  (mkWorld sample_socket_heap 0 [] [] 0))) =
  [ EvLog AppLogger LError
      [ VStr "A client (%s:%d) error [%s] occurred: %s";
        VStr "10.0.0.7"; VNum 51234; VStr "HPE_INVALID_METHOD";
        VStr "Parse Error" ];
    EvSocketWrite (VRef 8) DEFAULT_BAD_REQUEST_RESPONSE;
    EvSocketEnd (VRef 8) ].
Proof. vm_compute. reflexivity. Qed.

(** ** Warnings on deprecated configuration keys *)

Lemma add_events_nil w : add_events w [] = w.
Proof. destruct w. unfold add_events. cbn. now rewrite app_nil_r. Qed.

Lemma add_events_app w es es' :
  add_events (add_events w es) es' = add_events w (es ++ es').
Proof. unfold add_events. cbn. now rewrite app_assoc. Qed.

Lemma run_log w lg lv args :
  log lg lv args w = (add_events w [EvLog lg lv args], Ok tt).
Proof. reflexivity. Qed.

Lemma run_warn_confused_key w a c m key :
  hget (w_heap w) a "config" = VRef c ->
  warn_confused_key (VRef a) (VRef m) key w =
  (add_events w (confused_warning (w_heap w) c m key), Ok tt).
Proof.
  intros Hc. unfold warn_confused_key, confused_warning.
  erewrite bind_run by (eapply run_config_of; exact Hc).
  destruct (strict_eq (hget (w_heap w) c key) VUndef).
  - now rewrite add_events_nil.
  - erewrite bind_run by (apply run_get; reflexivity). apply run_log.
Qed.

Lemma run_warn_confused_loop a c m keys :
  forall w,
    hget (w_heap w) a "config" = VRef c ->
    forM keys (warn_confused_key (VRef a) (VRef m)) w =
    (add_events w (confused_warnings (w_heap w) c m keys), Ok tt).
Proof.
  induction keys as [|key keys IH]; intros w Hc.
  - cbn. now rewrite add_events_nil.
  - cbn [forM confused_warnings flat_map].
    erewrite bind_run by (eapply run_warn_confused_key; exact Hc).
    rewrite IH by exact Hc. cbn [w_heap add_events].
    now rewrite add_events_app.
Qed.

(** C6: [warnConfusedConfig] goes through the keys of
    [config.confusedConfigurations] in order and logs one warning, naming
    the key and its replacement, for each key the configuration defines, and
    nothing for a key that reads [undefined]; it returns normally and only
    the log changes. *)
Theorem warnConfusedConfig_warnings w a c m om :
  hget (w_heap w) a "config" = VRef c ->
  hget (w_heap w) c "confusedConfigurations" = VRef m ->
  w_heap w !! m = Some om ->
  let h := w_heap w in
  let keys := string_keys (enumerable_own om) in
  warnConfusedConfig (VRef a) w =
    (add_events w (confused_warnings h c m keys), Ok VUndef) /\
  w_heap (fst (warnConfusedConfig (VRef a) w)) = h /\
  (forall e,
     In e (confused_warnings h c m keys) <->
     exists key,
       In key keys /\ hget h c key <> VUndef /\
       e = EvLog AppLogger LWarn
             [ VStr "Unexpected config key `%s` exists, Please use `%s` instead.";
               VStr key; hget h m key ]).
Proof.
  intros Hc Hm Hom h keys.
  assert (Hrun : warnConfusedConfig (VRef a) w =
                 (add_events w (confused_warnings h c m keys), Ok VUndef)).
  { unfold warnConfusedConfig.
    erewrite bind_run by (eapply run_config_of; exact Hc).
    rewrite Hm. unfold Object_keys at 1.
    erewrite bind_run by (cbn [nullish]; rewrite Hom; reflexivity).
    erewrite bind_run by (eapply run_warn_confused_loop; exact Hc).
    reflexivity. }
  split; [exact Hrun|]. split; [now rewrite Hrun|].
  intros e. unfold confused_warnings. rewrite in_flat_map.
  split; intros (key & Hin & He); exists key; (split; [exact Hin|]).
  - unfold confused_warning, strict_eq in He. case_bool_decide.
    + contradiction.
    + destruct He as [<- | []]. now split.
  - destruct He as [Hdef ->]. unfold confused_warning, strict_eq.
    rewrite bool_decide_eq_false_2 by assumption. now left.
Qed.

Lemma warnConfusedConfig_warnings_witness :
  let w := mkWorld sample_confused_heap 0 [] [] 0 in
  let h := sample_confused_heap in
  let keys := ["oldKey"; "bodyparser"] in
  warnConfusedConfig (VRef 2) w =
    (add_events w (confused_warnings h 1 0 keys), Ok VUndef) /\
  w_heap (fst (warnConfusedConfig (VRef 2) w)) = h /\
  (forall e,
     In e (confused_warnings h 1 0 keys) <->
     exists key,
       In key keys /\ hget h 1 key <> VUndef /\
       e = EvLog AppLogger LWarn
             [ VStr "Unexpected config key `%s` exists, Please use `%s` instead.";
               VStr key; hget h 0 key ]).
Proof.
  apply (warnConfusedConfig_warnings (mkWorld sample_confused_heap 0 [] [] 0)
           2 1 0
           (mkObj None Plain [(PStr "oldKey", VStr "newKey");
                              (PStr "bodyparser", VStr "bodyParser")]));
    reflexivity.
Defined.

(** With [oldKey] set there is exactly one warning, for [oldKey] and not
    for [bodyparser]; with [oldKey] undefined there is none. *)
Example warnConfusedConfig_sample :
  w_trace (fst (warnConfusedConfig (VRef 2)
                  (mkWorld sample_confused_heap 0 [] [] 0))) =
  [ EvLog AppLogger LWarn
      [ VStr "Unexpected config key `%s` exists, Please use `%s` instead.";
        VStr "oldKey"; VStr "newKey" ] ] /\
  w_trace (fst (warnConfusedConfig (VRef 2)
                  (mkWorld (hset sample_confused_heap 1 "oldKey" VUndef)
                           0 [] [] 0))) = [].
Proof. vm_compute. split; reflexivity. Qed.

(** ** The locals of the application *)

Lemma own_get_string_key key ps :
  In key (string_keys ps) -> exists v, own_get (PStr key) ps = Some v.
Proof.
  induction ps as [|[k v] ps IH]; [contradiction|].
  unfold string_keys. cbn [flat_map fst own_get]. intros Hin.
  destruct (pkey_eqb key k) eqn:E; [eauto|].
  apply in_app_or in Hin as [Hin|Hin]; [|now apply IH].
  destruct k as [s|s]; cbn in Hin; [|contradiction].
  destruct Hin as [<- | []]. cbn in E.
  rewrite String.eqb_refl in E. discriminate.
Qed.

Lemma hget_own_key h l ol key :
  h !! l = Some ol -> In key (string_keys (enumerable_own ol)) ->
  hget h l (PStr key) = own_value ol key.
Proof.
  intros Hl Hin. unfold own_value.
  destruct (own_get_string_key _ _ Hin) as [v Hv]. rewrite Hv.
  eapply hget_own; [exact Hl|]. unfold own_lookup. now rewrite Hv.
Qed.

Lemma run_assign_keys b l ol now tr ls id keys :
  l <> b ->
  (forall key, In key keys -> In key (string_keys (enumerable_own ol))) ->
  forall ps h,
    h !! b = Some (mkObj None Plain ps) -> h !! l = Some ol ->
    forM keys (fun key => do v <- get_prop (VRef l) key ;
                          set_prop (VRef b) key v)
         (mkWorld h now tr ls id) =
    (mkWorld
       (<[b := mkObj None Plain
                 (merge_into (map (fun key => (PStr key, own_value ol key)) keys)
                             ps)]> h)
       now tr ls id,
     Ok tt).
Proof.
  intros Hlb. induction keys as [|key keys IH]; intros Hkeys ps h Hb Hl.
  - cbn. now rewrite list_insert_id.
  - cbn [forM map merge_into fold_left fst snd].
    fold (merge_into (map (fun key => (PStr key, own_value ol key)) keys)
            (own_set key (own_value ol key) ps)).
    assert (Hblt : b < length h) by (eapply lookup_lt_Some; eauto).
    erewrite bind_run.
    2: { erewrite bind_run by (apply run_get; reflexivity).
         cbn [w_heap read].
         rewrite (hget_own_key h l ol key Hl) by (apply Hkeys; now left).
         unfold set_prop, set_heap, hset. cbn [w_heap w_now w_trace w_listeners w_next_id].
         rewrite Hb. reflexivity. }
    cbn [with_props proto kind props].
    rewrite (IH (fun k Hk => Hkeys k (or_intror Hk))
                (own_set key (own_value ol key) ps)).
    + now rewrite list_insert_insert_eq.
    + now apply list_lookup_insert_eq.
    + rewrite list_lookup_insert_ne by congruence. exact Hl.
Qed.

Lemma assigned_pairs (f : string -> value) k keys :
  assigned (PStr k) (map (fun key => (PStr key, f key)) keys) =
  if bool_decide (k ∈ keys) then Some (f k) else None.
Proof.
  unfold assigned. induction keys as [|key keys IH].
  - rewrite bool_decide_eq_false_2 by apply not_elem_of_nil. reflexivity.
  - cbn [map rev]. rewrite own_get_app, IH.
    destruct (bool_decide (k ∈ keys)) eqn:E.
    + apply bool_decide_eq_true in E.
      rewrite bool_decide_eq_true_2 by (now apply list_elem_of_further).
      reflexivity.
    + apply bool_decide_eq_false in E. cbn [own_get pkey_eqb].
      destruct (String.eqb k key) eqn:Ek.
      * apply String.eqb_eq in Ek as ->.
        rewrite bool_decide_eq_true_2 by apply list_elem_of_here. reflexivity.
      * apply String.eqb_neq in Ek.
        rewrite bool_decide_eq_false_2; [reflexivity|].
        rewrite elem_of_cons. tauto.
Qed.

Lemma locals_ready_read h a b ps :
  locals_ready h a b ps -> hget h a LOCALS = VRef b.
Proof.
  intros (oa & Ha & Hk & Hslot & Hb & Hab).
  eapply hget_own; [exact Ha|]. now rewrite own_lookup_plain.
Qed.

Lemma run_get_locals_ready w a b ps :
  locals_ready (w_heap w) a b ps ->
  init_locals (VRef a) w = (w, Ok tt) /\
  get_locals (VRef a) w = (w, Ok (VRef b)).
Proof.
  intros Hready.
  pose proof (locals_ready_read _ _ _ _ Hready) as Hread.
  assert (Hinit : init_locals (VRef a) w = (w, Ok tt)).
  { unfold init_locals. erewrite bind_run by (apply run_get; reflexivity).
    cbn [read]. now rewrite Hread. }
  split; [exact Hinit|]. unfold get_locals.
  erewrite bind_run by exact Hinit. rewrite run_get by reflexivity.
  cbn [read]. now rewrite Hread.
Qed.

Lemma run_set_locals w a b ps l ol :
  locals_ready (w_heap w) a b ps ->
  w_heap w !! l = Some ol -> l <> b -> is_array ol = false ->
  let h' := <[b := mkObj None Plain (merge_into (own_pairs ol) ps)]> (w_heap w) in
  set_locals (VRef a) (VRef l) w = (set_heap w h', Ok VUndef) /\
  locals_ready h' a b (merge_into (own_pairs ol) ps).
Proof.
  intros Hready Hl Hlb Harr h'.
  destruct (run_get_locals_ready w a b ps Hready) as [Hinit Hget].
  destruct Hready as (oa & Ha & Hk & Hslot & Hb & Hab).
  assert (Hblt : b < length (w_heap w)) by (eapply lookup_lt_Some; eauto).
  split.
  - unfold set_locals. erewrite bind_run by exact Hinit.
    erewrite bind_run.
    2: { rewrite run_get by reflexivity. cbn [read].
         erewrite hget_own; [reflexivity|exact Ha|].
         rewrite own_lookup_plain by exact Hk. exact Hslot. }
    erewrite bind_run; [reflexivity|].
    unfold utility_assign.
    erewrite bind_run.
    2: { cbn [hkind]. rewrite Hl. cbn [fmap option_fmap option_map].
         unfold is_array in Harr. destruct (kind ol); try discriminate;
           reflexivity. }
    cbn [forM]. erewrite bind_run; [reflexivity|].
    erewrite bind_run; [reflexivity|].
    unfold assign_one. cbn [truthy]. unfold Object_keys at 1.
    erewrite bind_run by (cbn [nullish]; rewrite Hl; reflexivity).
    destruct w as [h now tr ls id]. cbn [w_heap] in *.
    erewrite run_assign_keys; eauto.
  - exists oa. subst h'.
    rewrite list_lookup_insert_ne by congruence.
    rewrite list_lookup_insert_eq by assumption. auto.
Qed.

Lemma run_init_locals w a oa :
  w_heap w !! a = Some oa -> kind oa = Plain ->
  truthy (hget (w_heap w) a LOCALS) = false ->
  let b := length (w_heap w) in
  let h' := hset (w_heap w ++ [mkObj None Plain []]) a LOCALS (VRef b) in
  init_locals (VRef a) w = (set_heap w h', Ok tt) /\
  locals_ready h' a b [] /\
  get_locals (VRef a) w = (set_heap w h', Ok (VRef b)).
Proof.
  intros Ha Hk Ht b h'.
  assert (Hlt : a < length (w_heap w)) by (eapply lookup_lt_Some; eauto).
  assert (Hinit : init_locals (VRef a) w = (set_heap w h', Ok tt)).
  { unfold init_locals. erewrite bind_run by (apply run_get; reflexivity).
    cbn [read]. rewrite Ht. unfold new_object.
    erewrite bind_run by reflexivity. reflexivity. }
  assert (Hready : locals_ready h' a b []).
  { exists (with_props oa (own_set LOCALS (VRef b) (props oa))).
    unfold h', hset. rewrite lookup_app_l, Ha by assumption.
    repeat split.
    - apply list_lookup_insert_eq. rewrite length_app. lia.
    - exact Hk.
    - apply own_get_set_eq.
    - rewrite list_lookup_insert_ne by (unfold b; lia). apply lookup_fresh0.
    - unfold b. lia. }
  split; [exact Hinit|]. split; [exact Hready|].
  unfold get_locals. erewrite bind_run by exact Hinit.
  rewrite run_get by reflexivity. cbn [w_heap set_heap read].
  now rewrite (locals_ready_read _ _ _ _ Hready).
Qed.

Lemma enumerable_own_plain o : kind o = Plain -> enumerable_own o = props o.
Proof. unfold enumerable_own. now intros ->. Qed.

Lemma own_pairs_read o ps k :
  kind o = Plain ->
  default VUndef (own_get (PStr k) (merge_into (own_pairs o) ps)) =
  match own_get (PStr k) (props o) with
  | Some v => v
  | None => default VUndef (own_get (PStr k) ps)
  end.
Proof.
  intros Hk. rewrite own_get_merge_into. unfold own_pairs.
  rewrite assigned_pairs. unfold own_value.
  rewrite (enumerable_own_plain o Hk).
  case_bool_decide as Hin; rewrite string_keys_own_get in Hin.
  - now destruct Hin as [v ->].
  - destruct (own_get (PStr k) (props o)) as [v|] eqn:E; [|reflexivity].
    now destruct Hin.
Qed.

(** C10: assigning to [app.locals] merges into the bag.  After
    [app.locals = x] a key of the bag reads what [x] holds for it if [x] has
    the key, else what the bag held before; after [app.locals = y] on top of
    that it reads what [y] holds if [y] has the key, else what it read
    before, so a key of [x] that [y] does not have still reads the value of
    [x].  The getter returns the same bag before, between and after the
    assignments.  On an application whose locals were never touched the
    getter makes an empty bag, stores it and returns it, and the next access
    returns that bag. *)
Theorem locals_merge w a b ps lx ly ox oy :
  locals_ready (w_heap w) a b ps ->
  w_heap w !! lx = Some ox -> w_heap w !! ly = Some oy ->
  lx <> b -> ly <> b ->
  kind ox = Plain -> kind oy = Plain ->
  let app := VRef a in
  (exists w1 w2,
     set_locals app (VRef lx) w = (w1, Ok VUndef) /\
     set_locals app (VRef ly) w1 = (w2, Ok VUndef) /\
     get_locals app w = (w, Ok (VRef b)) /\
     get_locals app w1 = (w1, Ok (VRef b)) /\
     get_locals app w2 = (w2, Ok (VRef b)) /\
     (forall k,
        read (w_heap w1) (VRef b) (PStr k) =
        match own_get (PStr k) (props ox) with
        | Some v => v
        | None => default VUndef (own_get (PStr k) ps)
        end) /\
     (forall k,
        read (w_heap w2) (VRef b) (PStr k) =
        match own_get (PStr k) (props oy) with
        | Some v => v
        | None => read (w_heap w1) (VRef b) (PStr k)
        end) /\
     (forall k v,
        own_get (PStr k) (props ox) = Some v ->
        own_get (PStr k) (props oy) = None ->
        read (w_heap w2) (VRef b) (PStr k) = v)) /\
  (forall w0 oa,
     w_heap w0 !! a = Some oa -> kind oa = Plain ->
     truthy (hget (w_heap w0) a LOCALS) = false ->
     exists w',
       get_locals app w0 = (w', Ok (VRef (length (w_heap w0)))) /\
       locals_ready (w_heap w') a (length (w_heap w0)) [] /\
       get_locals app w' = (w', Ok (VRef (length (w_heap w0))))).
Proof.
  intros Hready Hx Hy Hxb Hyb Hkx Hky app.
  assert (Hax : is_array ox = false) by (unfold is_array; now rewrite Hkx).
  assert (Hay : is_array oy = false) by (unfold is_array; now rewrite Hky).
  split.
  - destruct (run_set_locals w a b ps lx ox Hready Hx Hxb Hax) as [Hrun1 Hready1].
    set (h1 := <[b := mkObj None Plain (merge_into (own_pairs ox) ps)]> (w_heap w))
      in *.
    assert (Hy1 : w_heap (set_heap w h1) !! ly = Some oy).
    { cbn [w_heap set_heap]. unfold h1.
      rewrite list_lookup_insert_ne by congruence. exact Hy. }
    destruct (run_set_locals (set_heap w h1) a b _ ly oy Hready1 Hy1 Hyb Hay)
      as [Hrun2 Hready2].
    cbn [w_heap set_heap] in Hrun2, Hready2.
    set (h2 := <[b := mkObj None Plain
                        (merge_into (own_pairs oy)
                           (merge_into (own_pairs ox) ps))]> h1) in *.
    assert (Hread1 : forall k,
              hget h1 b (PStr k) =
              match own_get (PStr k) (props ox) with
              | Some v => v
              | None => default VUndef (own_get (PStr k) ps)
              end).
    { intros k. destruct Hready1 as (_ & _ & _ & _ & Hbag & _).
      rewrite (hget_plain_root _ _ _ _ Hbag). now apply own_pairs_read. }
    assert (Hread2 : forall k,
              hget h2 b (PStr k) =
              match own_get (PStr k) (props oy) with
              | Some v => v
              | None => hget h1 b (PStr k)
              end).
    { intros k. destruct Hready2 as (_ & _ & _ & _ & Hbag & _).
      rewrite (hget_plain_root _ _ _ _ Hbag), (own_pairs_read oy _ k Hky).
      destruct (own_get (PStr k) (props oy)); [reflexivity|].
      now rewrite Hread1, <- (own_pairs_read ox ps k Hkx). }
    exists (set_heap w h1), (set_heap (set_heap w h1) h2).
    split; [exact Hrun1|]. split; [exact Hrun2|].
    split; [now apply (run_get_locals_ready w a b ps)|].
    split; [now apply (run_get_locals_ready (set_heap w h1) a b _ Hready1)|].
    split; [now apply
              (run_get_locals_ready (set_heap (set_heap w h1) h2) a b _ Hready2)|].
    cbn [w_heap set_heap read].
    split; [exact Hread1|]. split; [exact Hread2|].
    intros k v Hvx Hvy. now rewrite Hread2, Hvy, Hread1, Hvx.
  - intros w0 oa Ha Hk Ht.
    destruct (run_init_locals w0 a oa Ha Hk Ht) as (_ & Hready0 & Hget).
    eexists. split; [exact Hget|]. split; [exact Hready0|].
    now apply (run_get_locals_ready (set_heap w0 _) a _ [] Hready0).
Qed.

Lemma locals_merge_witness :
  let w := mkWorld sample_locals_ready_heap 0 [] [] 0 in
  let app := VRef 0 in
  (exists w1 w2,
     set_locals app (VRef 1) w = (w1, Ok VUndef) /\
     set_locals app (VRef 2) w1 = (w2, Ok VUndef) /\
     get_locals app w = (w, Ok (VRef 3)) /\
     get_locals app w1 = (w1, Ok (VRef 3)) /\
     get_locals app w2 = (w2, Ok (VRef 3)) /\
     read (w_heap w1) (VRef 3) "title" = VStr "egg" /\
     read (w_heap w1) (VRef 3) "lang" = VStr "en" /\
     read (w_heap w2) (VRef 3) "title" = VStr "egg" /\
     read (w_heap w2) (VRef 3) "lang" = VStr "fr") /\
  (forall w0 oa,
     w_heap w0 !! 0 = Some oa -> kind oa = Plain ->
     truthy (hget (w_heap w0) 0 LOCALS) = false ->
     exists w',
       get_locals app w0 = (w', Ok (VRef (length (w_heap w0)))) /\
       locals_ready (w_heap w') 0 (length (w_heap w0)) [] /\
       get_locals app w' = (w', Ok (VRef (length (w_heap w0))))).
Proof.
  intros w app.
  destruct (locals_merge w 0 3 [] 1 2
              (mkObj None Plain [(PStr "title", VStr "egg"); (PStr "lang", VStr "en")])
              (mkObj None Plain [(PStr "lang", VStr "fr")]))
    as [(w1 & w2 & Hs1 & Hs2 & Hg & Hg1 & Hg2 & Hr1 & Hr2 & Hkeep) Hfirst];
    [ exists (mkObj None Plain [(PStr "name", VStr "demo"); (LOCALS, VRef 3)]);
      repeat split; lia
    | reflexivity | reflexivity | lia | lia | reflexivity | reflexivity | ].
  split; [|exact Hfirst].
  exists w1, w2. repeat (split; [assumption|]).
  split; [exact (Hr1 "title")|]. split; [exact (Hr1 "lang")|].
  split; [exact (Hkeep "title" (VStr "egg") eq_refl eq_refl)|].
  exact (Hr2 "lang").
Defined.

(** On the sample, starting from untouched locals: [title] comes from the
    first object, [lang] from the second, and all accesses return the bag
    the first assignment made. *)
Example locals_sample :
  let w0 := mkWorld sample_locals_heap 0 [] [] 0 in
  let w1 := fst (set_locals (VRef 0) (VRef 1) w0) in
  let w2 := fst (set_locals (VRef 0) (VRef 2) w1) in
  snd (get_locals (VRef 0) w1) = Ok (VRef 3) /\
  snd (get_locals (VRef 0) w2) = Ok (VRef 3) /\
  read (w_heap w2) (VRef 3) "title" = VStr "egg" /\
  read (w_heap w2) (VRef 3) "lang" = VStr "fr" /\
  read (w_heap w1) (VRef 3) "lang" = VStr "en".
Proof. vm_compute. repeat split. Qed.

(** ** Running [dumpConfig] *)

Lemma array_elems_inv h v es :
  array_elems h v = Some es ->
  exists l o, v = VRef l /\ h !! l = Some o /\ kind o = Arr es.
Proof.
  unfold array_elems, hkind. destruct v; try discriminate.
  destruct (h !! l) as [o|] eqn:Hl; [|discriminate]. cbn.
  destruct (kind o) eqn:Hk; try discriminate. intros [= ->]. eauto.
Qed.

Lemma regexp_text_inv h v text :
  regexp_text h v = Some text ->
  exists l o, v = VRef l /\ h !! l = Some o /\ kind o = RegExp text.
Proof.
  unfold regexp_text, hkind. destruct v; try discriminate.
  destruct (h !! l) as [o|] eqn:Hl; [|discriminate]. cbn.
  destruct (kind o) eqn:Hk; try discriminate. intros [= ->]. eauto.
Qed.

Lemma run_handler_id h t now tr ls id key s :
  proto_wf h -> nullish s = false -> value_closed (length h) s = true ->
  handler_id key s (mkWorld (h ++ t) now tr ls id) =
  (mkWorld (h ++ t) now tr ls id, Ok (handler_name h key s)).
Proof.
  intros Hwf Hs Hcl. unfold handler_id, handler_name.
  erewrite bind_run by (now apply run_get_old).
  destruct (truthy (read h s key)); [reflexivity|].
  erewrite bind_run by (now apply run_get_old).
  destruct (truthy (read h s "_name")); [reflexivity|].
  erewrite bind_run by (now apply run_get_old).
  now destruct (truthy (read h s "name")).
Qed.

Lemma run_handler_ids `{Platform} h t now tr ls id fp hs :
  proto_wf h ->
  forallb (fun s => negb (nullish s) && value_closed (length h) s) hs = true ->
  mapM hs (fun s => do key <- to_pkey (VSym fp) ; handler_id key s)
       (mkWorld (h ++ t) now tr ls id) =
  (mkWorld (h ++ t) now tr ls id, Ok (map (handler_name h (PSym fp)) hs)).
Proof.
  intros Hwf. induction hs as [|s hs IH]; intros Hall; [reflexivity|].
  cbn [forallb] in Hall. apply andb_true_iff in Hall as [Hs Hall].
  apply andb_true_iff in Hs as [Hs Hcl]. apply negb_true_iff in Hs.
  cbn [mapM map to_pkey].
  erewrite bind_run.
  2: { rewrite bind_ret. now apply run_handler_id. }
  erewrite bind_run by (now apply IH). reflexivity.
Qed.

Lemma layer_ok_inv h layer :
  layer_ok h layer = true ->
  nullish layer = false /\ value_closed (length h) layer = true /\
  exists text hs,
    regexp_text h (read h layer "regexp") = Some text /\
    array_elems h (read h layer "stack") = Some hs /\
    forallb (fun s => negb (nullish s) && value_closed (length h) s) hs = true.
Proof.
  unfold layer_ok. intros H.
  apply andb_true_iff in H as [H Hrest]. apply andb_true_iff in H as [Hn Hc].
  apply negb_true_iff in Hn. split; [exact Hn|]. split; [exact Hc|].
  destruct (regexp_text h (read h layer "regexp")) as [text|]; [|discriminate].
  destruct (array_elems h (read h layer "stack")) as [hs|]; [|discriminate].
  eauto.
Qed.

Lemma insert_fresh0 (h t : heap) o x :
  <[length h := x]> (h ++ o :: t) = h ++ x :: t.
Proof.
  rewrite insert_app_r_alt by lia. now rewrite Nat.sub_diag.
Qed.

Lemma run_dump_layer `{Platform} h now tr ls id fp es rest k layer :
  proto_wf h -> layer_ok h layer = true -> length rest = 2 * k ->
  dump_layer (VSym fp) (VRef (length h)) layer
    (mkWorld (h ++ (mkObj None (Arr es) [] :: rest)) now tr ls id) =
  (mkWorld
     (h ++ (mkObj None (Arr (es ++ [VRef (length h + 2 + 2 * k)])) []
            :: rest ++ [ layer_stack h (PSym fp) layer;
                         layer_entry h layer (VRef (length h + 1 + 2 * k)) ]))
     now tr ls id,
   Ok tt).
Proof.
  intros Hwf Hok Hlen.
  destruct (layer_ok_inv h layer Hok)
    as (Hn & Hc & text & hs & Hre & Hst & Hall).
  destruct (regexp_text_inv _ _ _ Hre) as (r & or & Hrv & Hr & Hrk).
  destruct (array_elems_inv _ _ _ Hst) as (s & os & Hsv & Hs & Hsk).
  unfold dump_layer, layer_stack, layer_entry. rewrite Hre, Hst.
  cbn [default].
  do 5 (erewrite bind_run by (now apply run_get_old)).
  rewrite Hrv. unfold toString_call, ToString.
  erewrite bind_run.
  2: { erewrite bind_run; [reflexivity|]. cbn [w_heap].
       rewrite lookup_app_l by (eapply lookup_lt_Some; eauto).
       rewrite Hr. cbn [fmap option_fmap option_map]. rewrite Hrk.
       reflexivity. }
  erewrite bind_run by (now apply run_get_old).
  rewrite Hsv. unfold Array_map.
  erewrite bind_run.
  2: { erewrite bind_run; [|reflexivity]. cbn [w_heap].
       rewrite lookup_app_l by (eapply lookup_lt_Some; eauto).
       rewrite Hs. cbn [fmap option_fmap option_map]. rewrite Hsk.
       erewrite bind_run by (now apply run_handler_ids).
       apply run_alloc. }
  unfold new_object. erewrite bind_run by apply run_alloc.
  unfold Array_push. cbn [w_heap].
  rewrite lookup_fresh0. cbn [lookup list_lookup List.app kind].
  unfold set_heap, with_kind.
  cbn [w_heap w_now w_trace w_listeners w_next_id proto props].
  rewrite insert_fresh0, <- app_assoc. cbn [List.app length].
  rewrite length_app. cbn [length]. unfold Datatypes.id. rewrite Hlen.
  replace (length h + S (2 * k + 1)) with (length h + 2 + 2 * k) by lia.
  replace (length h + S (2 * k)) with (length h + 1 + 2 * k) by lia.
  reflexivity.
Qed.

Lemma run_dump_layers `{Platform} h now tr ls id fp layers :
  proto_wf h -> forallb (layer_ok h) layers = true ->
  forall k es rest,
    length rest = 2 * k ->
    forM layers (dump_layer (VSym fp) (VRef (length h)))
      (mkWorld (h ++ (mkObj None (Arr es) [] :: rest)) now tr ls id) =
    (mkWorld
       (h ++ (mkObj None (Arr (es ++ snapshot_refs (length h) k layers)) []
              :: rest ++ snapshot_objs h (PSym fp) (length h) k layers))
       now tr ls id,
     Ok tt).
Proof.
  intros Hwf. induction layers as [|layer layers IH]; intros Hall k es rest Hlen.
  - cbn. now rewrite !app_nil_r.
  - cbn [forallb] in Hall. apply andb_true_iff in Hall as [Hok Hall].
    cbn [forM snapshot_refs snapshot_objs].
    erewrite bind_run
      by (eapply run_dump_layer; [exact Hwf|exact Hok|exact Hlen]).
    rewrite (IH Hall (S k)) by (rewrite length_app; cbn [length]; lia).
    now rewrite <- !app_assoc.
Qed.

Lemma run_dump_routers `{Platform} w a d fp layers :
  let h := w_heap w in
  let app := VRef a in
  let h' := h ++ router_snapshot h (PSym fp) layers in
  let file := path_join [d; "router.json"] in
  proto_wf h -> heap_closed h -> a < length h ->
  nullish (read h app "router") = false ->
  array_elems h (read h (read h app "router") "stack") = Some layers ->
  forallb (layer_ok h) layers = true ->
  dump_routers app (VStr d) (VSym fp) w =
  match JSON_stringify h' (VRef (length h)) with
  | Ok text =>
      match fs_writeFileSync file text with
      | None => (add_events (set_heap w h') [EvWriteFile file text], Ok tt)
      | Some e => (set_heap w h', Throw e)
      end
  | Throw e => (set_heap w h', Throw e)
  end.
Proof.
  intros h app h' file Hwf Hcl Ha Hrouter Hlayers Hall.
  destruct (array_elems_inv _ _ _ Hlayers) as (s & os & Hsv & Hs & Hsk).
  destruct w as [h0 now tr ls id]. cbn [w_heap] in *. subst h.
  unfold dump_routers, path_join_call. cbn [strings_of fmap option_fmap option_map].
  rewrite bind_ret.
  replace (mkWorld h0 now tr ls id) with (mkWorld (h0 ++ []) now tr ls id)
    by now rewrite app_nil_r.
  erewrite bind_run by apply run_alloc. cbn [List.app length].
  rewrite Nat.add_0_r.
  erewrite bind_run
    by (apply run_get_old; [assumption|reflexivity|now apply Nat.ltb_lt]).
  erewrite bind_run
    by (apply run_get_old; [assumption|assumption|now apply read_closed]).
  fold app. rewrite Hsv. unfold iterate.
  erewrite bind_run.
  2: { cbn [w_heap]. rewrite lookup_app_l by (eapply lookup_lt_Some; eauto).
       rewrite Hs. cbn [fmap option_fmap option_map]. rewrite Hsk.
       reflexivity. }
  erewrite bind_run by (now apply (run_dump_layers h0 now tr ls id fp layers
                                     Hwf Hall 0 [] [])).
  cbn [List.app]. unfold lift_outcome, h', router_snapshot, file.
  unfold bindM. cbn [w_heap].
  destruct (JSON_stringify _ _) as [text|e]; [|reflexivity].
  unfold writeFileSync. destruct (fs_writeFileSync _ text); reflexivity.
Qed.

Lemma snapshot_refs_length n layers : forall k,
  length (snapshot_refs n k layers) = length layers.
Proof.
  induction layers as [|l layers IH]; intros k; [reflexivity|].
  cbn. now rewrite IH.
Qed.

Lemma snapshot_refs_lookup n layers : forall k i (layer : value),
  layers !! i = Some layer ->
  snapshot_refs n k layers !! i = Some (VRef (n + 2 + 2 * (k + i))).
Proof.
  induction layers as [|l layers IH]; intros k i layer Hi; [discriminate|].
  destruct i as [|i]; cbn [snapshot_refs].
  - cbn. do 2 f_equal. lia.
  - etrans; [apply (IH (S k) i layer Hi)|]. do 2 f_equal. lia.
Qed.

Lemma snapshot_objs_lookup h fp n layers : forall k i (layer : value),
  layers !! i = Some layer ->
  snapshot_objs h fp n k layers !! (2 * i) = Some (layer_stack h fp layer) /\
  snapshot_objs h fp n k layers !! (2 * i + 1) =
    Some (layer_entry h layer (VRef (n + 1 + 2 * (k + i)))).
Proof.
  induction layers as [|l layers IH]; intros k i layer Hi; [discriminate|].
  destruct i as [|i].
  - injection Hi as ->. cbn. split; [reflexivity|]. do 3 f_equal. lia.
  - cbn in Hi. destruct (IH (S k) i layer Hi) as [H1 H2].
    replace (2 * S i) with (S (S (2 * i))) by lia.
    replace (S (S (2 * i)) + 1) with (S (S (2 * i + 1))) by lia.
    cbn [snapshot_objs]. split; [exact H1|].
    etrans; [exact H2|]. do 3 f_equal. lia.
Qed.

Lemma ToString_pure `{Platform} v w : (ToString v w).1 = w.
Proof.
  destruct v; try reflexivity.
  - now destruct b.
  - cbn. now destruct (kind <$> w_heap w !! l) as [[]|].
Qed.

Lemma caught_message_pure `{Platform} e w : (caught_message e w).1 = w.
Proof.
  destruct e as [name msg|v]; [reflexivity|].
  unfold caught_message, bindM, get_prop.
  destruct (nullish v); [reflexivity|]. apply ToString_pure.
Qed.

Lemma run_caught_message `{Platform} e w :
  caught_message e w = (w, (caught_message e w).2).
Proof.
  rewrite <- (caught_message_pure e w) at 2. now destruct (caught_message e w).
Qed.

Lemma run_dumpConfig `{Platform} `{Framework} w w1 a c lo fl :
  super_dumpConfig (VRef a) w = (w1, Ok tt) ->
  let h := w_heap w1 in
  hget h a "config" = VRef c -> hget h a "loader" = VRef lo ->
  hget h lo "FileLoader" = VRef fl ->
  dumpConfig (VRef a) w =
  match dump_routers (VRef a) (hget h c "rundir") (hget h fl "FULLPATH") w1 with
  | (w2, Ok _) => (w2, Ok VUndef)
  | (w2, Throw e) =>
      match (caught_message e w2).2 with
      | Ok msg => (add_events w2 [router_warning msg], Ok VUndef)
      | Throw e' => (w2, Throw e')
      end
  end.
Proof.
  intros Hsuper h Hc Hlo Hfl. unfold dumpConfig.
  erewrite bind_run by exact Hsuper.
  erewrite bind_run by (eapply run_config_of; exact Hc).
  erewrite bind_run by (apply run_get; reflexivity).
  cbn [read]. fold h. rewrite Hlo.
  erewrite bind_run by (apply run_get; reflexivity).
  cbn [read]. fold h. rewrite Hfl.
  erewrite bind_run by (apply run_get; reflexivity).
  cbn [read]. fold h.
  unfold bindM at 1, try_catch.
  destruct (dump_routers _ _ _ w1) as [w2 [[]|e]]; [reflexivity|].
  unfold bindM at 1. rewrite (run_caught_message e w2).
  now destruct (caught_message e w2).2.
Qed.

(** C7: [dumpConfig] and the router snapshot.  Once the superclass has
    dumped the configuration and [config] and [loader.FileLoader] are read,
    a failure while the snapshot is built or written that throws an error
    object, or any value other than [undefined] and [null] whose [message]
    is a string, ends as one warning with that message and [dumpConfig]
    returns.  For a router whose layers are well formed the snapshot is an
    array with one element per layer, in order; each element carries the
    layer's [name], [methods], [paramNames] and [path], the text of its
    [regexp] and a new array of the identifiers of its handlers; when
    serialization and the write succeed, the text is written to
    [router.json] in [config.rundir], and when either of them fails with an
    error object the warning is logged instead. *)
Theorem dumpConfig_router_snapshot `{Platform} `{Framework} w w1 a c lo fl :
  super_dumpConfig (VRef a) w = (w1, Ok tt) ->
  let h := w_heap w1 in
  let app := VRef a in
  let rundir := hget h c "rundir" in
  let FULLPATH := hget h fl "FULLPATH" in
  proto_wf h -> heap_closed h -> a < length h ->
  hget h a "config" = VRef c -> hget h a "loader" = VRef lo ->
  hget h lo "FileLoader" = VRef fl ->
  ((forall w2,
      dump_routers app rundir FULLPATH w1 = (w2, Ok tt) ->
      dumpConfig app w = (w2, Ok VUndef)) /\
   (forall w2 name msg,
      dump_routers app rundir FULLPATH w1 = (w2, Throw (mkErr name msg)) ->
      dumpConfig app w = (add_events w2 [router_warning msg], Ok VUndef)) /\
   (forall w2 v msg,
      dump_routers app rundir FULLPATH w1 = (w2, Throw (Thrown v)) ->
      nullish v = false -> read (w_heap w2) v "message" = VStr msg ->
      dumpConfig app w = (add_events w2 [router_warning msg], Ok VUndef)) /\
   (forall w2 e msg,
      dump_routers app rundir FULLPATH w1 = (w2, Throw e) ->
      caught_message e w2 = (w2, Ok msg) ->
      dumpConfig app w = (add_events w2 [router_warning msg], Ok VUndef))) /\
  (forall d fp layers,
     rundir = VStr d -> FULLPATH = VSym fp ->
     nullish (read h app "router") = false ->
     array_elems h (read h (read h app "router") "stack") = Some layers ->
     forallb (layer_ok h) layers = true ->
     let h' := h ++ router_snapshot h (PSym fp) layers in
     let file := path_join [d; "router.json"] in
     (forall text,
        JSON_stringify h' (VRef (length h)) = Ok text ->
        fs_writeFileSync file text = None ->
        dumpConfig app w =
        (add_events (set_heap w1 h') [EvWriteFile file text], Ok VUndef)) /\
     (forall name msg,
        JSON_stringify h' (VRef (length h)) = Throw (mkErr name msg) ->
        dumpConfig app w =
        (add_events (set_heap w1 h') [router_warning msg], Ok VUndef)) /\
     (forall text name msg,
        JSON_stringify h' (VRef (length h)) = Ok text ->
        fs_writeFileSync file text = Some (mkErr name msg) ->
        dumpConfig app w =
        (add_events (set_heap w1 h') [router_warning msg], Ok VUndef)) /\
     array_elems h' (VRef (length h)) =
       Some (snapshot_refs (length h) 0 layers) /\
     length (snapshot_refs (length h) 0 layers) = length layers /\
     (forall i layer,
        layers !! i = Some layer ->
        snapshot_refs (length h) 0 layers !! i =
          Some (VRef (length h + 2 + 2 * i)) /\
        h' !! (length h + 2 + 2 * i) =
          Some (layer_entry h layer (VRef (length h + 1 + 2 * i))) /\
        h' !! (length h + 1 + 2 * i) = Some (layer_stack h (PSym fp) layer))).
Proof.
  intros Hsuper h app rundir FULLPATH Hwf Hcl Ha Hc Hlo Hfl.
  pose proof (run_dumpConfig w w1 a c lo fl Hsuper Hc Hlo Hfl) as Hrun.
  cbn zeta in Hrun. fold h app rundir FULLPATH in Hrun.
  assert (Hcaught : forall w2 e msg,
            dump_routers app rundir FULLPATH w1 = (w2, Throw e) ->
            caught_message e w2 = (w2, Ok msg) ->
            dumpConfig app w = (add_events w2 [router_warning msg], Ok VUndef)).
  { intros w2 e msg Hd Hmsg. rewrite Hrun, Hd. now rewrite Hmsg. }
  split; [split; [|split; [|split]]|].
  - intros w2 Hd. now rewrite Hrun, Hd.
  - intros w2 name msg Hd. now apply (Hcaught w2 (mkErr name msg)).
  - intros w2 v msg Hd Hv Hmsg. apply (Hcaught w2 (Thrown v)); [exact Hd|].
    unfold caught_message, bindM, get_prop. now rewrite Hv, Hmsg.
  - exact Hcaught.
  - intros d fp layers Hd Hfp Hrouter Hlayers Hall h' file.
    pose proof (run_dump_routers w1 a d fp layers) as Hdump.
    cbn zeta in Hdump. fold h h' file app in Hdump.
    specialize (Hdump Hwf Hcl Ha Hrouter Hlayers Hall).
    rewrite <- Hd, <- Hfp in Hdump.
    split; [|split; [|split; [|split; [|split]]]].
    + intros text Hjson Hfs. rewrite Hrun, Hdump. now rewrite Hjson, Hfs.
    + intros name msg Hjson. apply (Hcaught _ (mkErr name msg)); [|reflexivity].
      rewrite Hdump. now rewrite Hjson.
    + intros text name msg Hjson Hfs.
      apply (Hcaught _ (mkErr name msg)); [|reflexivity].
      rewrite Hdump. now rewrite Hjson, Hfs.
    + unfold array_elems, hkind, h', router_snapshot.
      now rewrite lookup_fresh0.
    + apply snapshot_refs_length.
    + intros i layer Hi.
      destruct (snapshot_objs_lookup h (PSym fp) (length h) layers 0 i layer Hi)
        as [Hst Hen].
      split; [apply (snapshot_refs_lookup _ _ 0 i layer Hi)|].
      unfold h', router_snapshot. split.
      * replace (length h + 2 + 2 * i) with (length h + S (2 * i + 1)) by lia.
        rewrite lookup_fresh. exact Hen.
      * replace (length h + 1 + 2 * i) with (length h + S (2 * i)) by lia.
        rewrite lookup_fresh. exact Hst.
Qed.

Lemma dumpConfig_router_snapshot_witness :
  let h := sample_router_heap in
  let h' := h ++ router_snapshot h (PSym "EGG_LOADER_ITEM_FULLPATH") [VRef 6] in
  let w1 := add_events sample_router_world [EvSuperDumpConfig] in
  @dumpConfig sample_platform sample_framework (VRef 17) sample_router_world =
    (add_events (set_heap w1 h')
       [EvWriteFile "/srv/app/run/router.json" "<json>"],
     Ok VUndef) /\
  @dumpConfig readonly_platform sample_framework (VRef 17) sample_router_world =
    (add_events (set_heap w1 h') [router_warning "EACCES: permission denied"],
     Ok VUndef) /\
  array_elems h' (VRef 18) = Some [VRef 20] /\
  h' !! 20 = Some (layer_entry h (VRef 6) (VRef 19)) /\
  h' !! 19 =
    Some (mkObj None
            (Arr [ VStr "/srv/app/app/controller/home.js#index()";
                   VStr "anonymous" ]) []).
Proof.
  intros h h' w1.
  destruct (@dumpConfig_router_snapshot sample_platform sample_framework
              sample_router_world w1 17 11 10 9)
    as [_ Hsnapshot];
    [ reflexivity | reflexivity | reflexivity | vm_compute; lia
    | reflexivity | reflexivity | reflexivity | ].
  destruct (Hsnapshot "/srv/app/run" "EGG_LOADER_ITEM_FULLPATH" [VRef 6])
    as (Hwrite & _ & _ & Harr & _ & Hlayers);
    [ reflexivity | reflexivity | reflexivity | reflexivity | reflexivity | ].
  destruct (@dumpConfig_router_snapshot readonly_platform sample_framework
              sample_router_world w1 17 11 10 9)
    as [_ Hreadonly];
    [ reflexivity | reflexivity | reflexivity | vm_compute; lia
    | reflexivity | reflexivity | reflexivity | ].
  destruct (Hreadonly "/srv/app/run" "EGG_LOADER_ITEM_FULLPATH" [VRef 6])
    as (_ & _ & Hfails & _);
    [ reflexivity | reflexivity | reflexivity | reflexivity | reflexivity | ].
  destruct (Hlayers 0 (VRef 6) eq_refl) as (_ & Hentry & Hstack).
  split; [exact (Hwrite "<json>" eq_refl eq_refl)|].
  split; [exact (Hfails "<json>" "Error" "EACCES: permission denied"
                   eq_refl eq_refl)|].
  split; [exact Harr|]. split; [exact Hentry|exact Hstack].
Defined.

(** The claim without the restriction to error objects fails: on a platform
    where the [regexp] of the layer answers [toString] by throwing [null],
    the snapshot fails while it is built, the [catch] clause fails in its
    turn when it reads the [message] of [null], and [dumpConfig] throws a
    [TypeError] without a warning. *)
Lemma dumpConfig_failure_propagates :
  (exists w2,
     @dump_routers throwing_platform (VRef 17) (VStr "/srv/app/run")
       (VSym "EGG_LOADER_ITEM_FULLPATH")
       (add_events sample_throwing_world [EvSuperDumpConfig]) =
     (w2, Throw (Thrown VNull))) /\
  (exists w',
     @dumpConfig throwing_platform sample_framework (VRef 17)
       sample_throwing_world =
     (w', Throw (TypeError "Cannot read property of undefined or null")) /\
     w_trace w' = [EvSuperDumpConfig]) /\
  ~ (exists w' v,
       @dumpConfig throwing_platform sample_framework (VRef 17)
         sample_throwing_world = (w', Ok v)).
Proof.
  split; [|split].
  - eexists. vm_compute. reflexivity.
  - eexists. split; vm_compute; reflexivity.
  - intros (w' & v & Hrun). vm_compute in Hrun. discriminate.
Qed.

(** The snapshot of the sample: one element, for the route [home]; its
    handlers are identified by the file of the first and, the second having
    no name, by ['anonymous']. *)
Example dumpConfig_sample :
  let r := @dumpConfig sample_platform sample_framework (VRef 17)
             sample_router_world in
  let h' := w_heap (fst r) in
  snd r = Ok VUndef /\
  w_trace (fst r) =
    [ EvSuperDumpConfig; EvWriteFile "/srv/app/run/router.json" "<json>" ] /\
  h' !! 18 = Some (mkObj None (Arr [VRef 20]) []) /\
  h' !! 20 =
    Some (mkObj None Plain
            [ (PStr "name", VStr "home"); (PStr "methods", VRef 4);
              (PStr "paramNames", VRef 5); (PStr "path", VStr "/");
              (PStr "regexp", VStr "/^(?:\/(?=$))?$/i");
              (PStr "stack", VRef 19) ]) /\
  h' !! 19 =
    Some (mkObj None
            (Arr [ VStr "/srv/app/app/controller/home.js#index()";
                   VStr "anonymous" ]) []).
Proof. vm_compute. repeat split. Qed.

(** When the file cannot be written, or when a layer has no [regexp], the
    failure ends as a warning and [dumpConfig] returns. *)
Example dumpConfig_sample_failures :
  (let r := @dumpConfig readonly_platform sample_framework (VRef 17)
              sample_router_world in
   snd r = Ok VUndef /\
   w_trace (fst r) =
     [ EvSuperDumpConfig;
       EvLog AppCoreLogger LWarn
         [VStr "dumpConfig router.json error: EACCES: permission denied"] ]) /\
  (let r := @dumpConfig sample_platform sample_framework (VRef 17)
              (set_heap sample_router_world
                 (hset sample_router_heap 6 "regexp" VUndef)) in
   snd r = Ok VUndef /\
   w_trace (fst r) =
     [ EvSuperDumpConfig;
       EvLog AppCoreLogger LWarn
         [VStr "dumpConfig router.json error: Cannot read property 'toString' of undefined or null"] ]).
Proof. vm_compute. repeat split. Qed.

(** ** Events *)

Lemma filter_event_none name (l : list registration) :
  Forall (fun r => reg_event r <> name) l ->
  filter (fun r => reg_event r = name) l = [].
Proof.
  induction 1 as [|r l Hr Hl IH]; [reflexivity|].
  now rewrite filter_cons_False.
Qed.

Lemma run_emit_none `{Platform} name args w :
  no_listener name w -> emit name args w = (w, Ok false).
Proof.
  intros Hno. unfold emit.
  erewrite bind_run by reflexivity.
  rewrite (filter_event_none name _ Hno). reflexivity.
Qed.

Lemma run_emit_times_none `{Platform} name args n w :
  no_listener name w -> emit_times name args n w = (w, Ok tt).
Proof.
  intros Hno. induction n as [|n IH]; [reflexivity|].
  cbn [emit_times]. erewrite bind_run by (now apply run_emit_none).
  exact IH.
Qed.

Lemma run_emit_server `{Platform} w app s :
  no_listener "server" w ->
  let w1 := fst (BIND_EVENTS app w) in
  let w2 := add_events (drop_listener w1 (S (w_next_id w)))
                       (server_events (VRef s)) in
  emit "server" [VRef s] w1 = (w2, Ok true) /\ no_listener "server" w2.
Proof.
  intros Hno w1 w2.
  assert (Hl : w_listeners w1 =
               (w_listeners w ++
                [mkReg (w_next_id w) "cookieLimitExceed" false
                   (LCookieLimitExceed app)]) ++
               [mkReg (S (w_next_id w)) "server" true (LOnServer app)])
    by reflexivity.
  split.
  - unfold emit. erewrite bind_run by reflexivity. rewrite Hl.
    rewrite !filter_app, (filter_event_none "server" _ Hno).
    rewrite filter_cons_False, filter_nil by discriminate.
    rewrite filter_cons_True, filter_nil by reflexivity.
    unfold w2, add_events, server_events. cbn.
    unfold ret, add_event, drop_listener, add_listener.
    cbn [w_heap w_now w_trace w_listeners w_next_id].
    now rewrite <- app_assoc.
  - unfold no_listener, w2, w1.
    cbn [w_listeners add_events drop_listener BIND_EVENTS fst bindM on once
         add_listener ret w_next_id].
    apply Forall_forall. intros r Hr.
    apply list_elem_of_filter in Hr as [Hid Hr].
    rewrite !elem_of_app, !list_elem_of_singleton in Hr.
    destruct Hr as [[Hr | ->] | ->].
    + unfold no_listener in Hno. rewrite Forall_forall in Hno. auto.
    + discriminate.
    + cbn in Hid. contradiction.
Qed.

Lemma cookie_payload_app h t p nm val lg :
  cookie_payload h p nm val lg -> cookie_payload (h ++ t) p nm val lg.
Proof.
  intros (op & c & oc & Hp & Hc & H). exists op, c, oc.
  split; [now apply lookup_app_l_Some|].
  split; [now apply lookup_app_l_Some|]. exact H.
Qed.

Lemma run_onCookieLimitExceed `{Platform} w p nm val lg :
  cookie_payload (w_heap w) p nm val lg ->
  onCookieLimitExceed (VRef p) w =
  (add_events (set_heap w (w_heap w ++ [cookie_error nm val]))
              [cookie_log lg (length (w_heap w))],
   Ok VUndef).
Proof.
  intros (op & c & oc & Hp & Hc & Hname & Hval & Hctx & Hlog).
  destruct w as [h now tr ls id]. cbn [w_heap] in *.
  unfold onCookieLimitExceed.
  do 3 (erewrite bind_run by (apply run_get; reflexivity)).
  cbn [w_heap read].
  rewrite (hget_own h p op "name" _ Hp Hname).
  rewrite (hget_own h p op "value" _ Hp Hval).
  rewrite (hget_own h p op "ctx" _ Hp Hctx).
  cbn [ToString]. rewrite bind_ret.
  erewrite bind_run by (apply run_get; reflexivity).
  cbn [read pkey_eqb String.eqb Ascii.eqb Bool.eqb]. cbn [ToString].
  rewrite bind_ret. unfold new_object.
  replace (mkWorld h now tr ls id) with (mkWorld (h ++ []) now tr ls id)
    by now rewrite app_nil_r.
  run_step ltac:(apply run_alloc).
  do 3 run_step ltac:(apply run_set_fresh).
  erewrite bind_run by (apply run_get; reflexivity).
  cbn [w_heap read].
  rewrite (hget_own _ c oc "coreLogger" (VRef lg)
             (lookup_app_l_Some _ _ _ _ Hc) Hlog).
  cbn [logger_error]. erewrite bind_run by reflexivity.
  unfold ret, add_events, add_event, set_heap, cookie_error, cookie_log.
  cbn [w_heap w_now w_trace w_listeners w_next_id].
  now rewrite Nat.add_0_r.
Qed.

Lemma run_emit_cookie `{Platform} w app id p nm val lg :
  filter (fun r => reg_event r = "cookieLimitExceed") (w_listeners w) =
    [mkReg id "cookieLimitExceed" false (LCookieLimitExceed app)] ->
  cookie_payload (w_heap w) p nm val lg ->
  emit "cookieLimitExceed" [VRef p] w =
  (add_events (set_heap w (w_heap w ++ [cookie_error nm val]))
              [cookie_log lg (length (w_heap w))],
   Ok true).
Proof.
  intros Hf Hp. unfold emit. erewrite bind_run by reflexivity.
  rewrite Hf. cbn [forM reg_once reg_fn run_listener hd].
  erewrite bind_run; [reflexivity|].
  erewrite bind_run; [reflexivity|].
  rewrite bind_ret.
  erewrite bind_run by (eapply run_onCookieLimitExceed; exact Hp).
  reflexivity.
Qed.

Lemma run_emit_times_cookie `{Platform} app id p nm val lg n :
  forall w,
    filter (fun r => reg_event r = "cookieLimitExceed") (w_listeners w) =
      [mkReg id "cookieLimitExceed" false (LCookieLimitExceed app)] ->
    cookie_payload (w_heap w) p nm val lg ->
    exists wn,
      emit_times "cookieLimitExceed" [VRef p] n w = (wn, Ok tt) /\
      w_trace wn =
        w_trace w ++
        map (fun i => cookie_log lg (length (w_heap w) + i)) (seq 0 n).
Proof.
  induction n as [|n IH]; intros w Hf Hp.
  - exists w. split; [reflexivity|]. cbn. now rewrite app_nil_r.
  - cbn [emit_times].
    set (w' := add_events (set_heap w (w_heap w ++ [cookie_error nm val]))
                 [cookie_log lg (length (w_heap w))]).
    destruct (IH w') as (wn & Hrun & Htr).
    + exact Hf.
    + now apply cookie_payload_app.
    + exists wn. split.
      * erewrite bind_run by (apply (run_emit_cookie w app id p nm val lg);
                              assumption).
        exact Hrun.
      * rewrite Htr. cbn [w' w_trace w_heap add_events set_heap seq map].
        rewrite <- app_assoc, Nat.add_0_r. cbn [List.app].
        do 2 f_equal. rewrite <- seq_shift, map_map.
        apply map_ext. intros i. rewrite length_app. cbn [length].
        f_equal. lia.
Qed.

Lemma bind_ok_inv {A B} (m : M A) (f : A -> M B) w w' b :
  bindM m f w = (w', Ok b) ->
  exists w1 a, m w = (w1, Ok a) /\ f a w1 = (w', Ok b).
Proof.
  unfold bindM. destruct (m w) as [w1 [a|e]]; [eauto|discriminate].
Qed.

Lemma rethrow_ok_inv {A} (m : M A) w w' a :
  try_catch m (fun e => throw e) w = (w', Ok a) -> m w = (w', Ok a).
Proof.
  unfold try_catch. destruct (m w) as [w1 [x|e]]; [auto|discriminate].
Qed.

Lemma run_typed_options `{Platform} `{Framework} options w wa options' :
  typed_options options w = Some (wa, options') ->
  Application_new options w =
  (do this <- super_constructor options' ;
   exec try_catch (loader_load this) (fun e => throw e) ;
   exec dumpConfig this ;
   exec warnConfusedConfig this ;
   exec BIND_EVENTS this ;
   ret this) wa.
Proof.
  unfold typed_options, Application_new.
  destruct options; try discriminate; intros [= <- <-].
  - replace (strict_eq VUndef VUndef) with true by reflexivity.
    unfold new_object. erewrite bind_run by reflexivity.
    erewrite bind_run; [reflexivity|].
    unfold set_prop. cbn [w_heap set_heap].
    rewrite (hset_fresh (w_heap w) _ _ 0) by lia. reflexivity.
  - unfold strict_eq. rewrite bool_decide_eq_false_2 by discriminate.
    rewrite bind_ret. erewrite bind_run by reflexivity. reflexivity.
Qed.

Lemma typed_options_inv `{Platform} `{Framework} options w w' this :
  Application_new options w = (w', Ok this) ->
  exists wa options', typed_options options w = Some (wa, options').
Proof.
  unfold typed_options. destruct options; eauto; intros Hnew; exfalso;
    unfold Application_new, strict_eq in Hnew;
    rewrite bool_decide_eq_false_2 in Hnew by discriminate;
    rewrite bind_ret in Hnew; discriminate.
Qed.

(** C9: the events bound at construction.  [BIND_EVENTS] registers the
    [cookieLimitExceed] listener with [on] and the [server] listener with
    [once], and does nothing else.  However often [server] is emitted
    afterwards, [onServer] runs for the first emission only; every emission
    of [cookieLimitExceed] logs one error on the logger of the context.
    The constructor registers the two listeners itself, as its last step:
    once [type] is set on the options and the superclass constructor, the
    loader, [dumpConfig] and [warnConfusedConfig] have returned, the
    constructor returns the application with the two listeners added to
    those of the world [warnConfusedConfig] left and nothing else changed;
    and a constructor call that returns went through exactly these steps. *)
Theorem lifecycle_binding `{Platform} `{Framework} w app s n :
  no_listener "server" w -> no_listener "cookieLimitExceed" w ->
  let srv := VRef s in
  let w1 := fst (BIND_EVENTS app w) in
  (BIND_EVENTS app w = (w1, Ok VUndef) /\
   w_listeners w1 = w_listeners w ++ bound_listeners (w_next_id w) app /\
   w_trace w1 = w_trace w /\ w_heap w1 = w_heap w) /\
  (exists wn,
     emit_times "server" [srv] n w1 = (wn, Ok tt) /\
     w_trace wn =
       w_trace w ++ (if Nat.eqb n 0 then [] else server_events srv)) /\
  (forall p nm val lg,
     cookie_payload (w_heap w) p nm val lg ->
     exists wn,
       emit_times "cookieLimitExceed" [VRef p] n w1 = (wn, Ok tt) /\
       w_trace wn =
         w_trace w ++
         map (fun i => cookie_log lg (length (w_heap w) + i)) (seq 0 n)) /\
  (forall options w0 wa options' wb this wc wd we r1 r2,
     typed_options options w0 = Some (wa, options') ->
     super_constructor options' wa = (wb, Ok this) ->
     loader_load this wb = (wc, Ok tt) ->
     dumpConfig this wc = (wd, Ok r1) ->
     warnConfusedConfig this wd = (we, Ok r2) ->
     exists w',
       Application_new options w0 = (w', Ok this) /\
       BIND_EVENTS this we = (w', Ok VUndef) /\
       w_listeners w' = w_listeners we ++ bound_listeners (w_next_id we) this /\
       w_trace w' = w_trace we /\ w_heap w' = w_heap we) /\
  (forall options w0 w' this,
     Application_new options w0 = (w', Ok this) ->
     exists options' wa wb wc wd we r1 r2,
       typed_options options w0 = Some (wa, options') /\
       super_constructor options' wa = (wb, Ok this) /\
       loader_load this wb = (wc, Ok tt) /\
       dumpConfig this wc = (wd, Ok r1) /\
       warnConfusedConfig this wd = (we, Ok r2) /\
       BIND_EVENTS this we = (w', Ok VUndef) /\
       w_listeners w' = w_listeners we ++ bound_listeners (w_next_id we) this).
Proof.
  intros Hserver Hcookie srv w1.
  assert (Hbind : forall a v,
            BIND_EVENTS a v = ((BIND_EVENTS a v).1, Ok VUndef) /\
            w_listeners (BIND_EVENTS a v).1 =
              w_listeners v ++ bound_listeners (w_next_id v) a /\
            w_trace (BIND_EVENTS a v).1 = w_trace v /\
            w_heap (BIND_EVENTS a v).1 = w_heap v).
  { intros a v. repeat split. unfold bound_listeners. cbn.
    now rewrite <- app_assoc. }
  destruct (Hbind app w) as (Hrun1 & Hl & Htr & Hhp). fold w1 in Hrun1, Hl.
  split; [|split; [|split; [|split]]].
  - repeat split; try reflexivity; exact Hl.
  - destruct n as [|n].
    + exists w1. split; [reflexivity|]. cbn. now rewrite app_nil_r.
    + destruct (run_emit_server w app s Hserver) as [Hrun Hno].
      fold w1 in Hrun, Hno. eexists. split.
      * cbn [emit_times]. erewrite bind_run by exact Hrun.
        now apply run_emit_times_none.
      * reflexivity.
  - intros p nm val lg Hp.
    apply (run_emit_times_cookie app (w_next_id w) p nm val lg n w1);
      [|exact Hp].
    rewrite Hl. unfold bound_listeners.
    rewrite filter_app, (filter_event_none _ _ Hcookie).
    rewrite filter_cons_True by reflexivity.
    rewrite filter_cons_False, filter_nil by discriminate. reflexivity.
  - intros options w0 wa options' wb this wc wd we r1 r2
           Hopt Hsuper Hload Hdump Hwarn.
    destruct (Hbind this we) as (Hb & Hbl & Hbt & Hbh).
    exists (BIND_EVENTS this we).1.
    split; [|split; [exact Hb|split; [exact Hbl|split; [exact Hbt|exact Hbh]]]].
    rewrite (run_typed_options options w0 wa options' Hopt).
    erewrite bind_run by exact Hsuper.
    erewrite bind_run by (unfold try_catch; rewrite Hload; reflexivity).
    erewrite bind_run by exact Hdump.
    erewrite bind_run by exact Hwarn.
    erewrite bind_run by exact Hb. reflexivity.
  - intros options w0 w' this Hnew.
    destruct (typed_options_inv options w0 w' this Hnew)
      as (wa & options' & Hopt).
    rewrite (run_typed_options options w0 wa options' Hopt) in Hnew.
    apply bind_ok_inv in Hnew as (wb & this' & Hsuper & Hnew).
    apply bind_ok_inv in Hnew as (wc & [] & Hload & Hnew).
    apply rethrow_ok_inv in Hload.
    apply bind_ok_inv in Hnew as (wd & r1 & Hdump & Hnew).
    apply bind_ok_inv in Hnew as (we & r2 & Hwarn & Hnew).
    apply bind_ok_inv in Hnew as (wf & r3 & Hb & Hret).
    injection Hret as <- <-.
    exists options', wa, wb, wc, wd, we, r1, r2.
    destruct (Hbind this' we) as (Hb' & Hbl & _).
    rewrite Hb' in Hb. injection Hb as <- <-.
    repeat split; assumption.
Qed.

Lemma lifecycle_binding_witness :
  let P := sample_platform in
  let F := sample_framework in
  let w := sample_events_world in
  let app := VRef 4 in
  let srv := VRef 0 in
  let w1 := fst (BIND_EVENTS app w) in
  (BIND_EVENTS app w = (w1, Ok VUndef) /\
   w_listeners w1 = w_listeners w ++ bound_listeners (w_next_id w) app /\
   w_trace w1 = w_trace w /\ w_heap w1 = w_heap w) /\
  (exists wn,
     @emit_times P "server" [srv] 3 w1 = (wn, Ok tt) /\
     w_trace wn = [EvGraceful srv; EvServerOn srv "clientError"]) /\
  (exists wn,
     @emit_times P "cookieLimitExceed" [VRef 3] 3 w1 = (wn, Ok tt) /\
     w_trace wn =
       [ EvLog (LoggerAt (VRef 1)) LError [VRef 5];
         EvLog (LoggerAt (VRef 1)) LError [VRef 6];
         EvLog (LoggerAt (VRef 1)) LError [VRef 7] ]) /\
  (exists w',
     @Application_new P F VUndef sample_router_world = (w', Ok (VRef 17)) /\
     w_listeners w' = bound_listeners 0 (VRef 17) /\
     w_trace w' =
       [ EvLoaderLoad; EvSuperDumpConfig;
         EvWriteFile "/srv/app/run/router.json" "<json>" ]).
Proof.
  intros P F w app srv w1.
  destruct (@lifecycle_binding P F w (VRef 4) 0 3)
    as (Hbind & Hserver & Hcookie & Hnew & _);
    [apply Forall_nil_2 | apply Forall_nil_2 |].
  split; [exact Hbind|]. split; [exact Hserver|]. split.
  - apply (Hcookie 3 "sid" "0123456789" 1).
    exists (mkObj None Plain [(PStr "name", VStr "sid");
                              (PStr "value", VStr "0123456789");
                              (PStr "ctx", VRef 2)]),
           2, (mkObj None Plain [(PStr "coreLogger", VRef 1)]).
    repeat split.
  - set (w0 := sample_router_world).
    set (h := sample_router_heap ++
              [mkObj None Plain [(PStr "type", VStr "application")]]).
    set (wc := add_events (set_heap w0 h) [EvLoaderLoad]).
    set (wd := (@dumpConfig P F (VRef 17) wc).1).
    destruct (Hnew VUndef w0 (set_heap w0 h) (VRef 18) (set_heap w0 h)
                (VRef 17) wc wd wd VUndef VUndef)
      as (w' & Hrun & Hb & Hls & Htr & _); try reflexivity.
    exists w'. split; [exact Hrun|]. split; [exact Hls|exact Htr].
Defined.

(** Three emissions of each event on the sample: the server is supervised
    once, the cookie is reported three times. *)
Example events_sample :
  let w1 := fst (BIND_EVENTS (VRef 4) sample_events_world) in
  w_trace (fst (@emit_times sample_platform "server" [VRef 0] 3 w1)) =
    [ EvGraceful (VRef 0); EvServerOn (VRef 0) "clientError" ] /\
  w_trace (fst (@emit_times sample_platform "cookieLimitExceed" [VRef 3] 3 w1)) =
    [ EvLog (LoggerAt (VRef 1)) LError [VRef 5];
      EvLog (LoggerAt (VRef 1)) LError [VRef 6];
      EvLog (LoggerAt (VRef 1)) LError [VRef 7] ] /\
  w_heap (fst (@emit_times sample_platform "cookieLimitExceed" [VRef 3] 1 w1))
    !! 5 =
    Some (mkObj None Plain
            [ (PStr "message",
               VStr "cookie sid's length(10) exceed the limit(4093)");
              (PStr "name", VStr "CookieLimitExceedError");
              (PStr "key", VStr "sid");
              (PStr "cookie", VStr "0123456789") ]).
Proof. vm_compute. repeat split. Qed.

(** The constructor on the sample application: the loader runs, the
    configuration and the router are dumped, no key is deprecated, and the
    two listeners are the last thing added. *)
Example constructor_sample :
  let r := @Application_new sample_platform sample_framework VUndef
             sample_router_world in
  snd r = Ok (VRef 17) /\
  w_trace (fst r) =
    [ EvLoaderLoad; EvSuperDumpConfig;
      EvWriteFile "/srv/app/run/router.json" "<json>" ] /\
  w_listeners (fst r) = bound_listeners 0 (VRef 17).
Proof. vm_compute. repeat split. Qed.

(** * Further properties

    What the methods leave alone, when they fail, and how they compose. *)

(** ** Frames *)

Lemma kept_refl n w : kept n w w.
Proof. unfold kept. auto. Qed.

Lemma kept_trans n w1 w2 w3 : kept n w1 w2 -> kept n w2 w3 -> kept n w1 w3.
Proof.
  unfold kept. intros (H1 & H2 & H3 & H4 & H5) (G1 & G2 & G3 & G4 & G5).
  repeat split; try congruence. lia.
Qed.

Lemma frames_bind {A B} n (m : M A) (f : A -> M B) R1 R :
  frames n m R1 ->
  (forall a es1, R1 es1 (Ok a) ->
                 frames n (f a) (fun es2 r => R (es1 ++ es2) r)) ->
  (forall e es1, R1 es1 (Throw e) -> R es1 (Throw e)) ->
  frames n (bindM m f) R.
Proof.
  intros Hm Hf He w Hn. destruct (Hm w Hn) as (es1 & Hk & Ht & Hr).
  unfold bindM. destruct (m w) as [w1 [a|e]]; cbn [fst snd] in *.
  - destruct (Hf a es1 Hr w1) as (es2 & Hk2 & Ht2 & Hr2).
    { destruct Hk as (_ & Hlen & _). lia. }
    exists (es1 ++ es2). split; [eapply kept_trans; eauto|].
    split; [|exact Hr2]. rewrite Ht2, Ht. now rewrite app_assoc.
  - exists es1. cbn [fst snd]. auto.
Qed.

Lemma quiet_bind {A B} n (m : M A) (f : A -> M B) Q E Q' :
  quiet n m Q E -> (forall a, Q a -> quiet n (f a) Q' E) ->
  quiet n (bindM m f) Q' E.
Proof.
  intros Hm Hf. eapply frames_bind; [exact Hm| |].
  - intros a es1 [-> Ha]. exact (Hf a Ha).
  - intros e es1 [-> He]. auto.
Qed.

Lemma frames_after_quiet {A B} n (m : M A) (f : A -> M B) Q E R :
  quiet n m Q E -> (forall a, Q a -> frames n (f a) R) ->
  (forall e, E e -> R [] (Throw e)) ->
  frames n (bindM m f) R.
Proof.
  intros Hm Hf He. eapply frames_bind; [exact Hm| |].
  - intros a es1 [-> Ha]. exact (Hf a Ha).
  - intros e es1 [-> H]. auto.
Qed.

Lemma quiet_weaken {A} n (m : M A) (Q Q' : A -> Prop) (E E' : jserr -> Prop) :
  quiet n m Q E -> (forall a, Q a -> Q' a) -> (forall e, E e -> E' e) ->
  quiet n m Q' E'.
Proof.
  intros Hm HQ HE w Hn. destruct (Hm w Hn) as (es & Hk & Ht & -> & Hr).
  exists []. split; [exact Hk|]. split; [exact Ht|]. split; [reflexivity|].
  destruct ((m w).2); auto.
Qed.

(** A computation that leaves the world as it is. *)
Lemma quiet_pure {A} n (m : M A) (Q : A -> Prop) (E : jserr -> Prop) :
  (forall w, (m w).1 = w /\
             match (m w).2 with Ok a => Q a | Throw e => E e end) ->
  quiet n m Q E.
Proof.
  intros Hm w Hn. destruct (Hm w) as [Hw Hr]. exists [].
  rewrite Hw, app_nil_r. auto using kept_refl.
Qed.

Lemma quiet_ret {A} n (a : A) (Q : A -> Prop) E : Q a -> quiet n (ret a) Q E.
Proof. intros Ha. apply quiet_pure. intros w. now split. Qed.

Lemma quiet_throw {A} n e (Q : A -> Prop) (E : jserr -> Prop) :
  E e -> quiet n (throw e) Q E.
Proof. intros He. apply quiet_pure. intros w. now split. Qed.

Lemma quiet_get_prop n v k :
  quiet n (get_prop v k) (fun _ => True) is_TypeError.
Proof.
  apply quiet_pure. intros w. unfold get_prop.
  destruct (nullish v); now split.
Qed.

Lemma quiet_alloc n o E : quiet n (alloc o) (fresh_ref n) E.
Proof.
  intros w Hn. exists []. unfold alloc, kept. cbn.
  rewrite app_nil_r, length_app, take_app_le by assumption.
  repeat split; try lia. exists (length (w_heap w)). auto.
Qed.

Lemma kept_set_heap n w h :
  take n h = take n (w_heap w) -> length (w_heap w) <= length h ->
  kept n w (set_heap w h).
Proof. unfold kept. cbn. auto. Qed.

Lemma quiet_set_prop n l k v :
  n <= l -> quiet n (set_prop (VRef l) k v) (fun _ => True) is_TypeError.
Proof.
  intros Hl w Hn. exists []. cbn [set_prop fst snd set_heap w_trace].
  rewrite app_nil_r.
  split; [|split; [reflexivity|split; [reflexivity|exact I]]].
  apply kept_set_heap.
  - unfold hset. destruct (w_heap w !! l); [|reflexivity].
    now apply take_insert_ge.
  - now rewrite length_hset.
Qed.

Lemma quiet_set_fresh n target k v :
  fresh_ref n target ->
  quiet n (set_prop target k v) (fun _ => True) is_TypeError.
Proof. intros (l & -> & Hl). now apply quiet_set_prop. Qed.

Lemma quiet_Object_create n p :
  quiet n (Object_create p) (fresh_ref n) is_TypeError.
Proof.
  destruct p; cbn [Object_create];
    first [apply quiet_alloc | now apply quiet_throw].
Qed.

Lemma quiet_Function_bind n f this :
  quiet n (Function_bind f this) (fresh_ref n) is_TypeError.
Proof.
  intros w Hn. unfold Function_bind.
  assert (Hthrow : forall msg,
    exists es, kept n w w /\ w_trace w = w_trace w ++ es /\
               (es = [] /\ is_TypeError (TypeError msg))).
  { intros msg. exists []. split; [apply kept_refl|].
    split; [now rewrite app_nil_r|]. split; reflexivity. }
  destruct f; try apply Hthrow.
  destruct (w_heap w !! l) as [o|]; [|apply Hthrow].
  destruct (callable (Some (kind o))); [|apply Hthrow].
  now apply quiet_alloc.
Qed.

Lemma quiet_Date_now n E : quiet n Date_now (fun _ => True) E.
Proof. apply quiet_pure. intros w. now split. Qed.

Lemma quiet_forM {A} n (xs : list A) (f : A -> M unit) E :
  (forall x, In x xs -> quiet n (f x) (fun _ => True) E) ->
  quiet n (forM xs f) (fun _ => True) E.
Proof.
  induction xs as [|x xs IH]; intros Hf; cbn [forM].
  - now apply quiet_ret.
  - eapply quiet_bind; [apply Hf; now left|].
    intros _ _. apply IH. intros y Hy. apply Hf. now right.
Qed.

Lemma quiet_mapM {A B} n (xs : list A) (f : A -> M B) (Q : B -> Prop) E :
  (forall x, In x xs -> quiet n (f x) Q E) ->
  quiet n (mapM xs f) (Forall Q) E.
Proof.
  induction xs as [|x xs IH]; intros Hf; cbn [mapM].
  - now apply quiet_ret.
  - eapply quiet_bind; [apply Hf; now left|].
    intros y Hy. eapply quiet_bind; [apply IH; intros z Hz; apply Hf; now right|].
    intros ys Hys. apply quiet_ret. now constructor.
Qed.

Ltac quiet_step lem :=
  eapply quiet_bind; [solve [lem] | intros ? ?].

Lemma quiet_createContext n app req res :
  quiet n (createContext app req res) (fresh_ref n) is_TypeError.
Proof.
  unfold createContext.
  quiet_step ltac:(apply quiet_get_prop).
  eapply quiet_bind; [apply quiet_Object_create | intros context Hc].
  quiet_step ltac:(apply quiet_get_prop).
  eapply quiet_bind; [apply quiet_Object_create | intros request Hr].
  quiet_step ltac:(now apply quiet_set_fresh).
  quiet_step ltac:(apply quiet_get_prop).
  eapply quiet_bind; [apply quiet_Object_create | intros response Hs].
  do 14 quiet_step ltac:(now apply quiet_set_fresh).
  quiet_step ltac:(apply quiet_get_prop).
  quiet_step ltac:(apply quiet_Function_bind).
  quiet_step ltac:(now apply quiet_set_fresh).
  quiet_step ltac:(apply quiet_get_prop).
  do 2 quiet_step ltac:(now apply quiet_set_fresh).
  quiet_step ltac:(apply quiet_Date_now).
  quiet_step ltac:(now apply quiet_set_fresh).
  now apply quiet_ret.
Qed.

Lemma kept_heap n w w' :
  n = length (w_heap w) -> kept n w w' ->
  exists t, w_heap w' = w_heap w ++ t.
Proof.
  intros -> (Ht & Hlen & _). exists (drop (length (w_heap w)) (w_heap w')).
  rewrite <- (take_drop (length (w_heap w)) (w_heap w')) at 1.
  rewrite Ht. now rewrite firstn_all.
Qed.

(** X1: whatever its arguments are and whether it returns or throws,
    [createContext] never writes to an object that existed before the call:
    the heap only gains objects; nothing is logged, no listener changes; an
    exception it throws is a [TypeError]; the context it returns is one of
    the new objects. *)
Theorem createContext_frame app req res w :
  let r := createContext app req res w in
  (exists t, w_heap r.1 = w_heap w ++ t) /\
  w_trace r.1 = w_trace w /\ w_listeners r.1 = w_listeners w /\
  match r.2 with
  | Ok ctx => exists l, ctx = VRef l /\ length (w_heap w) <= l
  | Throw e => ename e = "TypeError"
  end.
Proof.
  intros r.
  destruct (quiet_createContext (length (w_heap w)) app req res w (le_n _))
    as (es & Hk & Ht & -> & Hr).
  fold r in Hk, Ht, Hr. rewrite app_nil_r in Ht.
  split; [now apply (kept_heap (length (w_heap w)))|].
  split; [exact Ht|]. split; [apply Hk|]. exact Hr.
Qed.

(** ** When [createContext] throws *)

Lemma Object_create_proto p :
  is_proto p = true -> Object_create p = alloc (mkObj (ref_loc p) Plain []).
Proof. now destruct p. Qed.

Lemma Object_create_throws p w :
  is_proto p = false -> exists e, Object_create p w = (w, Throw e).
Proof. destruct p; try discriminate; eauto. Qed.

Lemma Function_bind_throws h t now tr ls id v this :
  value_closed (length h) v = true -> callable (hkind h v) = false ->
  exists e,
    Function_bind v this (mkWorld (h ++ t) now tr ls id) =
    (mkWorld (h ++ t) now tr ls id, Throw e).
Proof.
  intros Hv Hc. unfold Function_bind. destruct v; eauto.
  cbn [w_heap]. cbn [value_closed hkind] in Hv, Hc. apply Nat.ltb_lt in Hv.
  rewrite lookup_app_l by assumption.
  destruct (h !! l) as [o|]; [|eauto].
  cbn [fmap option_fmap option_map] in Hc. rewrite Hc. eauto.
Qed.

Ltac norm_world :=
  lazymatch goal with
  | |- context [mkWorld (?h ++ ?t) _ _ _ _] =>
      let t' := eval cbn in t in change t with t'
  end.

Ltac go lem :=
  erewrite bind_run; [| solve [ lem; side ] ]; cbn [length List.app Nat.add];
  norm_world.

Lemma createContext_outcome w app req res :
  proto_wf (w_heap w) -> heap_closed (w_heap w) ->
  value_closed (length (w_heap w)) app = true ->
  match (createContext app req res w).2 with
  | Ok _ => creatable (w_heap w) app req = true
  | Throw _ => creatable (w_heap w) app req = false
  end.
Proof.
  intros Hwf Hcl Happ. destruct w as [h now tr ls id]. cbn [w_heap] in *.
  unfold creatable.
  destruct (nullish app) eqn:Hnull.
  { destruct app; try discriminate; reflexivity. }
  pose proof (read_closed h app "context" Hcl) as Hpc.
  pose proof (read_closed h app "request" Hcl) as Hpr.
  pose proof (read_closed h app "response" Hcl) as Hps.
  set (pc := read h app "context") in *.
  set (pr := read h app "request") in *.
  set (ps := read h app "response") in *.
  unfold createContext.
  replace (mkWorld h now tr ls id) with (mkWorld (h ++ []) now tr ls id)
    by now rewrite app_nil_r.
  go ltac:(apply run_get_old). fold pc.
  destruct (is_proto pc) eqn:Hipc.
  2: { destruct (Object_create_throws pc (mkWorld (h ++ []) now tr ls id) Hipc)
         as [e He].
       erewrite bind_throw by exact He. now destruct pc. }
  rewrite (Object_create_proto pc) by assumption.
  go ltac:(apply run_alloc).
  go ltac:(apply run_get_old). fold pr.
  destruct (is_proto pr) eqn:Hipr.
  2: { match goal with |- context [bindM (Object_create pr) _ ?w] =>
         destruct (Object_create_throws pr w Hipr) as [e He] end.
       erewrite bind_throw by exact He. now destruct pc. }
  rewrite (Object_create_proto pr) by assumption.
  go ltac:(apply run_alloc).
  go ltac:(apply run_set_fresh).
  go ltac:(apply run_get_old). fold ps.
  destruct (is_proto ps) eqn:Hips.
  2: { match goal with |- context [bindM (Object_create ps) _ ?w] =>
         destruct (Object_create_throws ps w Hips) as [e He] end.
       erewrite bind_throw by exact He.
       destruct pc; try reflexivity; cbn; now rewrite ?andb_false_r. }
  rewrite (Object_create_proto ps) by assumption.
  go ltac:(apply run_alloc).
  do 14 go ltac:(apply run_set_fresh).
  erewrite bind_run.
  2: { apply run_get_fresh; [assumption|reflexivity|].
       cbn [proto]. intros p Hp. destruct pc; try discriminate.
       injection Hp as <-. now apply Nat.ltb_lt. }
  cbn [length List.app Nat.add]. norm_world. norm_lookup. cbn [proto].
  set (onerror := match ref_loc pc with
                  | Some p => hget h p "onerror"
                  | None => VUndef
                  end).
  assert (Hon : value_closed (length h) onerror = true).
  { unfold onerror. destruct (ref_loc pc); [now apply hget_closed|reflexivity]. }
  destruct (callable (hkind h onerror)) eqn:Hcall.
  2: { match goal with |- context [bindM (Function_bind onerror ?this) _ (mkWorld (h ++ ?t) _ _ _ _)] =>
         destruct (Function_bind_throws h t now tr ls id onerror this Hon Hcall)
           as [e He] end.
       erewrite bind_throw by exact He.
       destruct pc; try reflexivity; cbn [ref_loc] in onerror; cbn;
         fold onerror; rewrite ?Hcall; now rewrite ?andb_false_r. }
  assert (Hf : exists f o, onerror = VRef f /\ h !! f = Some o /\
                           callable (Some (kind o)) = true).
  { destruct onerror as [| | | | | |f]; try discriminate.
    cbn in Hcall. destruct (h !! f) as [o|] eqn:Ho; [|discriminate].
    now exists f, o. }
  destruct Hf as (f & o & Hfe & Ho & Hco). rewrite Hfe.
  erewrite bind_run.
  2: { eapply run_bind_fresh; [eapply lookup_lt_Some; eauto|exact Ho|exact Hco]. }
  cbn [length List.app Nat.add]. norm_world.
  go ltac:(apply run_set_fresh).
  destruct (nullish req) eqn:Hreq.
  { erewrite bind_throw by (unfold get_prop; rewrite Hreq; reflexivity).
    destruct pc; try reflexivity; cbn; now rewrite ?andb_false_r. }
  erewrite bind_run by (apply run_get; assumption).
  do 2 go ltac:(apply run_set_fresh).
  unfold Date_now at 1.
  go ltac:(reflexivity).
  go ltac:(apply run_set_fresh).
  cbn [ret snd].
  destruct pc; try discriminate.
  cbn [ref_loc] in onerror. fold onerror. rewrite Hcall. reflexivity.
Qed.

(** X2: what [createContext] cannot do without.  In a well-formed heap
    the call throws a [TypeError] whenever the application's [context] is
    no object on which [onerror] resolves to a function, or its [request] or
    [response] is neither an object nor [null], or the raw request is
    [undefined] or [null]; an [onerror] that is no function is taken to
    have no [bind] member either.  Nothing is logged, no listener changes
    and no object that existed before is modified. *)
Theorem createContext_rejects w app req res :
  let h := w_heap w in
  proto_wf h -> heap_closed h ->
  value_closed (length h) app = true ->
  creatable h app req = false ->
  (forall pc,
     read h app "context" = VRef pc ->
     callable (hkind h (hget h pc "onerror")) = false ->
     read h (hget h pc "onerror") "bind" = VUndef) ->
  exists w' e,
    createContext app req res w = (w', Throw e) /\
    ename e = "TypeError" /\
    w_trace w' = w_trace w /\ w_listeners w' = w_listeners w /\
    exists t, w_heap w' = h ++ t.
Proof.
  intros h Hwf Hcl Happ Hnot _.
  pose proof (createContext_outcome w app req res Hwf Hcl Happ) as Hout.
  destruct (quiet_createContext (length h) app req res w (le_n _))
    as (es & Hk & Ht & -> & Herr).
  rewrite app_nil_r in Ht.
  destruct (createContext app req res w) as [w' [ctx|e]] eqn:Hrun;
    cbn [fst snd] in *.
  - fold h in Hout. congruence.
  - exists w', e. split; [reflexivity|]. split; [exact Herr|].
    split; [exact Ht|]. split; [apply Hk|].
    now apply (kept_heap (length h)).
Qed.

Lemma createContext_rejects_witness :
  let w := set_heap sample_world (hset sample_heap 1 "onerror" (VRef 4)) in
  exists w' e,
    createContext sample_app sample_req sample_res w = (w', Throw e) /\
    ename e = "TypeError" /\
    w_trace w' = w_trace w /\ w_listeners w' = w_listeners w /\
    exists t, w_heap w' = w_heap w ++ t.
Proof.
  intros w.
  apply (createContext_rejects w sample_app sample_req sample_res);
    [ reflexivity | reflexivity | reflexivity | reflexivity | ].
  intros pc Hpc _. vm_compute in Hpc. injection Hpc as <-. reflexivity.
Defined.

(** Without a raw request, and on an application whose context prototype
    has lost its error handler, [createContext] throws. *)
Example createContext_sample_failures :
  (exists w' e,
     createContext sample_app VUndef sample_res sample_world = (w', Throw e) /\
     ename e = "TypeError") /\
  (exists w' e,
     createContext sample_app sample_req sample_res
       (set_heap sample_world (hset sample_heap 1 "onerror" VUndef)) =
       (w', Throw e) /\
     ename e = "TypeError").
Proof. split; eexists _, _; vm_compute; split; reflexivity. Qed.

(** ** Invariants of the heap *)

Lemma value_closed_mono n m v :
  n <= m -> value_closed n v = true -> value_closed m v = true.
Proof.
  intros Hle. destruct v; simpl; auto.
  rewrite !Nat.ltb_lt. lia.
Qed.

Lemma forallb_impl {A} (f g : A -> bool) (l : list A) :
  (forall x, f x = true -> g x = true) ->
  forallb f l = true -> forallb g l = true.
Proof.
  intros Hfg. rewrite !forallb_forall. auto.
Qed.

Lemma obj_closed_mono n m o :
  n <= m -> obj_closed n o = true -> obj_closed m o = true.
Proof.
  intros Hle. unfold obj_closed. rewrite !andb_true_iff. intros [Hp Hk]. split.
  - revert Hp. apply forallb_impl. intros kv. now apply value_closed_mono.
  - destruct (kind o); auto.
    + apply andb_true_iff in Hk as [Ht Hth]. apply andb_true_iff. split.
      * apply Nat.ltb_lt in Ht. apply Nat.ltb_lt. lia.
      * now apply (value_closed_mono n).
    + revert Hk. apply forallb_impl. intros v. now apply value_closed_mono.
Qed.

Lemma heap_closed_app h t :
  heap_closed h ->
  forallb (obj_closed (length h + length t)) t = true ->
  heap_closed (h ++ t).
Proof.
  unfold heap_closed. intros Hh Ht. rewrite forallb_app, length_app, Ht.
  rewrite andb_true_r. revert Hh. apply forallb_impl.
  intros o. apply obj_closed_mono. lia.
Qed.

Lemma context_objs_closed h now app req res :
  heap_closed h -> app_ready h app = true ->
  value_closed (length h) req = true -> value_closed (length h) res = true ->
  forallb (obj_closed (length h + 4)) (context_objs h now app req res) = true.
Proof.
  intros Hcl Hready Hreq Hres.
  destruct (app_ready_inv _ _ Hready)
    as (a & pc & pr & ps & f & o & -> & Hc & Hr & Hs & Hpc & Hpr & Hps & Hf & Ho & Hcall).
  assert (Ha : a < length h) by (apply (hget_allocated h a "context"); congruence).
  assert (Hflt : f < length h) by (eapply lookup_lt_Some; eauto).
  assert (Hurl : value_closed (length h + 4) (read h req "url") = true).
  { apply (value_closed_mono (length h)); [lia|]. now apply read_closed. }
  assert (Hreq' : value_closed (length h + 4) req = true)
    by (apply (value_closed_mono (length h)); [lia|assumption]).
  assert (Hres' : value_closed (length h + 4) res = true)
    by (apply (value_closed_mono (length h)); [lia|assumption]).
  unfold context_objs. set (url := read h req "url") in *.
  cbn [read]. rewrite Hc. cbn [read]. rewrite Hf.
  cbn [forallb ref_loc default]. unfold obj_closed, Datatypes.id.
  cbn [forallb props kind snd].
  rewrite Hurl, Hreq', Hres'. cbn [value_closed].
  repeat (apply andb_true_iff; split); try reflexivity;
    apply Nat.ltb_lt; lia.
Qed.



(** ** The heap an anonymous context leaves *)

Lemma props_closed_own_set n k v ps :
  props_closed n ps = true -> value_closed n v = true ->
  props_closed n (own_set k v ps) = true.
Proof.
  unfold props_closed. intros Hps Hv.
  induction ps as [|[k' v'] ps IH]; cbn [own_set forallb snd].
  - now rewrite Hv.
  - cbn [forallb snd] in Hps. apply andb_true_iff in Hps as [Hv' Hps].
    destruct (pkey_eqb k k'); cbn [forallb snd].
    + now rewrite Hv, Hps.
    + now rewrite Hv', IH.
Qed.

Lemma props_closed_merge_into n src :
  props_closed n src = true ->
  forall base, props_closed n base = true ->
               props_closed n (merge_into src base) = true.
Proof.
  unfold merge_into. induction src as [|[k v] src IH]; intros Hsrc base Hbase.
  - exact Hbase.
  - cbn [fold_left fst snd]. unfold props_closed in Hsrc.
    cbn [forallb snd] in Hsrc. apply andb_true_iff in Hsrc as [Hv Hsrc].
    apply IH; [exact Hsrc|]. now apply props_closed_own_set.
Qed.

Lemma props_closed_mono n m ps :
  n <= m -> props_closed n ps = true -> props_closed m ps = true.
Proof.
  intros Hle. apply forallb_impl. intros kv. now apply value_closed_mono.
Qed.

Lemma assign_source_closed h v :
  heap_closed h -> props_closed (length h) (assign_source h v) = true.
Proof.
  intros Hcl. destruct v; try reflexivity. cbn [assign_source].
  destruct (h !! l) as [o|] eqn:Ho; [|reflexivity].
  pose proof (heap_closed_lookup h l o Hcl Ho) as Hoc.
  unfold obj_closed in Hoc. apply andb_true_iff in Hoc as [Hp Hk].
  unfold props_closed, enumerable_own. rewrite forallb_app.
  apply andb_true_iff. split; [|exact Hp].
  destruct (kind o); try reflexivity.
  rewrite forallb_forall in Hk. apply forallb_forall. intros [k v] Hin.
  apply Hk. rewrite <- (index_props_values elems).
  apply in_map_iff. now exists (k, v).
Qed.

Lemma anon_closed_with n i ps st :
  anon_closed n st -> props_closed n ps = true ->
  anon_closed n (anon_with i ps st).
Proof.
  intros Hst Hps j.
  pose proof (Hst 0) as H0. pose proof (Hst 1) as H1.
  pose proof (Hst 2) as H2. pose proof (Hst 3) as H3.
  destruct i as [|[|[|i]]], j as [|[|[|j]]]; assumption.
Qed.

Lemma anon_closed_step n h req st key :
  heap_closed h -> length h <= n ->
  anon_closed n st -> anon_closed n (anon_step h req st key).
Proof.
  intros Hcl Hle Hst. unfold anon_step. destruct (merged_key key).
  - apply anon_closed_with; [assumption|].
    apply props_closed_merge_into; [|apply Hst].
    apply (props_closed_mono (length h)); [assumption|].
    now apply assign_source_closed.
  - apply anon_closed_with; [assumption|].
    apply props_closed_own_set; [apply (Hst 3)|].
    apply (value_closed_mono (length h)); [assumption|].
    now apply read_closed.
Qed.

Lemma anon_closed_final h req :
  heap_closed h -> anon_closed (length h + 5) (anon_final h req).
Proof.
  intros Hcl. unfold anon_final.
  assert (H0 : anon_closed (length h + 5) (anon_defaults (length h))).
  { intros [|[|[|i]]]; cbn; rewrite ?andb_true_r;
      repeat (apply andb_true_iff; split); try reflexivity;
      apply Nat.ltb_lt; lia. }
  revert H0. generalize (anon_defaults (length h)).
  induction (override_keys h req) as [|key keys IH]; intros st Hst;
    cbn [fold_left]; [exact Hst|].
  apply IH. apply anon_closed_step; [assumption|lia|assumption].
Qed.

Lemma anon_heap_closed h req :
  heap_closed h -> heap_closed (anon_heap h req).
Proof.
  intros Hcl. unfold anon_heap. apply heap_closed_app; [assumption|].
  pose proof (anon_closed_final h req Hcl) as Hst.
  pose proof (Hst 0) as H0. pose proof (Hst 1) as H1.
  pose proof (Hst 2) as H2. pose proof (Hst 3) as H3.
  unfold props_closed in H0, H1, H2, H3. cbn [anon_at] in H0, H1, H2, H3.
  cbn [length anon_objs List.app forallb]. unfold obj_closed.
  cbn [props kind forallb].
  now rewrite H0, H1, H2, H3.
Qed.

Lemma anon_heap_length h req : length (anon_heap h req) = length h + 5.
Proof. unfold anon_heap. rewrite length_app. reflexivity. Qed.

Lemma anon_heap_lookup h req i :
  i < 4 ->
  anon_heap h req !! (length h + i) =
  Some (mkObj None Plain (anon_at i (anon_final h req))).
Proof.
  intros Hi. unfold anon_heap. rewrite lookup_fresh.
  now destruct i as [|[|[|[|i]]]]; try lia.
Qed.

(** What [createAnonymousContext] leaves: the heap it started in, then the
    three default sub-objects, the synthetic request and the response, then
    the context; the heap is well formed and the application constructed. *)
Lemma createAnonymousContext_result w app req :
  proto_wf (w_heap w) -> heap_closed (w_heap w) ->
  app_ready (w_heap w) app = true ->
  value_closed (length (w_heap w)) req = true ->
  let h := w_heap w in
  let h1 := anon_heap h req in
  let t := context_objs h1 (w_now w) app (VRef (length h + 3))
             (VRef (length h + 4)) in
  createAnonymousContext app req w =
    (set_heap w (h1 ++ t), Ok (VRef (length h + 5))) /\
  proto_wf h1 /\ heap_closed h1 /\ app_ready h1 app = true /\
  proto_wf (h1 ++ t) /\ heap_closed (h1 ++ t) /\
  app_ready (h1 ++ t) app = true /\
  length (h1 ++ t) = length h + 9.
Proof.
  intros Hwf Hcl Hready Hreq h h1 t.
  assert (Hwf1 : proto_wf h1)
    by (apply proto_wf_app; [assumption|reflexivity]).
  assert (Hcl1 : heap_closed h1) by now apply anon_heap_closed.
  assert (Hready1 : app_ready h1 app = true) by now apply app_ready_app.
  assert (Hlen : length h1 = length h + 5) by apply anon_heap_length.
  split.
  { rewrite createAnonymousContext_run by assumption. cbn zeta.
    fold h h1 t. now rewrite Hlen. }
  split; [exact Hwf1|]. split; [exact Hcl1|]. split; [exact Hready1|].
  split; [now apply context_objs_wf|].
  split; [|split; [now apply app_ready_app|]].
  - apply heap_closed_app; [assumption|].
    apply context_objs_closed; try assumption;
      cbn [value_closed]; apply Nat.ltb_lt; lia.
  - rewrite length_app, Hlen. unfold t, context_objs. cbn [length]. lia.
Qed.

Lemma anon_request_link h req k :
  merged_key k = true ->
  own_get (PStr k) (a_request (anon_final h req)) =
  Some (VRef (length h + merged_index k)).
Proof.
  intros Hk.
  now apply (anon_linked_fold (length h) h req (override_keys h req)
               (anon_defaults (length h)) (anon_linked_defaults (length h))).
Qed.

Lemma hget_hset_root h l ps x k v k' :
  h !! l = Some (mkObj None Plain ps) -> x <> l ->
  hget (hset h x k v) l k' = hget h l k'.
Proof.
  intros Hl Hx. rewrite (hget_plain_root h l ps k' Hl).
  apply hget_plain_root. unfold hset. destruct (h !! x); [|exact Hl].
  now rewrite list_lookup_insert_ne.
Qed.

(** X4: every anonymous context gets a request of its own.  Two calls of
    [createAnonymousContext] leave everything that existed before untouched
    (the overrides are read, never written), and their requests and the
    [headers], [query] and [socket] of these are distinct new objects: a
    write to such a sub-object of one context is not seen through the
    other. *)
Theorem anonymous_requests_separate w app req1 req2 :
  proto_wf (w_heap w) -> heap_closed (w_heap w) ->
  app_ready (w_heap w) app = true ->
  value_closed (length (w_heap w)) req1 = true ->
  value_closed (length (w_heap w)) req2 = true ->
  is_nonempty_string req1 = false -> is_nonempty_string req2 = false ->
  (forall k, merged_key k = true ->
             is_nonempty_string (read (w_heap w) req1 k) = false /\
             is_nonempty_string (read (w_heap w) req2 k) = false) ->
  exists w1 c1 w2 c2 r1 r2,
    createAnonymousContext app req1 w = (w1, Ok c1) /\
    createAnonymousContext app req2 w1 = (w2, Ok c2) /\
    (exists t, w_heap w2 = w_heap w ++ t) /\
    w_trace w2 = w_trace w /\ w_listeners w2 = w_listeners w /\
    let h2 := w_heap w2 in
    read h2 c1 "req" = VRef r1 /\ read h2 c2 "req" = VRef r2 /\
    length (w_heap w) <= r1 /\ r1 < r2 /\
    forall k, merged_key k = true ->
      exists d1 d2,
        read h2 (VRef r1) (PStr k) = VRef d1 /\
        read h2 (VRef r2) (PStr k) = VRef d2 /\
        length (w_heap w) <= d1 /\ d1 < d2 /\
        forall s v s',
          read (hset h2 d1 s v) (VRef d2) s' = read h2 (VRef d2) s' /\
          read (hset h2 d2 s v) (VRef d1) s' = read h2 (VRef d1) s'.
Proof.
  intros Hwf Hcl Hready Hreq1 Hreq2 _ _ _.
  destruct (createAnonymousContext_result w app req1 Hwf Hcl Hready Hreq1)
    as (Hrun1 & _ & _ & _ & HwfA & HclA & HreadyA & HlenA).
  set (h := w_heap w) in *. set (n := length h) in *.
  set (h1 := anon_heap h req1) in *.
  set (t1 := context_objs h1 (w_now w) app (VRef (n + 3)) (VRef (n + 4))) in *.
  set (hA := h1 ++ t1) in *.
  assert (Hreq2A : value_closed (length hA) req2 = true)
    by (apply (value_closed_mono n); [lia|assumption]).
  destruct (createAnonymousContext_result (set_heap w hA) app req2
              HwfA HclA HreadyA Hreq2A)
    as (Hrun2 & _ & _ & _ & _ & _ & _ & HlenB).
  cbn [w_heap set_heap w_now] in Hrun2, HlenB.
  set (h2 := anon_heap hA req2) in *.
  set (t2 := context_objs h2 (w_now w) app (VRef (length hA + 3))
               (VRef (length hA + 4))) in *.
  set (hB := h2 ++ t2) in *.
  assert (Hlen1 : length h1 = n + 5) by apply anon_heap_length.
  assert (Hlen2 : length h2 = length hA + 5) by apply anon_heap_length.
  (* the objects of the two calls in the final heap *)
  assert (HobjA : forall i, i < 4 ->
            hB !! (n + i) = Some (mkObj None Plain (anon_at i (anon_final h req1)))).
  { intros i Hi. unfold hB, h2, anon_heap, hA.
    do 3 apply lookup_app_l_Some. now apply anon_heap_lookup. }
  assert (HobjB : forall i, i < 4 ->
            hB !! (length hA + i) =
            Some (mkObj None Plain (anon_at i (anon_final hA req2)))).
  { intros i Hi. unfold hB. apply lookup_app_l_Some.
    now apply anon_heap_lookup. }
  assert (HctxA : hget hB (n + 5) "req" = VRef (n + 3)).
  { eapply hget_own;
      [ unfold hB, h2, anon_heap; do 2 apply lookup_app_l_Some;
        unfold hA; rewrite <- Hlen1, lookup_fresh0; reflexivity
      | reflexivity ]. }
  assert (HctxB : hget hB (length hA + 5) "req" = VRef (length hA + 3)).
  { eapply hget_own;
      [ unfold hB; rewrite <- Hlen2, lookup_fresh0; reflexivity
      | reflexivity ]. }
  exists (set_heap w hA), (VRef (n + 5)), (set_heap (set_heap w hA) hB),
         (VRef (length hA + 5)), (n + 3), (length hA + 3).
  split; [exact Hrun1|]. split; [exact Hrun2|].
  cbn [w_heap set_heap w_trace w_listeners read]. split.
  { eexists. unfold hB, h2, anon_heap, hA, h1, anon_heap.
    rewrite <- !app_assoc. reflexivity. }
  split; [reflexivity|]. split; [reflexivity|].
  split; [exact HctxA|]. split; [exact HctxB|].
  split; [lia|]. split; [lia|].
  intros k Hk. pose proof (merged_index_lt k) as Hi.
  exists (n + merged_index k), (length hA + merged_index k).
  split; [|split; [|split; [lia|split; [lia|]]]].
  - rewrite (hget_plain_root _ _ _ _ (HobjA 3 ltac:(lia))). cbn [anon_at].
    now rewrite anon_request_link.
  - rewrite (hget_plain_root _ _ _ _ (HobjB 3 ltac:(lia))). cbn [anon_at].
    now rewrite anon_request_link.
  - intros s v s'. split.
    + eapply hget_hset_root; [apply HobjB; lia|lia].
    + eapply hget_hset_root; [apply HobjA; lia|lia].
Qed.

Lemma anonymous_requests_separate_witness :
  let w := sample_override_world in
  let app := sample_app in
  exists w1 c1 w2 c2 r1 r2,
    createAnonymousContext app sample_override w = (w1, Ok c1) /\
    createAnonymousContext app VUndef w1 = (w2, Ok c2) /\
    (exists t, w_heap w2 = w_heap w ++ t) /\
    w_trace w2 = w_trace w /\ w_listeners w2 = w_listeners w /\
    let h2 := w_heap w2 in
    read h2 c1 "req" = VRef r1 /\ read h2 c2 "req" = VRef r2 /\
    length (w_heap w) <= r1 /\ r1 < r2 /\
    forall k, merged_key k = true ->
      exists d1 d2,
        read h2 (VRef r1) (PStr k) = VRef d1 /\
        read h2 (VRef r2) (PStr k) = VRef d2 /\
        length (w_heap w) <= d1 /\ d1 < d2 /\
        forall s v s',
          read (hset h2 d1 s v) (VRef d2) s' = read h2 (VRef d2) s' /\
          read (hset h2 d2 s v) (VRef d1) s' = read h2 (VRef d1) s'.
Proof.
  apply (anonymous_requests_separate sample_override_world sample_app
           sample_override VUndef);
    [ reflexivity | reflexivity | reflexivity | reflexivity | reflexivity
    | reflexivity | reflexivity | ].
  intros k Hk.
  destruct (merged_key_cases k Hk) as [-> | [-> | ->]]; split; reflexivity.
Defined.

(** X5: the context [createAnonymousContext] returns is built on the
    synthetic request.  Its [req] is the new request and its [res] the new
    response, on all facets; its [originalUrl], and that of its request
    facet, is the [url] of the synthetic request: the [url] the overrides
    read when they list one, and ['/'] otherwise. *)
Theorem anonymous_context_links w app req :
  proto_wf (w_heap w) -> heap_closed (w_heap w) ->
  app_ready (w_heap w) app = true ->
  value_closed (length (w_heap w)) req = true ->
  is_nonempty_string req = false ->
  exists w' ctx r s url,
    createAnonymousContext app req w = (w', Ok ctx) /\
    let h := w_heap w in
    let h' := w_heap w' in
    read h' ctx "req" = VRef r /\ read h' ctx "res" = VRef s /\
    length h <= r /\ length h <= s /\ r <> s /\
    read h' ctx "app" = app /\
    read h' (read h' ctx "request") "req" = VRef r /\
    read h' (read h' ctx "response") "res" = VRef s /\
    read h' (VRef r) "url" = url /\
    read h' ctx "originalUrl" = url /\
    read h' (read h' ctx "request") "originalUrl" = url /\
    (listed h req "url" -> url = read h req "url") /\
    (~ listed h req "url" -> url = VStr "/") /\
    (truthy req = false -> url = VStr "/").
Proof.
  intros Hwf Hcl Hready Hreq _.
  destruct (createAnonymousContext_result w app req Hwf Hcl Hready Hreq)
    as (Hrun & Hwf1 & _ & _ & _ & _ & _ & _).
  set (h := w_heap w) in *. set (n := length h) in *.
  set (h1 := anon_heap h req) in *.
  set (t := context_objs h1 (w_now w) app (VRef (n + 3)) (VRef (n + 4))) in *.
  assert (Hlen1 : length h1 = n + 5) by apply anon_heap_length.
  assert (Hurl1 : hget h1 (n + 3) "url" = replaced_value h req "url").
  { rewrite (hget_plain_root _ _ _ _ (anon_heap_lookup h req 3 ltac:(lia))).
    cbn [anon_at]. unfold anon_final.
    rewrite fold_request_lookup by reflexivity. unfold replaced_value.
    now destruct (bool_decide ("url" ∈ override_keys h req)). }
  assert (Hrq : hget (h1 ++ t) (length h1) "request" = VRef (length h1 + 1))
    by own_read.
  assert (Hrs : hget (h1 ++ t) (length h1) "response" = VRef (length h1 + 2))
    by own_read.
  exists (set_heap w (h1 ++ t)), (VRef (n + 5)), (n + 3), (n + 4),
         (replaced_value h req "url").
  split; [exact Hrun|]. cbn zeta. cbn [w_heap set_heap read].
  rewrite <- Hlen1. rewrite Hrq, Hrs.
  split; [own_read|]. split; [own_read|].
  split; [lia|]. split; [lia|]. split; [lia|].
  split; [own_read|]. split; [own_read|]. split; [own_read|].
  split.
  { rewrite <- Hurl1. apply hget_old; [exact Hwf1|lia]. }
  split; [rewrite <- Hurl1; own_read|].
  split; [rewrite <- Hurl1; own_read|].
  unfold replaced_value. split; [|split].
  - intros Hl. rewrite bool_decide_eq_true_2; [reflexivity|].
    now apply override_keys_listed.
  - intros Hl. rewrite bool_decide_eq_false_2; [reflexivity|].
    intros Hin. apply Hl. now apply override_keys_listed.
  - intros Ht. unfold override_keys. now rewrite Ht.
Qed.

Lemma anonymous_context_links_witness :
  let h := sample_heap ++ [mkObj None Plain [(PStr "url", VStr "/tick")]] in
  let w := mkWorld h 1700000000000 [] [] 0 in
  exists w' ctx r s,
    createAnonymousContext sample_app (VRef 8) w = (w', Ok ctx) /\
    let h' := w_heap w' in
    read h' ctx "req" = VRef r /\ read h' ctx "res" = VRef s /\
    length h <= r /\ length h <= s /\ r <> s /\
    read h' ctx "app" = sample_app /\
    read h' (read h' ctx "request") "req" = VRef r /\
    read h' (read h' ctx "response") "res" = VRef s /\
    read h' (VRef r) "url" = VStr "/tick" /\
    read h' ctx "originalUrl" = VStr "/tick" /\
    read h' (read h' ctx "request") "originalUrl" = VStr "/tick".
Proof.
  intros h w.
  destruct (anonymous_context_links w sample_app (VRef 8))
    as (w' & ctx & r & s & url & Hrun & H);
    [reflexivity | reflexivity | reflexivity | reflexivity | reflexivity |].
  cbn zeta in H.
  destruct H as (H1 & H2 & H3 & H4 & H5 & H6 & H7 & H8 & H9 & H10 & H11 &
                 Hl & _).
  assert (Hurl : url = VStr "/tick").
  { rewrite Hl; [reflexivity|].
    eapply has_own; [reflexivity|]. now eexists. }
  rewrite Hurl in H9, H10, H11.
  exists w', ctx, r, s. split; [exact Hrun|]. cbn zeta.
  repeat (split; [assumption|]). assumption.
Defined.

(** ** Splitting and trimming *)

Lemma split_on_length c s : length (split_on c s) = S (count_char c s).
Proof.
  induction s as [|a s IH]; [reflexivity|].
  cbn [split_on count_char]. destruct (Ascii.eqb a c).
  - cbn [length]. now rewrite IH.
  - destruct (split_on c s) as [|x xs]; [discriminate|]. exact IH.
Qed.

Lemma strip_prefix_spec p : forall s s',
  strip_prefix p s = Some s' <-> s = p ++ s'.
Proof.
  induction p as [|a p IH]; intros s s'.
  - cbn. split; congruence.
  - destruct s as [|b s]; cbn [strip_prefix].
    + split; discriminate.
    + destruct (Nat.eqb a b) eqn:E.
      * apply Nat.eqb_eq in E as ->. rewrite IH. cbn. split; congruence.
      * apply Nat.eqb_neq in E. split; [discriminate|]. cbn. congruence.
Qed.

Lemma strip_any_some ps s s' :
  strip_any ps s = Some s' -> exists p, In p ps /\ s = p ++ s'.
Proof.
  induction ps as [|p ps IH]; [discriminate|]. cbn [strip_any].
  destruct (strip_prefix p s) as [r|] eqn:E.
  - intros [= ->]. apply strip_prefix_spec in E. exists p. split; [now left|auto].
  - intros H. destruct (IH H) as (q & Hq & Hs). exists q. split; [now right|auto].
Qed.

Lemma strip_any_none ps s :
  strip_any ps s = None <-> Forall (fun p => ~ p `prefix_of` s) ps.
Proof.
  induction ps as [|p ps IH]; cbn [strip_any].
  - split; [constructor|reflexivity].
  - destruct (strip_prefix p s) as [r|] eqn:E.
    + split; [discriminate|]. intros H. apply Forall_cons in H as [Hp _].
      exfalso. apply Hp. exists r. now apply strip_prefix_spec.
    + rewrite IH. split.
      * intros H. constructor; [|exact H]. intros [r Hr].
        apply strip_prefix_spec in Hr. congruence.
      * intros H. now apply Forall_cons in H as [_ H].
Qed.

Lemma strip_all_suffix ps n : forall s, strip_all n ps s `suffix_of` s.
Proof.
  induction n as [|n IH]; intros s; cbn [strip_all]; [reflexivity|].
  destruct (strip_any ps s) as [s'|] eqn:E; [|reflexivity].
  destruct (strip_any_some _ _ _ E) as (p & _ & ->).
  etrans; [apply IH|]. now apply suffix_app_r.
Qed.

Lemma strip_all_done ps n :
  Forall (fun p => p <> []) ps ->
  forall s, length s <= n -> strip_any ps (strip_all n ps s) = None.
Proof.
  intros Hne. induction n as [|n IH]; intros s Hs; cbn [strip_all].
  - destruct s; [|cbn in Hs; lia].
    apply strip_any_none. eapply Forall_impl; [exact Hne|].
    intros p Hp [r Hr]. symmetry in Hr. apply app_eq_nil in Hr as [? _].
    contradiction.
  - destruct (strip_any ps s) as [s'|] eqn:E; [|exact E].
    destruct (strip_any_some _ _ _ E) as (p & Hin & ->).
    apply IH. rewrite Forall_forall in Hne.
    assert (p <> []) by (apply Hne; now apply list_elem_of_In).
    rewrite length_app in Hs. destruct p; [contradiction|]. cbn in Hs. lia.
Qed.

Lemma bytes_of_bounded s : Forall (fun b => b < 256) (bytes_of s).
Proof.
  unfold bytes_of. apply Forall_forall. intros b Hb.
  apply list_elem_of_In, in_map_iff in Hb as (a & <- & _).
  apply nat_ascii_bounded.
Qed.

Lemma bytes_of_utf8 l : Forall (fun b => b < 256) l -> bytes_of (utf8 l) = l.
Proof.
  intros Hl. unfold bytes_of, utf8.
  rewrite list_ascii_of_string_of_list_ascii, map_map.
  induction Hl as [|b l Hb Hl IH]; [reflexivity|].
  cbn [map]. rewrite IH. f_equal. now apply nat_ascii_embedding.
Qed.

Lemma bytes_of_length s : length (bytes_of s) = String.length s.
Proof.
  unfold bytes_of. rewrite length_map.
  induction s as [|a s IH]; [reflexivity|]. cbn. now rewrite IH.
Qed.

Lemma trim_no_space_around s : no_space_around (trim s).
Proof.
  unfold trim, no_space_around.
  set (front := strip_all (String.length s) js_whitespace (bytes_of s)).
  set (back := strip_all (String.length s) (map (@rev nat) js_whitespace)
                 (rev front)).
  assert (Hfs : front `suffix_of` bytes_of s) by apply strip_all_suffix.
  assert (Hbs : back `suffix_of` rev front) by apply strip_all_suffix.
  assert (Hflen : length front <= String.length s).
  { rewrite <- bytes_of_length. now apply suffix_length. }
  assert (Hfront : strip_any js_whitespace front = None).
  { apply strip_all_done; [|now rewrite bytes_of_length].
    repeat constructor; discriminate. }
  assert (Hback : strip_any (map (@rev nat) js_whitespace) back = None).
  { apply strip_all_done; [|now rewrite length_rev].
    repeat constructor; discriminate. }
  assert (Hbytes : bytes_of (utf8 (rev back)) = rev back).
  { apply bytes_of_utf8. destruct Hfs as [pre Hpre], Hbs as [pre' Hpre'].
    pose proof (bytes_of_bounded s) as Hall. rewrite Hpre in Hall.
    apply Forall_app in Hall as [_ Hall].
    apply Forall_rev in Hall. rewrite Hpre' in Hall.
    apply Forall_app in Hall as [_ Hall]. now apply Forall_rev. }
  rewrite Hbytes.
  rewrite strip_any_none in Hfront, Hback.
  rewrite Forall_forall in Hfront, Hback. apply Forall_forall.
  intros p Hp. split.
  - intros [r Hr]. apply (Hfront p Hp).
    destruct Hbs as [pre Hpre].
    apply (f_equal (@rev nat)) in Hpre. rewrite rev_involutive, rev_app_distr in Hpre.
    exists (r ++ rev pre). rewrite Hpre, Hr. now rewrite app_assoc.
  - intros [r Hr]. apply (Hback (rev p)).
    + apply list_elem_of_fmap. now exists p.
    + exists (rev r). apply (f_equal (@rev nat)) in Hr.
      rewrite rev_involutive, rev_app_distr in Hr. exact Hr.
Qed.

(** ** More on the [keys] accessor *)

Lemma get_keys_array `{Platform} w a c oa s :
  w_heap w !! a = Some oa -> kind oa = Plain ->
  hget (w_heap w) a "config" = VRef c ->
  truthy (hget (w_heap w) a KEYS) = false ->
  hget (w_heap w) c "keys" = VStr s -> s <> "" ->
  exists w',
    get_keys (VRef a) w = (w', Ok (VRef (length (w_heap w)))) /\
    array_elems (w_heap w') (VRef (length (w_heap w))) =
      Some (map (fun x => VStr (trim x)) (split_on "," s)).
Proof.
  intros Ha Hk Hc Ht Hs Hne.
  pose proof (get_keys_first w a c oa s Ha Hk Hc Ht Hs Hne) as Hrun.
  cbn zeta in Hrun. eexists. split; [exact Hrun|].
  assert (Hlt : a < length (w_heap w)) by (eapply lookup_lt_Some; eauto).
  unfold array_elems, hkind. cbn [w_heap set_heap]. unfold hset.
  rewrite lookup_app_l, Ha by assumption.
  rewrite list_lookup_insert_ne by lia. now rewrite lookup_fresh0.
Qed.

(** X6: [app.keys] holds one key for each comma-separated segment of
    [config.keys]: one more than there are commas, so never none. *)
Theorem keys_one_per_segment `{Platform} w a c oa s :
  w_heap w !! a = Some oa -> kind oa = Plain ->
  hget (w_heap w) a "config" = VRef c ->
  truthy (hget (w_heap w) a KEYS) = false ->
  hget (w_heap w) c "keys" = VStr s -> s <> "" ->
  exists w' arr es,
    get_keys (VRef a) w = (w', Ok arr) /\
    array_elems (w_heap w') arr = Some es /\
    length es = S (count_char "," s).
Proof.
  intros Ha Hk Hc Ht Hs Hne.
  destruct (get_keys_array w a c oa s Ha Hk Hc Ht Hs Hne) as (w' & Hrun & Harr).
  exists w', (VRef (length (w_heap w))),
         (map (fun x => VStr (trim x)) (split_on "," s)).
  split; [exact Hrun|]. split; [exact Harr|].
  rewrite length_map. apply split_on_length.
Qed.

Lemma keys_one_per_segment_witness :
  exists w' arr es,
    @get_keys sample_platform (VRef 5) sample_world = (w', Ok arr) /\
    array_elems (w_heap w') arr = Some es /\
    length es = S (count_char "," "a, b ,c").
Proof.
  apply (@keys_one_per_segment sample_platform sample_world 5 4
           (mkObj None Plain
              [(PStr "context", VRef 1); (PStr "request", VRef 2);
               (PStr "response", VRef 3); (PStr "config", VRef 4)])
           "a, b ,c");
    [ reflexivity | reflexivity | reflexivity | reflexivity | reflexivity
    | discriminate ].
Defined.

(** X7: no key of [app.keys] starts or ends with white space: every
    element of the list is a string that none of the white-space characters
    and line terminators of the language begins or ends. *)
Theorem keys_trimmed `{Platform} w a c oa s :
  w_heap w !! a = Some oa -> kind oa = Plain ->
  hget (w_heap w) a "config" = VRef c ->
  truthy (hget (w_heap w) a KEYS) = false ->
  hget (w_heap w) c "keys" = VStr s -> s <> "" ->
  exists w' arr es,
    get_keys (VRef a) w = (w', Ok arr) /\
    array_elems (w_heap w') arr = Some es /\
    Forall (fun v => exists k, v = VStr k /\ no_space_around k) es.
Proof.
  intros Ha Hk Hc Ht Hs Hne.
  destruct (get_keys_array w a c oa s Ha Hk Hc Ht Hs Hne) as (w' & Hrun & Harr).
  exists w', (VRef (length (w_heap w))),
         (map (fun x => VStr (trim x)) (split_on "," s)).
  split; [exact Hrun|]. split; [exact Harr|].
  apply Forall_forall. intros v Hv.
  apply list_elem_of_In, in_map_iff in Hv as (x & <- & _).
  exists (trim x). split; [reflexivity|apply trim_no_space_around].
Qed.

Lemma keys_trimmed_witness :
  exists w' arr es,
    @get_keys sample_platform (VRef 5) sample_world = (w', Ok arr) /\
    array_elems (w_heap w') arr = Some es /\
    Forall (fun v => exists k, v = VStr k /\ no_space_around k) es.
Proof.
  apply (@keys_trimmed sample_platform sample_world 5 4
           (mkObj None Plain
              [(PStr "context", VRef 1); (PStr "request", VRef 2);
               (PStr "response", VRef 3); (PStr "config", VRef 4)])
           "a, b ,c");
    [ reflexivity | reflexivity | reflexivity | reflexivity | reflexivity
    | discriminate ].
Defined.

(** X8: a [config.keys] that is set but is not a string (a number, [true],
    an array or another object without a [split] member) makes the accessor
    throw a [TypeError]; nothing is cached or printed, so every later access
    fails in the same way. *)
Theorem keys_not_a_string `{Platform} w a c :
  hget (w_heap w) a "config" = VRef c ->
  truthy (hget (w_heap w) a KEYS) = false ->
  let ks := hget (w_heap w) c "keys" in
  truthy ks = true -> (forall s, ks <> VStr s) ->
  read (w_heap w) ks "split" = VUndef ->
  exists e,
    get_keys (VRef a) w = (w, Throw e) /\ ename e = "TypeError".
Proof.
  intros Hc Ht ks Hks Hstr _. unfold get_keys.
  erewrite bind_run by (apply run_get; reflexivity).
  cbn [read]. rewrite Ht.
  assert (Hsplit : exists e, split_and_trim ks w = (w, Throw e) /\
                             ename e = "TypeError").
  { destruct ks eqn:E; try discriminate; cbn; eauto.
    exfalso. now apply (Hstr s). }
  destruct Hsplit as (e & Hsplit & He). exists e. split; [|exact He].
  erewrite bind_throw; [reflexivity|].
  erewrite bind_run by (eapply run_config_of; exact Hc).
  fold ks. rewrite Hks, bind_ret.
  erewrite bind_run by (eapply run_config_of; exact Hc).
  fold ks. erewrite bind_throw; [reflexivity|exact Hsplit].
Qed.

Lemma keys_not_a_string_witness :
  let w := set_heap sample_world (hset sample_heap 4 "keys" (VNum 42)) in
  exists e,
    @get_keys sample_platform (VRef 5) w = (w, Throw e) /\
    ename e = "TypeError".
Proof.
  intros w.
  apply (@keys_not_a_string sample_platform w 5 4);
    [ reflexivity | reflexivity | reflexivity | discriminate | reflexivity ].
Defined.

(** X9: the guidance relies on [config.baseDir].  On a developer's machine
    ([env] is [local] or [unittest]) without [config.keys], a [baseDir] that
    is not a string makes [path.join] throw: the accessor fails with a
    [TypeError], not with its own error, and prints nothing. *)
Theorem keys_guidance_needs_baseDir `{Platform} w a c :
  hget (w_heap w) a "config" = VRef c ->
  truthy (hget (w_heap w) a KEYS) = false ->
  truthy (hget (w_heap w) c "keys") = false ->
  local_env (hget (w_heap w) c "env") = true ->
  (forall b, hget (w_heap w) c "baseDir" <> VStr b) ->
  exists e,
    get_keys (VRef a) w = (w, Throw e) /\ ename e = "TypeError" /\
    e <> Error "Please set config.keys first".
Proof.
  intros Hc Ht Hks Hl Hb.
  exists (TypeError "The path argument must be of type string").
  split; [|split; [reflexivity|discriminate]].
  unfold get_keys.
  erewrite bind_run by (apply run_get; reflexivity).
  cbn [read]. rewrite Ht.
  erewrite bind_throw; [reflexivity|].
  erewrite bind_run by (eapply run_config_of; exact Hc).
  rewrite Hks.
  erewrite bind_throw; [reflexivity|].
  erewrite bind_run by (eapply run_is_local_env; exact Hc).
  rewrite Hl.
  erewrite bind_throw; [reflexivity|].
  erewrite bind_run by (eapply run_config_of; exact Hc).
  erewrite bind_throw; [reflexivity|].
  unfold path_join_call.
  destruct (hget (w_heap w) c "baseDir") eqn:E; try reflexivity.
  exfalso. now apply (Hb s).
Qed.

Lemma keys_guidance_needs_baseDir_witness :
  let w := set_heap sample_local_world
             (hset sample_local_heap 4 "baseDir" VUndef) in
  exists e,
    @get_keys sample_platform (VRef 5) w = (w, Throw e) /\
    ename e = "TypeError" /\ e <> Error "Please set config.keys first".
Proof.
  intros w.
  apply (@keys_guidance_needs_baseDir sample_platform w 5 4);
    [ reflexivity | reflexivity | reflexivity | reflexivity | discriminate ].
Defined.

(** ** Missing arguments and missing configuration *)

(** X10: [onClientError] reads the socket and the error before it does
    anything else.  With an error or a socket that is [undefined] or [null]
    it throws a [TypeError] and nothing has happened: no log record, no
    reply on the socket, the socket is not closed. *)
Theorem onClientError_needs_both w app err socket :
  nullish err = true \/ nullish socket = true ->
  exists e,
    onClientError app err socket w = (w, Throw e) /\ ename e = "TypeError".
Proof.
  intros Hnull. unfold onClientError.
  destruct (nullish socket) eqn:Hs.
  { exists (TypeError "Cannot read property of undefined or null").
    split; [|reflexivity].
    erewrite bind_throw; [reflexivity|]. unfold get_prop. now rewrite Hs. }
  destruct Hnull as [He|]; [|discriminate].
  do 2 (erewrite bind_run by (apply run_get; exact Hs)).
  exists (TypeError "Cannot read property of undefined or null").
  split; [|reflexivity].
  erewrite bind_throw; [reflexivity|]. unfold get_prop. now rewrite He.
Qed.

Lemma onClientError_needs_both_witness :
  exists e,
    onClientError sample_app VUndef (VRef 8)
      (mkWorld sample_socket_heap 0 [] [] 0) =
      (mkWorld sample_socket_heap 0 [] [] 0, Throw e) /\
    ename e = "TypeError".
Proof.
  apply (onClientError_needs_both (mkWorld sample_socket_heap 0 [] [] 0)
           sample_app VUndef (VRef 8)).
  left. reflexivity.
Defined.

(** X11: [warnConfusedConfig] needs the mapping.  When
    [config.confusedConfigurations] is [undefined] or [null], [Object.keys]
    throws a [TypeError]; nothing is logged. *)
Theorem warnConfusedConfig_needs_mapping w a c :
  hget (w_heap w) a "config" = VRef c ->
  nullish (hget (w_heap w) c "confusedConfigurations") = true ->
  exists e,
    warnConfusedConfig (VRef a) w = (w, Throw e) /\ ename e = "TypeError".
Proof.
  intros Hc Hm. unfold warnConfusedConfig.
  erewrite bind_run by (eapply run_config_of; exact Hc).
  exists (TypeError "Cannot convert undefined or null to object").
  split; [|reflexivity].
  erewrite bind_throw; [reflexivity|]. unfold Object_keys.
  destruct (hget (w_heap w) c "confusedConfigurations"); try discriminate;
    reflexivity.
Qed.

Lemma warnConfusedConfig_needs_mapping_witness :
  let w := mkWorld (hset sample_confused_heap 1 "confusedConfigurations" VUndef)
             0 [] [] 0 in
  exists e,
    warnConfusedConfig (VRef 2) w = (w, Throw e) /\ ename e = "TypeError".
Proof.
  intros w. apply (warnConfusedConfig_needs_mapping w 2 1); reflexivity.
Defined.

(** X12: the reads [dumpConfig] makes before its [try] block are not
    protected.  Once the superclass has dumped the configuration, a missing
    [config], [loader] or [loader.FileLoader] makes [dumpConfig] throw a
    [TypeError]: no snapshot is written and no warning is logged. *)
Theorem dumpConfig_unprotected_reads `{Platform} `{Framework} w w1 a :
  super_dumpConfig (VRef a) w = (w1, Ok tt) ->
  let h := w_heap w1 in
  nullish (hget h a "config") = true \/
  nullish (hget h a "loader") = true \/
  nullish (read h (hget h a "loader") "FileLoader") = true ->
  exists e,
    dumpConfig (VRef a) w = (w1, Throw e) /\ ename e = "TypeError".
Proof.
  intros Hsuper h Hmiss. unfold dumpConfig.
  erewrite bind_run by exact Hsuper.
  exists (TypeError "Cannot read property of undefined or null").
  split; [|reflexivity].
  destruct (nullish (hget h a "config")) eqn:Hc.
  { erewrite bind_throw; [reflexivity|]. unfold config_of.
    erewrite bind_run by (apply run_get; reflexivity).
    cbn [read]. fold h. unfold get_prop. now rewrite Hc. }
  erewrite bind_run.
  2: { unfold config_of. erewrite bind_run by (apply run_get; reflexivity).
       cbn [read]. fold h. apply run_get. exact Hc. }
  erewrite bind_run by (apply run_get; reflexivity).
  cbn [read]. fold h.
  destruct (nullish (hget h a "loader")) eqn:Hl.
  { erewrite bind_throw; [reflexivity|]. unfold get_prop. now rewrite Hl. }
  erewrite bind_run by (apply run_get; exact Hl). fold h.
  destruct Hmiss as [Hm | [Hm | Hm]]; try discriminate.
  erewrite bind_throw; [reflexivity|]. unfold get_prop. now rewrite Hm.
Qed.

Lemma dumpConfig_unprotected_reads_witness :
  let w := set_heap sample_router_world
             (hset sample_router_heap 10 "FileLoader" VUndef) in
  exists e,
    @dumpConfig sample_platform sample_framework (VRef 17) w =
      (add_events w [EvSuperDumpConfig], Throw e) /\
    ename e = "TypeError".
Proof.
  intros w.
  apply (@dumpConfig_unprotected_reads sample_platform sample_framework w
           (add_events w [EvSuperDumpConfig]) 17); [reflexivity|].
  right. right. reflexivity.
Defined.

(** ** What [dumpConfig] leaves in the trace *)

Lemma quiet_get_any n v k :
  quiet n (get_prop v k) (fun _ => True) any_error.
Proof.
  eapply quiet_weaken; [apply quiet_get_prop|auto|]. now intros.
Qed.

Lemma quiet_ToString `{Platform} n v :
  quiet n (ToString v) (fun _ => True) any_error.
Proof.
  apply quiet_pure. intros w. split; [apply ToString_pure|].
  now destruct (ToString v w).2.
Qed.

Lemma quiet_toString_call `{Platform} n v :
  quiet n (toString_call v) (fun _ => True) any_error.
Proof.
  destruct v; cbn [toString_call];
    try (now apply quiet_throw); try (now apply quiet_ret);
    (eapply quiet_bind; [apply quiet_ToString|]; intros; now apply quiet_ret).
Qed.

Lemma quiet_to_pkey `{Platform} n v :
  quiet n (to_pkey v) (fun _ => True) any_error.
Proof.
  destruct v; cbn [to_pkey]; try (now apply quiet_ret);
    (eapply quiet_bind; [apply quiet_ToString|]; intros; now apply quiet_ret).
Qed.

Lemma quiet_handler_id n key s :
  quiet n (handler_id key s) (fun _ => True) any_error.
Proof.
  unfold handler_id.
  eapply quiet_bind; [apply quiet_get_any|]. intros a _.
  destruct (truthy a); [now apply quiet_ret|].
  eapply quiet_bind; [apply quiet_get_any|]. intros b _.
  destruct (truthy b); [now apply quiet_ret|].
  eapply quiet_bind; [apply quiet_get_any|]. intros c _.
  destruct (truthy c); now apply quiet_ret.
Qed.

Lemma quiet_Array_map {Q : value -> Prop} n arr (f : value -> M value) :
  (forall x, quiet n (f x) Q any_error) ->
  quiet n (Array_map arr f) (fresh_ref n) any_error.
Proof.
  intros Hf. destruct arr; cbn [Array_map]; try (now apply quiet_throw).
  eapply quiet_bind.
  { apply (quiet_pure n _ (fun _ => True)). intros w. now split. }
  intros kd _. destruct kd as [[]|]; try (now apply quiet_throw).
  eapply quiet_bind; [apply quiet_mapM; intros; apply Hf|].
  intros ys _. apply quiet_alloc.
Qed.

Lemma quiet_Array_push n arr x :
  fresh_ref n arr -> quiet n (Array_push arr x) (fun _ => True) any_error.
Proof.
  intros (l & -> & Hl) w Hn. exists []. rewrite app_nil_r.
  unfold Array_push.
  assert (Hsame : kept n w w /\ w_trace w = w_trace w /\
                  [] = ([] : list event) /\ any_error (TypeError ""))
    by (split; [apply kept_refl|repeat split]).
  destruct (w_heap w !! l) as [o|]; [|exact Hsame].
  destruct (kind o); try exact Hsame.
  cbn [fst snd set_heap w_trace].
  split; [|split; [reflexivity|split; [reflexivity|exact I]]].
  apply kept_set_heap; [now apply take_insert_ge|].
  now rewrite length_insert.
Qed.

Lemma quiet_dump_layer `{Platform} n fp routers layer :
  fresh_ref n routers ->
  quiet n (dump_layer fp routers layer) (fun _ => True) any_error.
Proof.
  intros Hr. unfold dump_layer.
  do 5 (eapply quiet_bind; [apply quiet_get_any|]; intros ? _).
  eapply quiet_bind; [apply quiet_toString_call|]. intros regexp _.
  eapply quiet_bind; [apply quiet_get_any|]. intros handlers _.
  eapply quiet_bind.
  { apply (@quiet_Array_map (fun _ => True)). intros s.
    eapply quiet_bind; [apply quiet_to_pkey|]. intros key _.
    apply quiet_handler_id. }
  intros stack _.
  eapply quiet_bind; [apply quiet_alloc|]. intros entry _.
  now apply quiet_Array_push.
Qed.

Lemma frames_writeFileSync `{Platform} n d text :
  frames n (writeFileSync (VStr (path_join [d; "router.json"])) text)
    (router_dump_events (VStr d)).
Proof.
  intros w Hn. unfold writeFileSync.
  destruct (fs_writeFileSync _ text) as [e|].
  - exists []. cbn. rewrite app_nil_r. auto using kept_refl.
  - exists [EvWriteFile (path_join [d; "router.json"]) text]. cbn.
    split; [unfold kept; cbn; auto|]. split; [reflexivity|]. eauto.
Qed.

Lemma frames_dump_routers `{Platform} n app rundir fp :
  frames n (dump_routers app rundir fp) (router_dump_events rundir).
Proof.
  unfold dump_routers, path_join_call.
  destruct rundir as [| |b|z|d|s|l];
    cbn [strings_of fmap option_fmap option_map];
    try (eapply frames_after_quiet;
         [apply (quiet_throw n _ (fun _ : value => False) any_error); exact I
         | intros ? [] | reflexivity ]).
  eapply frames_after_quiet;
    [apply (quiet_ret n _ (fun v => v = VStr (path_join [d; "router.json"]))
              any_error); reflexivity | | reflexivity].
  intros file ->.
  eapply frames_after_quiet; [apply (quiet_alloc n _ any_error)| |reflexivity].
  intros routers Hr.
  eapply frames_after_quiet; [apply quiet_get_any| |reflexivity].
  intros router _.
  eapply frames_after_quiet; [apply quiet_get_any| |reflexivity].
  intros layers_v _.
  eapply frames_after_quiet; [| |reflexivity].
  { apply (quiet_pure n _ (fun _ => True) any_error). intros w.
    split; [|now destruct (iterate layers_v w).2].
    unfold iterate. destruct layers_v; try reflexivity.
    now destruct (kind <$> w_heap w !! l) as [[]|]. }
  intros layers _.
  eapply frames_after_quiet; [| |reflexivity].
  { apply quiet_forM. intros layer _. now apply quiet_dump_layer. }
  intros _ _.
  eapply frames_after_quiet; [| |reflexivity].
  { apply (quiet_pure n _ (fun _ => True) any_error). intros w.
    split; [reflexivity|]. now destruct (lift_outcome _ w).2. }
  intros text _. apply frames_writeFileSync.
Qed.

Lemma run_dumpConfig_kept `{Platform} `{Framework} w w1 a c lo fl :
  super_dumpConfig (VRef a) w = (w1, Ok tt) ->
  let h := w_heap w1 in
  let rundir := hget h c "rundir" in
  let FULLPATH := hget h fl "FULLPATH" in
  hget h a "config" = VRef c -> hget h a "loader" = VRef lo ->
  hget h lo "FileLoader" = VRef fl ->
  exists w' out,
    dumpConfig (VRef a) w = (w', out) /\
    kept (length h) w1 w' /\
    match out with
    | Ok v =>
        v = VUndef /\
        exists ev,
          w_trace w' = w_trace w1 ++ [ev] /\
          ((exists d text,
              rundir = VStr d /\
              ev = EvWriteFile (path_join [d; "router.json"]) text) \/
           (exists w2 e msg,
              dump_routers (VRef a) rundir FULLPATH w1 = (w2, Throw e) /\
              caught_message e w2 = (w2, Ok msg) /\
              ev = router_warning msg))
    | Throw e' =>
        w_trace w' = w_trace w1 /\
        exists w2 e,
          dump_routers (VRef a) rundir FULLPATH w1 = (w2, Throw e) /\
          caught_message e w2 = (w2, Throw e')
    end.
Proof.
  intros Hsuper h rundir FULLPATH Hc Hlo Hfl.
  pose proof (run_dumpConfig w w1 a c lo fl Hsuper Hc Hlo Hfl) as Hrun.
  cbn zeta in Hrun. fold h rundir FULLPATH in Hrun.
  destruct (frames_dump_routers (length h) (VRef a) rundir FULLPATH w1 (le_n _))
    as (es & Hk & Ht & Hr).
  unfold router_dump_events in Hr.
  destruct (dump_routers _ _ _ w1) as [w2 [[]|e]] eqn:Hd; cbn [fst snd] in *.
  - destruct Hr as (d & text & Hdir & ->).
    exists w2, (Ok VUndef). split; [exact Hrun|]. split; [exact Hk|].
    split; [reflexivity|]. eexists. split; [exact Ht|]. left; eauto.
  - subst es. rewrite app_nil_r in Ht.
    pose proof (run_caught_message e w2) as Hmsg.
    destruct (caught_message e w2).2 as [msg|e'].
    + exists (add_events w2 [router_warning msg]), (Ok VUndef).
      split; [exact Hrun|]. split; [exact Hk|]. split; [reflexivity|].
      exists (router_warning msg). cbn [w_trace add_events].
      split; [now rewrite Ht|]. right. now exists w2, e, msg.
    + exists w2, (Throw e'). split; [exact Hrun|]. split; [exact Hk|].
      split; [exact Ht|]. now exists w2, e.
Qed.

(** X13: [dumpConfig] leaves at most one mark of the router dump.  Once the
    superclass has dumped the configuration and [config] and
    [loader.FileLoader] are there, a call that returns has added exactly one
    event to the trace: the write of [router.json] in [config.rundir], or
    the warning with the message of the failure; never both and never none.
    A call that throws has added none, and it throws only what reading and
    printing the message of the caught failure throws; so it returns when
    the snapshot was written and when the failure is an error object.
    Whatever the router holds, no object that existed before is modified and
    no listener changes. *)
Theorem dumpConfig_one_event `{Platform} `{Framework} w w1 a c lo fl :
  super_dumpConfig (VRef a) w = (w1, Ok tt) ->
  let h := w_heap w1 in
  let rundir := hget h c "rundir" in
  let FULLPATH := hget h fl "FULLPATH" in
  hget h a "config" = VRef c -> hget h a "loader" = VRef lo ->
  hget h lo "FileLoader" = VRef fl ->
  exists w' out,
    dumpConfig (VRef a) w = (w', out) /\
    (exists t, w_heap w' = h ++ t) /\
    w_listeners w' = w_listeners w1 /\
    match out with
    | Ok v =>
        v = VUndef /\
        exists ev,
          w_trace w' = w_trace w1 ++ [ev] /\
          ((exists d text,
              rundir = VStr d /\
              ev = EvWriteFile (path_join [d; "router.json"]) text) \/
           (exists w2 e msg,
              dump_routers (VRef a) rundir FULLPATH w1 = (w2, Throw e) /\
              caught_message e w2 = (w2, Ok msg) /\
              ev = router_warning msg))
    | Throw e' =>
        w_trace w' = w_trace w1 /\
        exists w2 e,
          dump_routers (VRef a) rundir FULLPATH w1 = (w2, Throw e) /\
          caught_message e w2 = (w2, Throw e')
    end /\
    (forall w2,
       dump_routers (VRef a) rundir FULLPATH w1 = (w2, Ok tt) ->
       out = Ok VUndef) /\
    (forall w2 name msg,
       dump_routers (VRef a) rundir FULLPATH w1 = (w2, Throw (mkErr name msg)) ->
       out = Ok VUndef /\
       w_trace w' = w_trace w1 ++ [router_warning msg]).
Proof.
  intros Hsuper h rundir FULLPATH Hc Hlo Hfl.
  destruct (run_dumpConfig_kept w w1 a c lo fl Hsuper Hc Hlo Hfl)
    as (w' & out & Hrun & Hk & Hout).
  fold h rundir FULLPATH in Hk, Hout.
  exists w', out. split; [exact Hrun|].
  split; [now apply (kept_heap (length h))|]. split; [apply Hk|].
  split; [exact Hout|].
  pose proof (run_dumpConfig w w1 a c lo fl Hsuper Hc Hlo Hfl) as Hrun'.
  cbn zeta in Hrun'. fold h rundir FULLPATH in Hrun'.
  split.
  - intros w2 Hd. rewrite Hd, Hrun in Hrun'. congruence.
  - intros w2 name msg Hd. rewrite Hd, Hrun in Hrun'. cbn in Hrun'.
    injection Hrun' as -> ->. split; [reflexivity|].
    cbn [w_trace add_events]. f_equal.
    destruct (frames_dump_routers (length h) (VRef a) rundir FULLPATH w1
                (le_n _)) as (es & _ & Ht & Hr).
    rewrite Hd in Ht, Hr. cbn in Ht, Hr. subst es.
    now rewrite app_nil_r in Ht.
Qed.

Lemma dumpConfig_one_event_witness :
  let h := sample_router_heap in
  (exists w',
     @dumpConfig readonly_platform sample_framework (VRef 17)
       sample_router_world = (w', Ok VUndef) /\
     w_trace w' =
       [EvSuperDumpConfig; router_warning "EACCES: permission denied"] /\
     (exists t, w_heap w' = h ++ t) /\ w_listeners w' = []) /\
  (exists w' e,
     @dumpConfig throwing_platform sample_framework (VRef 17)
       sample_throwing_world = (w', Throw e) /\
     w_trace w' = [EvSuperDumpConfig] /\
     (exists t, w_heap w' = hset h 6 "regexp" (VRef 15) ++ t) /\
     w_listeners w' = []).
Proof.
  intros h. split.
  - destruct (@dumpConfig_one_event readonly_platform sample_framework
                sample_router_world
                (add_events sample_router_world [EvSuperDumpConfig]) 17 11 10 9)
      as (w' & out & Hrun & Hheap & Hls & _ & _ & Herr);
      [reflexivity | reflexivity | reflexivity | reflexivity |].
    destruct (Herr (set_heap (add_events sample_router_world [EvSuperDumpConfig])
                      (h ++ router_snapshot h (PSym "EGG_LOADER_ITEM_FULLPATH")
                              [VRef 6]))
                "Error" "EACCES: permission denied" eq_refl) as [-> Ht].
    exists w'. split; [exact Hrun|]. split; [exact Ht|].
    split; [exact Hheap|exact Hls].
  - destruct (@dumpConfig_one_event throwing_platform sample_framework
                sample_throwing_world
                (add_events sample_throwing_world [EvSuperDumpConfig]) 17 11 10 9)
      as (w' & out & Hrun & Hheap & Hls & Hout & _ & _);
      [reflexivity | reflexivity | reflexivity | reflexivity |].
    destruct out as [v|e].
    + exfalso. vm_compute in Hrun. discriminate.
    + exists w', e. split; [exact Hrun|]. split; [apply Hout|].
      split; [exact Hheap|exact Hls].
Defined.

(** ** More on [locals] *)

(** X14: assigning something that is not an object to [app.locals] changes
    nothing.  With [undefined], [null], a boolean, a number, a symbol or the
    empty string the setter returns and the bag, like everything else, is as
    it was: the locals cannot be reset by assignment. *)
Theorem locals_ignore_non_objects w a b ps val :
  locals_ready (w_heap w) a b ps ->
  (forall l, val <> VRef l) -> is_nonempty_string val = false ->
  set_locals (VRef a) val w = (w, Ok VUndef) /\
  get_locals (VRef a) w = (w, Ok (VRef b)).
Proof.
  intros Hready Hval Hstr.
  destruct (run_get_locals_ready w a b ps Hready) as [Hinit Hget].
  split; [|exact Hget].
  unfold set_locals. erewrite bind_run by exact Hinit.
  erewrite bind_run.
  2: { rewrite run_get by reflexivity. cbn [read].
       now rewrite (locals_ready_read _ _ _ _ Hready). }
  erewrite bind_run; [reflexivity|].
  unfold utility_assign.
  erewrite bind_run.
  2: { instantiate (1 := [val]). instantiate (1 := w).
       destruct val; try reflexivity. exfalso. now apply (Hval l). }
  cbn [forM]. unfold assign_one.
  destruct val; try reflexivity.
  - now destruct b0.
  - cbn [truthy]. now destruct (Z.eqb n 0).
  - cbn [is_nonempty_string] in Hstr. cbn [truthy]. now rewrite Hstr.
  - exfalso. now apply (Hval l).
Qed.

Lemma locals_ignore_non_objects_witness :
  let w := mkWorld sample_locals_ready_heap 0 [] [] 0 in
  set_locals (VRef 0) VNull w = (w, Ok VUndef) /\
  get_locals (VRef 0) w = (w, Ok (VRef 3)).
Proof.
  apply (locals_ignore_non_objects
           (mkWorld sample_locals_ready_heap 0 [] [] 0) 0 3 [] VNull);
    [ exists (mkObj None Plain [(PStr "name", VStr "demo"); (LOCALS, VRef 3)]);
      repeat split; lia
    | discriminate | reflexivity ].
Defined.

Lemma locals_ready_hset h a b ps x k v :
  locals_ready h a b ps -> x <> a -> x <> b ->
  locals_ready (hset h x k v) a b ps.
Proof.
  intros (oa & Ha & Hk & Hslot & Hb & Hab) Hxa Hxb. exists oa.
  unfold hset. destruct (h !! x); [|auto].
  rewrite !list_lookup_insert_ne by assumption. auto.
Qed.

(** X15: the bag is a copy.  [app.locals = obj] copies the properties of
    [obj] into the application's own bag, which is another object than
    [obj]: every string key of [obj] reads in the bag the value [obj] holds
    for it, the other keys of the bag read what they did; a later write to
    [obj] changes nothing in the locals, and the getter still returns the
    same bag. *)
Theorem locals_keep_own_copy w a b ps l ol :
  locals_ready (w_heap w) a b ps ->
  w_heap w !! l = Some ol -> l <> b -> l <> a -> kind ol = Plain ->
  exists w1,
    set_locals (VRef a) (VRef l) w = (w1, Ok VUndef) /\
    get_locals (VRef a) w1 = (w1, Ok (VRef b)) /\
    (forall key v,
       own_get (PStr key) (props ol) = Some v ->
       read (w_heap w1) (VRef b) (PStr key) = v) /\
    (forall key,
       own_get (PStr key) (props ol) = None ->
       read (w_heap w1) (VRef b) (PStr key) =
       read (w_heap w) (VRef b) (PStr key)) /\
    forall k v w2,
      set_prop (VRef l) k v w1 = (w2, Ok tt) ->
      get_locals (VRef a) w2 = (w2, Ok (VRef b)) /\
      forall k', read (w_heap w2) (VRef b) k' = read (w_heap w1) (VRef b) k'.
Proof.
  intros Hready Hl Hlb Hla Hkind.
  assert (Harr : is_array ol = false) by (unfold is_array; now rewrite Hkind).
  destruct (run_set_locals w a b ps l ol Hready Hl Hlb Harr) as [Hrun Hready1].
  set (h1 := <[b := mkObj None Plain (merge_into (own_pairs ol) ps)]> (w_heap w))
    in *.
  exists (set_heap w h1). split; [exact Hrun|].
  split; [now apply (run_get_locals_ready (set_heap w h1) a b _ Hready1)|].
  pose proof Hready1 as (_ & _ & _ & _ & Hbag & _).
  pose proof Hready as (_ & _ & _ & _ & Hbag0 & _).
  assert (Hread : forall key,
            hget h1 b (PStr key) =
            match own_get (PStr key) (props ol) with
            | Some v => v
            | None => default VUndef (own_get (PStr key) ps)
            end).
  { intros key. rewrite (hget_plain_root _ _ _ _ Hbag).
    now apply own_pairs_read. }
  split; [|split].
  - intros key v Hv. cbn [w_heap set_heap read]. now rewrite Hread, Hv.
  - intros key Hv. cbn [w_heap set_heap read]. rewrite Hread, Hv.
    now rewrite (hget_plain_root _ _ _ _ Hbag0).
  - intros k v w2 [= <-]. cbn [w_heap set_heap].
    assert (Hready2 : locals_ready (hset h1 l k v) a b
                        (merge_into (own_pairs ol) ps))
      by now apply locals_ready_hset.
    split.
    + now apply (run_get_locals_ready (set_heap (set_heap w h1) _) a b _ Hready2).
    + intros k'. cbn [read]. eapply hget_hset_root; [exact Hbag|exact Hlb].
Qed.

Lemma locals_keep_own_copy_witness :
  let w := mkWorld sample_locals_ready_heap 0 [] [] 0 in
  exists w1,
    set_locals (VRef 0) (VRef 1) w = (w1, Ok VUndef) /\
    get_locals (VRef 0) w1 = (w1, Ok (VRef 3)) /\
    read (w_heap w1) (VRef 3) "title" = VStr "egg" /\
    read (w_heap w1) (VRef 3) "lang" = VStr "en" /\
    read (w_heap w1) (VRef 3) "theme" = VUndef /\
    forall w2,
      set_prop (VRef 1) "title" (VStr "changed") w1 = (w2, Ok tt) ->
      get_locals (VRef 0) w2 = (w2, Ok (VRef 3)) /\
      read (w_heap w2) (VRef 3) "title" = VStr "egg".
Proof.
  intros w.
  destruct (locals_keep_own_copy w 0 3 [] 1
              (mkObj None Plain [(PStr "title", VStr "egg"); (PStr "lang", VStr "en")]))
    as (w1 & Hset & Hget & Hcopy & Hrest & Hlater);
    [ exists (mkObj None Plain [(PStr "name", VStr "demo"); (LOCALS, VRef 3)]);
      repeat split; lia
    | reflexivity | lia | lia | reflexivity | ].
  exists w1. split; [exact Hset|]. split; [exact Hget|].
  split; [exact (Hcopy "title" _ eq_refl)|].
  split; [exact (Hcopy "lang" _ eq_refl)|].
  split; [exact (Hrest "theme" eq_refl)|].
  intros w2 Hw2. destruct (Hlater _ _ _ Hw2) as [Hget2 Hsame].
  split; [exact Hget2|]. rewrite Hsame. exact (Hcopy "title" _ eq_refl).
Defined.

(** ** Listeners that fail *)

(** X16: the [server] hook is spent even when it fails.  If the first
    [server] event carries something that is not an object, [onServer]
    throws out of [emit]; the listener registered with [once] is gone all
    the same, so a later [server] event finds no listener and the
    [clientError] handler is never installed. *)
Theorem server_hook_spent_on_failure `{Platform} w app srv :
  no_listener "server" w -> (forall l, srv <> VRef l) ->
  let w1 := (BIND_EVENTS app w).1 in
  exists w2 e,
    emit "server" [srv] w1 = (w2, Throw e) /\
    no_listener "server" w2 /\
    forall srv', emit "server" [srv'] w2 = (w2, Ok false).
Proof.
  intros Hno Hsrv w1.
  assert (Hl : w_listeners w1 =
               (w_listeners w ++
                [mkReg (w_next_id w) "cookieLimitExceed" false
                   (LCookieLimitExceed app)]) ++
               [mkReg (S (w_next_id w)) "server" true (LOnServer app)])
    by reflexivity.
  set (w2 := add_events (drop_listener w1 (S (w_next_id w))) [EvGraceful srv]).
  assert (Hthrow : exists e,
            server_on srv "clientError" w2 = (w2, Throw e)).
  { destruct srv; cbn; eauto. exfalso. now apply (Hsrv l). }
  destruct Hthrow as [e He].
  assert (Hno2 : no_listener "server" w2).
  { unfold no_listener, w2, w1.
    cbn [w_listeners add_events drop_listener BIND_EVENTS fst bindM on once
         add_listener ret w_next_id].
    apply Forall_forall. intros r Hr.
    apply list_elem_of_filter in Hr as [Hid Hr].
    rewrite !elem_of_app, !list_elem_of_singleton in Hr.
    destruct Hr as [[Hr | ->] | ->].
    - unfold no_listener in Hno. rewrite Forall_forall in Hno. auto.
    - discriminate.
    - cbn in Hid. contradiction. }
  exists w2, e. split; [|split; [exact Hno2|]].
  - unfold emit. erewrite bind_run by reflexivity. rewrite Hl.
    rewrite !filter_app, (filter_event_none "server" _ Hno).
    rewrite filter_cons_False, filter_nil by discriminate.
    rewrite filter_cons_True, filter_nil by reflexivity.
    cbn [List.app forM reg_once reg_fn reg_id run_listener hd].
    erewrite bind_throw; [reflexivity|].
    erewrite bind_throw; [reflexivity|].
    erewrite bind_run by reflexivity.
    erewrite bind_throw; [reflexivity|].
    unfold onServer.
    erewrite bind_run.
    2: { unfold emit_event. reflexivity. }
    erewrite bind_throw; [reflexivity|].
    replace (add_event (drop_listener w1 (S (w_next_id w))) (EvGraceful srv))
      with w2 by reflexivity.
    exact He.
  - intros srv'. now apply run_emit_none.
Qed.

Lemma server_hook_spent_on_failure_witness :
  let w1 := (BIND_EVENTS (VRef 4) sample_events_world).1 in
  exists w2 e,
    @emit sample_platform "server" [VUndef] w1 = (w2, Throw e) /\
    no_listener "server" w2 /\
    forall srv', @emit sample_platform "server" [srv'] w2 = (w2, Ok false).
Proof.
  apply (@server_hook_spent_on_failure sample_platform sample_events_world
           (VRef 4) VUndef); [apply Forall_nil_2|discriminate].
Defined.

(** X17: the [cookieLimitExceed] listener needs the cookie's value.  A
    payload whose [value] is [undefined] or [null] makes the listener, and
    with it [emit], throw a [TypeError] when the length is read; no error
    object has been made and nothing is logged, and the listener stays
    registered. *)
Theorem cookie_listener_needs_value `{Platform} w app id p nm :
  filter (fun r => reg_event r = "cookieLimitExceed") (w_listeners w) =
    [mkReg id "cookieLimitExceed" false (LCookieLimitExceed app)] ->
  hget (w_heap w) p "name" = VStr nm ->
  nullish (hget (w_heap w) p "value") = true ->
  exists e,
    emit "cookieLimitExceed" [VRef p] w = (w, Throw e) /\
    ename e = "TypeError".
Proof.
  intros Hf Hname Hval.
  exists (TypeError "Cannot read property of undefined or null").
  split; [|reflexivity].
  unfold emit. erewrite bind_run by reflexivity.
  rewrite Hf. cbn [forM reg_once reg_fn run_listener hd].
  erewrite bind_throw; [reflexivity|].
  erewrite bind_throw; [reflexivity|].
  rewrite bind_ret.
  erewrite bind_throw; [reflexivity|].
  unfold onCookieLimitExceed.
  do 3 (erewrite bind_run by (apply run_get; reflexivity)).
  cbn [read]. rewrite Hname. cbn [ToString]. rewrite bind_ret.
  erewrite bind_throw; [reflexivity|].
  unfold get_prop. now rewrite Hval.
Qed.

Lemma cookie_listener_needs_value_witness :
  let w := set_heap (BIND_EVENTS (VRef 4) sample_events_world).1
             (hset sample_events_heap 3 "value" VUndef) in
  exists e,
    @emit sample_platform "cookieLimitExceed" [VRef 3] w = (w, Throw e) /\
    ename e = "TypeError".
Proof.
  intros w.
  apply (@cookie_listener_needs_value sample_platform w (VRef 4) 0 3 "sid");
    reflexivity.
Defined.

(** ** The constructor *)

(** X18: the constructor takes an object or nothing.  Called with [null],
    or with a boolean, a number, a string or a symbol, it throws a
    [TypeError] when it sets [type], before the superclass constructor runs:
    the world is as it was. *)
Theorem constructor_rejects_options `{Platform} `{Framework} options w :
  typed_options options w = None ->
  exists e,
    Application_new options w = (w, Throw e) /\ ename e = "TypeError".
Proof.
  unfold typed_options, Application_new.
  destruct options; try discriminate; intros _;
    unfold strict_eq; rewrite bool_decide_eq_false_2 by discriminate;
    rewrite bind_ret; eexists; (split; [reflexivity|reflexivity]).
Qed.

Lemma constructor_rejects_options_witness :
  exists e,
    @Application_new sample_platform sample_framework VNull
      sample_router_world = (sample_router_world, Throw e) /\
    ename e = "TypeError".
Proof.
  apply (@constructor_rejects_options sample_platform sample_framework VNull
           sample_router_world).
  reflexivity.
Defined.

(** X19: a failure of the superclass constructor or of the loader is the
    failure of the constructor: the same exception, in the world the failing
    step left.  Nothing is dumped, no warning is logged and no listener is
    registered after it. *)
Theorem constructor_rethrows `{Platform} `{Framework} options w wa options' :
  typed_options options w = Some (wa, options') ->
  (forall wb e,
     super_constructor options' wa = (wb, Throw e) ->
     Application_new options w = (wb, Throw e)) /\
  (forall wb this wc e,
     super_constructor options' wa = (wb, Ok this) ->
     loader_load this wb = (wc, Throw e) ->
     Application_new options w = (wc, Throw e)).
Proof.
  intros Hopt. rewrite (run_typed_options options w wa options' Hopt).
  split.
  - intros wb e Hsuper. now erewrite bind_throw by exact Hsuper.
  - intros wb this wc e Hsuper Hload.
    erewrite bind_run by exact Hsuper.
    erewrite bind_throw; [reflexivity|].
    unfold try_catch. now rewrite Hload.
Qed.

Lemma constructor_rethrows_witness :
  let w := sample_router_world in
  let wa := set_heap w (sample_router_heap ++
                        [mkObj None Plain [(PStr "type", VStr "application")]]) in
  (forall wb e,
     @super_constructor failing_framework (VRef 18) wa = (wb, Throw e) ->
     @Application_new sample_platform failing_framework VUndef w =
       (wb, Throw e)) /\
  (forall wb this wc e,
     @super_constructor failing_framework (VRef 18) wa = (wb, Ok this) ->
     @loader_load failing_framework this wb = (wc, Throw e) ->
     @Application_new sample_platform failing_framework VUndef w =
       (wc, Throw e)).
Proof.
  intros w wa.
  apply (@constructor_rethrows sample_platform failing_framework VUndef w wa
           (VRef 18)).
  reflexivity.
Defined.

(** When the loader of the sample fails, the constructor fails with the
    loader's error; the router is not dumped and no listener is registered. *)
Example constructor_sample_failure :
  let r := @Application_new sample_platform failing_framework VUndef
             sample_router_world in
  snd r = Throw (Error "plugin not found") /\
  w_trace (fst r) = [] /\ w_listeners (fst r) = [].
Proof. vm_compute. repeat split. Qed.

Lemma kept_agree n w w' :
  kept n w w' -> agree_below n (w_heap w) (w_heap w').
Proof.
  intros (Ht & _) l Hl.
  rewrite <- (lookup_take_lt (w_heap w) n l), <- (lookup_take_lt (w_heap w') n l)
    by assumption.
  now rewrite Ht.
Qed.

Lemma confused_warnings_agree n h h' c m keys :
  proto_wf h -> agree_below n h h' -> c < n -> m < n ->
  confused_warnings h' c m keys = confused_warnings h c m keys.
Proof.
  intros Hwf Hag Hc Hm. unfold confused_warnings.
  induction keys as [|key keys IH]; [reflexivity|].
  cbn [flat_map]. rewrite IH. f_equal. unfold confused_warning.
  now rewrite <- (hget_agree n h h' c), <- (hget_agree n h h' m).
Qed.

(** X20: a router dump that fails with an error does not stop the
    application from starting.  When the superclass constructor, the loader
    and the dump of the configuration have returned and the configuration,
    the loader and the mapping of deprecated keys are in place, and whatever
    the dump of the router throws has a message that can be read and
    printed, the constructor returns the application: the trace gains the
    one event of the dump (the write or the warning) and the warnings on
    deprecated keys, and the two listeners are registered last.  When the
    message of the failure cannot be read, the constructor throws what
    reading it throws, in the world the dump left: no warning, no
    listener. *)
Theorem constructor_completes `{Platform} `{Framework}
    options w wa options' wb wc wd a c lo fl m om :
  typed_options options w = Some (wa, options') ->
  super_constructor options' wa = (wb, Ok (VRef a)) ->
  loader_load (VRef a) wb = (wc, Ok tt) ->
  super_dumpConfig (VRef a) wc = (wd, Ok tt) ->
  let h := w_heap wd in
  let rundir := hget h c "rundir" in
  let FULLPATH := hget h fl "FULLPATH" in
  proto_wf h ->
  hget h a "config" = VRef c -> hget h a "loader" = VRef lo ->
  hget h lo "FileLoader" = VRef fl ->
  hget h c "confusedConfigurations" = VRef m -> h !! m = Some om ->
  ((forall w2 e,
      dump_routers (VRef a) rundir FULLPATH wd = (w2, Throw e) ->
      exists msg, caught_message e w2 = (w2, Ok msg)) ->
   exists w' ev,
     Application_new options w = (w', Ok (VRef a)) /\
     w_trace w' =
       w_trace wd ++
       ev :: confused_warnings h c m (string_keys (enumerable_own om)) /\
     ((exists d text,
         rundir = VStr d /\
         ev = EvWriteFile (path_join [d; "router.json"]) text) \/
      (exists msg, ev = router_warning msg)) /\
     w_listeners w' = w_listeners wd ++ bound_listeners (w_next_id wd) (VRef a)) /\
  (forall w2 e e',
     dump_routers (VRef a) rundir FULLPATH wd = (w2, Throw e) ->
     caught_message e w2 = (w2, Throw e') ->
     Application_new options w = (w2, Throw e') /\
     w_trace w2 = w_trace wd /\ w_listeners w2 = w_listeners wd).
Proof.
  intros Hopt Hsuper Hload Hdump h rundir FULLPATH Hwf Hc Hlo Hfl Hm Hom.
  destruct (run_dumpConfig_kept wc wd a c lo fl Hdump Hc Hlo Hfl)
    as (w2 & out & Hrun & Hk & Hout).
  fold h rundir FULLPATH in Hk, Hout.
  assert (Hnew : Application_new options w =
                 (do _ <- (fun _ => (w2, out)) ;
                  exec warnConfusedConfig (VRef a) ;
                  exec BIND_EVENTS (VRef a) ;
                  ret (VRef a)) wd).
  { rewrite (run_typed_options options w wa options' Hopt).
    erewrite bind_run by exact Hsuper.
    erewrite bind_run by (unfold try_catch; rewrite Hload; reflexivity).
    unfold bindM at 1. rewrite Hrun. reflexivity. }
  split.
  - intros Hmsg. destruct out as [v|e'].
    2: { destruct Hout as (_ & w3 & e & Hd & Hthrow).
         destruct (Hmsg w3 e Hd) as [msg Hok]. congruence. }
    destruct Hout as (-> & ev & Ht & Hev).
    pose proof (kept_agree _ _ _ Hk) as Hag.
    assert (Ha : a < length h)
      by (apply (hget_allocated h a "config"); congruence).
    assert (Hcl : c < length h)
      by (apply (hget_allocated h c "confusedConfigurations"); congruence).
    assert (Hml : m < length h) by (eapply lookup_lt_Some; eauto).
    assert (Hc2 : hget (w_heap w2) a "config" = VRef c)
      by (rewrite <- (hget_agree (length h) h) by assumption; exact Hc).
    assert (Hm2 : hget (w_heap w2) c "confusedConfigurations" = VRef m)
      by (rewrite <- (hget_agree (length h) h) by assumption; exact Hm).
    assert (Hom2 : w_heap w2 !! m = Some om)
      by (rewrite <- Hag by assumption; exact Hom).
    set (ws := confused_warnings h c m (string_keys (enumerable_own om))).
    assert (Hwarn : warnConfusedConfig (VRef a) w2 =
                    (add_events w2 ws, Ok VUndef)).
    { unfold warnConfusedConfig.
      erewrite bind_run by (eapply run_config_of; exact Hc2).
      rewrite Hm2. unfold Object_keys at 1.
      erewrite bind_run by (cbn [nullish]; rewrite Hom2; reflexivity).
      erewrite bind_run by (eapply run_warn_confused_loop; exact Hc2).
      unfold ws.
      now rewrite (confused_warnings_agree (length h) h (w_heap w2)). }
    exists (BIND_EVENTS (VRef a) (add_events w2 ws)).1, ev.
    split; [|split; [|split]].
    + rewrite Hnew. erewrite bind_run by reflexivity.
      erewrite bind_run by exact Hwarn. reflexivity.
    + cbn. rewrite Ht. now rewrite <- app_assoc.
    + destruct Hev as [Hev | (w3 & e & msg & _ & _ & ->)]; [now left|].
      right. now exists msg.
    + destruct Hk as (_ & _ & _ & Hls & Hid). cbn.
      rewrite Hls, Hid. unfold bound_listeners. now rewrite <- app_assoc.
  - intros w3 e e' Hd Hthrow. destruct out as [v|e''].
    + destruct Hout as (_ & ev & _ & [(d & text & _ & _) | Hev]).
      * pose proof (frames_dump_routers (length h) (VRef a) rundir FULLPATH wd
                      (le_n _)) as (es & _ & Ht' & Hr).
        pose proof (run_dumpConfig wc wd a c lo fl Hdump Hc Hlo Hfl) as Hrun'.
        cbn zeta in Hrun'. fold h rundir FULLPATH in Hrun'.
        rewrite Hd, Hthrow in Hrun'. cbn in Hrun'. congruence.
      * destruct Hev as (w4 & e2 & msg & Hd' & Hok & _). congruence.
    + destruct Hout as (Ht & w4 & e2 & Hd' & Hthrow').
      assert (w4 = w3 /\ e2 = e) as [-> ->] by (split; congruence).
      assert (e'' = e') as -> by congruence.
      pose proof (run_dumpConfig wc wd a c lo fl Hdump Hc Hlo Hfl) as Hrun'.
      cbn zeta in Hrun'. fold h rundir FULLPATH in Hrun'.
      rewrite Hd, Hthrow in Hrun'. cbn in Hrun'.
      assert (w2 = w3) as -> by congruence.
      split; [|split; [exact Ht|apply Hk]].
      rewrite Hnew. reflexivity.
Qed.

Lemma constructor_completes_witness :
  let w := set_heap sample_router_world
             (hset sample_router_heap 11 "bodyparser" (VStr "on")) in
  exists w',
    @Application_new readonly_platform sample_framework VUndef w =
      (w', Ok (VRef 17)) /\
    w_trace w' =
      [ EvLoaderLoad; EvSuperDumpConfig;
        router_warning "EACCES: permission denied";
        EvLog AppLogger LWarn
          [ VStr "Unexpected config key `%s` exists, Please use `%s` instead.";
            VStr "bodyparser"; VStr "bodyParser" ] ] /\
    w_listeners w' = bound_listeners 0 (VRef 17).
Proof.
  intros w.
  pose (h := hset sample_router_heap 11 "bodyparser" (VStr "on") ++
             [mkObj None Plain [(PStr "type", VStr "application")]]).
  pose (wd := add_events (set_heap w h) [EvLoaderLoad; EvSuperDumpConfig]).
  destruct (@constructor_completes readonly_platform sample_framework VUndef w
              (set_heap w h) (VRef 18) (set_heap w h)
              (add_events (set_heap w h) [EvLoaderLoad]) wd 17 11 10 9 12
              (mkObj None Plain [(PStr "bodyparser", VStr "bodyParser")])
              eq_refl eq_refl eq_refl eq_refl eq_refl eq_refl eq_refl eq_refl
              eq_refl eq_refl)
    as [Hreturns _].
  destruct Hreturns as (w' & ev & Hrun & Ht & Hev & Hls).
  - intros w2 e Hd. vm_compute in Hd. injection Hd as <- <-.
    eexists. reflexivity.
  - exists w'. split; [exact Hrun|]. split; [|exact Hls].
    rewrite Ht. vm_compute in Hrun. injection Hrun as <-.
    vm_compute in Ht. injection Ht as <-. reflexivity.
Defined.

(** ** The hook for uncaught exceptions *)

Lemma hget_hset_other_key h x o k v k' :
  proto_wf h -> h !! x = Some o -> kind o = Plain -> k' <> k ->
  hget (hset h x k v) x k' = hget h x k'.
Proof.
  intros Hwf Hx Hk Hne.
  rewrite (hget_unfold (hset h x k v)) by now apply proto_wf_hset.
  rewrite (hget_unfold h x) by assumption.
  unfold hset at 1. rewrite Hx.
  rewrite list_lookup_insert_eq by (eapply lookup_lt_Some; eauto).
  unfold with_props. rewrite own_lookup_set_ne by assumption.
  destruct (own_lookup k' o); [reflexivity|]. cbn [proto].
  destruct (proto o) as [p|] eqn:Hp; [|reflexivity].
  pose proof (proto_wf_lookup h x o p Hwf Hx Hp).
  apply (hget_hset_below x); auto.
Qed.

(** X21: the hook [onServer] gives to [graceful] reports every uncaught
    exception once on the core logger.  An error object with a message gets
    the count of uncaught exceptions and the process id appended to the
    message, and nothing else changes; an error without message, and a
    thrown value that is not an object, is reported as it is; for a thrown
    [undefined] or [null] the hook itself throws a [TypeError] and reports
    nothing. *)
Theorem graceful_error_reports `{Platform} w app pid e oe count :
  proto_wf (w_heap w) ->
  w_heap w !! e = Some oe -> kind oe = Plain ->
  let h := w_heap w in
  let report v := EvLog AppCoreLogger LError [v] in
  (forall msg n,
     hget h e "message" = VStr msg -> msg <> "" -> count = VNum n ->
     let msg' := VStr (msg +:+ uncaught_suffix n pid) in
     graceful_error app pid (VRef e) count w =
       (add_events (set_heap w (hset h e "message" msg')) [report (VRef e)],
        Ok VUndef) /\
     hget (hset h e "message" msg') e "message" = msg' /\
     forall k, k <> PStr "message" ->
               hget (hset h e "message" msg') e k = hget h e k) /\
  (truthy (hget h e "message") = false ->
   graceful_error app pid (VRef e) count w =
     (add_events w [report (VRef e)], Ok VUndef)) /\
  (forall v,
     (forall l, v <> VRef l) ->
     if nullish v
     then exists err,
            graceful_error app pid v count w = (w, Throw err) /\
            ename err = "TypeError"
     else graceful_error app pid v count w =
            (add_events w [report v], Ok VUndef)).
Proof.
  intros Hwf He Hk h report. split; [|split].
  - intros msg n Hmsg Hne -> msg'. split; [|split].
    + unfold graceful_error.
      erewrite bind_run by (apply run_get; reflexivity).
      cbn [read]. fold h. rewrite Hmsg. cbn [truthy].
      rewrite string_eqb_nonempty by assumption.
      erewrite bind_run.
      2: { erewrite bind_run by (apply run_get; reflexivity).
           cbn [read ToString]. fold h. rewrite Hmsg.
           rewrite !bind_ret. reflexivity. }
      reflexivity.
    + eapply hget_hset_same; eauto.
    + intros k Hkm. now apply (hget_hset_other_key h e oe).
  - intros Ht. unfold graceful_error.
    erewrite bind_run by (apply run_get; reflexivity).
    cbn [read]. fold h. rewrite Ht. reflexivity.
  - intros v Hv. destruct v as [| |b|z|s|s|l]; cbn [nullish].
    + eexists. split; reflexivity.
    + eexists. split; reflexivity.
    + reflexivity.
    + reflexivity.
    + reflexivity.
    + reflexivity.
    + exfalso. now apply (Hv l).
Qed.

Lemma graceful_error_reports_witness :
  let w := mkWorld sample_uncaught_heap 0 [] [] 0 in
  let h := sample_uncaught_heap in
  let app := VRef 1 in
  let pid := 4242%Z in
  let count := VNum 2 in
  let graceful_error := @graceful_error sample_platform in
  let report v := EvLog AppCoreLogger LError [v] in
  (forall msg n,
     hget h 0 "message" = VStr msg -> msg <> "" -> count = VNum n ->
     let msg' := VStr (msg +:+ uncaught_suffix n pid) in
     graceful_error app pid (VRef 0) count w =
       (add_events (set_heap w (hset h 0 "message" msg')) [report (VRef 0)],
        Ok VUndef) /\
     hget (hset h 0 "message" msg') 0 "message" = msg' /\
     forall k, k <> PStr "message" ->
               hget (hset h 0 "message" msg') 0 k = hget h 0 k) /\
  (truthy (hget h 0 "message") = false ->
   graceful_error app pid (VRef 0) count w =
     (add_events w [report (VRef 0)], Ok VUndef)) /\
  (forall v,
     (forall l, v <> VRef l) ->
     if nullish v
     then exists err,
            graceful_error app pid v count w = (w, Throw err) /\
            ename err = "TypeError"
     else graceful_error app pid v count w =
            (add_events w [report v], Ok VUndef)).
Proof.
  apply (@graceful_error_reports sample_platform
           (mkWorld sample_uncaught_heap 0 [] [] 0) (VRef 1) 4242%Z 0
           (mkObj None Plain [(PStr "name", VStr "Error");
                              (PStr "message", VStr "boom")])
           (VNum 2));
    reflexivity.
Defined.

(** The message of the sample error after the second uncaught exception in
    process 4242. *)
Example uncaught_sample :
  let r := @graceful_error sample_platform (VRef 1) 4242 (VRef 0) (VNum 2)
             (mkWorld sample_uncaught_heap 0 [] [] 0) in
  snd r = Ok VUndef /\
  w_trace (fst r) = [EvLog AppCoreLogger LError [VRef 0]] /\
  read (w_heap (fst r)) (VRef 0) "message" =
    VStr "boom (uncaughtException throw 2 times on pid:4242)" /\
  read (w_heap (fst r)) (VRef 0) "name" = VStr "Error".
Proof. vm_compute. repeat split. Qed.

(** ** The identifiers of the handlers *)

Lemma handler_name_truthy h key s : truthy (handler_name h key s) = true.
Proof.
  unfold handler_name.
  destruct (truthy (read h s key)) eqn:E1; [exact E1|].
  destruct (truthy (read h s "_name")) eqn:E2; [exact E2|].
  destruct (truthy (read h s "name")) eqn:E3; [exact E3|reflexivity].
Qed.

Lemma dumpConfig_heap `{Platform} `{Framework} w w1 a c lo fl d fp layers :
  super_dumpConfig (VRef a) w = (w1, Ok tt) ->
  let h := w_heap w1 in
  proto_wf h -> heap_closed h -> a < length h ->
  hget h a "config" = VRef c -> hget h a "loader" = VRef lo ->
  hget h lo "FileLoader" = VRef fl ->
  hget h c "rundir" = VStr d -> hget h fl "FULLPATH" = VSym fp ->
  nullish (read h (VRef a) "router") = false ->
  array_elems h (read h (read h (VRef a) "router") "stack") = Some layers ->
  forallb (layer_ok h) layers = true ->
  w_heap (dumpConfig (VRef a) w).1 = h ++ router_snapshot h (PSym fp) layers.
Proof.
  intros Hsuper h Hwf Hcl Ha Hc Hlo Hfl Hd Hfp Hrouter Hlayers Hall.
  rewrite (run_dumpConfig w w1 a c lo fl Hsuper Hc Hlo Hfl).
  cbn zeta. fold h. rewrite Hd, Hfp.
  rewrite (run_dump_routers w1 a d fp layers) by assumption.
  cbn zeta. fold h.
  destruct (JSON_stringify _ _) as [text|e];
    [destruct (fs_writeFileSync _ text) as [e|]; [|reflexivity]|];
    now destruct (caught_message e _).2.
Qed.

(** X22: every handler of the snapshot has a name.  For a router with
    well-formed layers, the [stack] of each element of the snapshot is a new
    array with one identifier per handler of the layer, and no identifier is
    empty or [undefined]: a handler without [FULLPATH], [_name] and [name]
    is listed as ['anonymous'].  The heap holds the snapshot whether the
    file could be written or not. *)
Theorem snapshot_handlers_named `{Platform} `{Framework}
    w w1 a c lo fl d fp layers :
  super_dumpConfig (VRef a) w = (w1, Ok tt) ->
  let h := w_heap w1 in
  proto_wf h -> heap_closed h -> a < length h ->
  hget h a "config" = VRef c -> hget h a "loader" = VRef lo ->
  hget h lo "FileLoader" = VRef fl ->
  hget h c "rundir" = VStr d -> hget h fl "FULLPATH" = VSym fp ->
  nullish (read h (VRef a) "router") = false ->
  array_elems h (read h (read h (VRef a) "router") "stack") = Some layers ->
  forallb (layer_ok h) layers = true ->
  let h' := w_heap (dumpConfig (VRef a) w).1 in
  forall i layer,
    layers !! i = Some layer ->
    exists hs ids,
      array_elems h (read h layer "stack") = Some hs /\
      array_elems h' (read h' (VRef (length h + 2 + 2 * i)) "stack") = Some ids /\
      length ids = length hs /\
      Forall (fun v => truthy v = true) ids /\
      forall j s, hs !! j = Some s ->
                  ids !! j = Some (handler_name h (PSym fp) s).
Proof.
  intros Hsuper h Hwf Hcl Ha Hc Hlo Hfl Hd Hfp Hrouter Hlayers Hall h' i layer Hi.
  assert (Hh' : h' = h ++ router_snapshot h (PSym fp) layers)
    by (unfold h'; now apply (dumpConfig_heap w w1 a c lo fl d fp layers)).
  rewrite Hh'.
  destruct (snapshot_objs_lookup h (PSym fp) (length h) layers 0 i layer Hi)
    as [Hst Hen].
  assert (Hok : layer_ok h layer = true).
  { rewrite forallb_forall in Hall. apply Hall.
    apply list_elem_of_In. eapply list_elem_of_lookup_2; eauto. }
  unfold layer_ok in Hok. apply andb_true_iff in Hok as [_ Hok].
  destruct (regexp_text h (read h layer "regexp")) as [text|]; [|discriminate].
  destruct (array_elems h (read h layer "stack")) as [hs|] eqn:Hhs;
    [|discriminate].
  exists hs, (map (handler_name h (PSym fp)) hs).
  split; [reflexivity|]. split; [|split; [apply length_map|split]].
  - assert (Hentry : (h ++ router_snapshot h (PSym fp) layers)
                       !! (length h + 2 + 2 * i) =
                     Some (layer_entry h layer (VRef (length h + 1 + 2 * i)))).
    { unfold router_snapshot.
      replace (length h + 2 + 2 * i) with (length h + S (2 * i + 1)) by lia.
      rewrite lookup_fresh.
      match goal with
      | |- (?x :: ?l) !! S ?n = _ => change (l !! n = Some (layer_entry h layer (VRef (length h + 1 + 2 * i))))
      end.
      etrans; [exact Hen|]. do 3 f_equal. }
    cbn [read]. unfold layer_entry in Hentry.
    rewrite (hget_plain_root _ _ _ _ Hentry). cbn [own_get pkey_eqb String.eqb Ascii.eqb Bool.eqb default].
    unfold array_elems, hkind, router_snapshot.
    replace (length h + 1 + 2 * i) with (length h + S (2 * i)) by lia.
    unfold Datatypes.id. cbv beta iota.
    rewrite lookup_fresh.
    match goal with
    | |- context [(?x :: ?l) !! S ?n] => change ((x :: l) !! S n) with (l !! n)
    end.
    rewrite Hst.
    unfold layer_stack. cbn [fmap option_fmap option_map kind].
    now rewrite Hhs.
  - apply Forall_forall. intros v Hv.
    apply list_elem_of_In, in_map_iff in Hv as (x & <- & _).
    apply handler_name_truthy.
  - intros j x Hj. now rewrite list_lookup_fmap, Hj.
Qed.

Lemma snapshot_handlers_named_witness :
  let w := sample_router_world in
  let h := sample_router_heap in
  let fp := "EGG_LOADER_ITEM_FULLPATH" in
  let h' := w_heap (@dumpConfig sample_platform sample_framework (VRef 17) w).1 in
  exists hs ids,
    array_elems h (read h (VRef 6) "stack") = Some hs /\
    array_elems h' (read h' (VRef (length h + 2 + 2 * 0)) "stack") = Some ids /\
    length ids = length hs /\
    Forall (fun v => truthy v = true) ids /\
    forall j s, hs !! j = Some s ->
                ids !! j = Some (handler_name h (PSym fp) s).
Proof.
  refine (@snapshot_handlers_named sample_platform sample_framework
            sample_router_world
            (add_events sample_router_world [EvSuperDumpConfig])
            17 11 10 9 "/srv/app/run" "EGG_LOADER_ITEM_FULLPATH" [VRef 6]
            _ _ _ _ _ _ _ _ _ _ _ _ 0 (VRef 6) _);
    [ reflexivity | reflexivity | reflexivity | vm_compute; lia
    | reflexivity | reflexivity | reflexivity | reflexivity | reflexivity
    | reflexivity | reflexivity | reflexivity | reflexivity ].
Defined.

(** ** Tasks in the background *)

Lemma own_get_app_set k k' v idx ps :
  k' <> k ->
  own_get k' (idx ++ own_set k v ps) = own_get k' (idx ++ ps).
Proof.
  intros Hne. induction idx as [|[k0 v0] idx IH]; cbn [List.app own_get].
  - now apply own_get_set_ne.
  - now rewrite IH.
Qed.

Lemma own_lookup_with_props k k' v o :
  k' <> k ->
  own_lookup k' (with_props o (own_set k v (props o))) = own_lookup k' o.
Proof.
  intros Hne. unfold own_lookup, enumerable_own, with_props. cbn [kind props].
  now rewrite own_get_app_set.
Qed.

(** A write to a property does not change what another key reads, on any
    object. *)
Lemma hget_hset_ne_key h x k v k' :
  k' <> k -> forall l, hget (hset h x k v) l k' = hget h l k'.
Proof.
  intros Hne l. unfold hget. generalize (S l) as n. intros n. revert l.
  induction n as [|n IH]; intros l; [reflexivity|]. cbn [hget_fuel].
  unfold hset at 1. destruct (h !! x) as [ox|] eqn:Hx.
  - destruct (decide (x = l)) as [<- | Hlx].
    + rewrite list_lookup_insert_eq by (eapply lookup_lt_Some; eauto).
      rewrite Hx, own_lookup_with_props by assumption.
      destruct (own_lookup k' ox); [reflexivity|]. cbn [proto with_props].
      destruct (proto ox) as [p|]; [|reflexivity].
      rewrite <- IH. unfold hset. now rewrite Hx.
    + rewrite list_lookup_insert_ne by assumption.
      destruct (h !! l) as [o|]; [|reflexivity].
      destruct (own_lookup k' o); [reflexivity|].
      destruct (proto o) as [p|]; [|reflexivity].
      rewrite <- IH. unfold hset. now rewrite Hx.
  - destruct (h !! l) as [o|]; [|reflexivity].
    destruct (own_lookup k' o); [reflexivity|].
    destruct (proto o) as [p|]; [|reflexivity].
    rewrite <- IH. unfold hset. now rewrite Hx.
Qed.

Lemma hkind_hset h x k v u : hkind (hset h x k v) u = hkind h u.
Proof.
  destruct u; try reflexivity. cbn [hkind]. unfold hset.
  destruct (h !! x) as [ox|] eqn:Hx; [|reflexivity].
  destruct (decide (x = l)) as [<- | Hlx].
  - rewrite list_lookup_insert_eq by (eapply lookup_lt_Some; eauto).
    now rewrite Hx.
  - now rewrite list_lookup_insert_ne by assumption.
Qed.

(** X23: [runInBackground] hands the task to a context of its own.  On a
    constructed application whose context prototype has the method
    [runInBackground], a task that is an object is passed to that method,
    called on a new anonymous context made without overrides; a task whose
    [name] is empty or missing is first tagged with the callee in [_name],
    a task that has a name is passed as it is.  The call is the last thing
    done, and what it throws is thrown on. *)
Theorem runInBackground_hands_over `{Background} w app pc f s :
  proto_wf (w_heap w) -> heap_closed (w_heap w) ->
  app_ready (w_heap w) app = true ->
  let h := w_heap w in
  read h app "context" = VRef pc ->
  hget h pc "runInBackground" = VRef f ->
  callable (hkind h (VRef f)) = true ->
  s < length h ->
  exists w1 l,
    createAnonymousContext app VUndef w = (w1, Ok (VRef l)) /\
    length h <= l /\
    read (w_heap w1) (read (w_heap w1) (VRef l) "req") "url" = VStr "/" /\
    let tagged :=
      if truthy (hget h s "name") then w1
      else set_heap w1 (hset (w_heap w1) s "_name"
                          (VStr (getCalleeFromStack w1))) in
    runInBackground app (VRef s) w =
    match call_function (VRef f) (VRef l) [VRef s] tagged with
    | (w2, Ok _) => (w2, Ok VUndef)
    | (w2, Throw e) => (w2, Throw e)
    end.
Proof.
  intros Hwf Hcl Hready h Hpc Hmethod Hcall Hs.
  assert (Hreq : value_closed (length h) VUndef = true) by reflexivity.
  destruct (createAnonymousContext_result w app VUndef Hwf Hcl Hready Hreq)
    as (Hrun & Hwf1 & _ & _ & HwfB & _ & _ & HlenB).
  fold h in Hrun, Hwf1, HwfB, HlenB. set (n := length h) in *.
  set (h1 := anon_heap h VUndef) in *.
  set (t := context_objs h1 (w_now w) app (VRef (n + 3)) (VRef (n + 4))) in *.
  assert (Hlen1 : length h1 = n + 5) by apply anon_heap_length.
  assert (Hctx : (h1 ++ t) !! (n + 5) =
                 Some (mkObj (ref_loc (read h1 app "context")) Plain
                         [ (PStr "request", VRef (n + 5 + 1));
                           (PStr "response", VRef (n + 5 + 2));
                           (PStr "app", app); (PStr "req", VRef (n + 3));
                           (PStr "res", VRef (n + 4));
                           (PStr "onerror", VRef (n + 5 + 3));
                           (PStr "originalUrl", read h1 (VRef (n + 3)) "url");
                           (PStr "starttime", VNum (w_now w)) ])).
  { rewrite <- Hlen1 at 1. rewrite lookup_fresh0. unfold t, context_objs.
    cbn [lookup list_lookup]. now rewrite Hlen1. }
  assert (Ha : value_closed n app = true).
  { destruct (app_ready_inv _ _ Hready) as (a & ? & ? & ? & ? & ? & -> & Hc & _).
    cbn. apply Nat.ltb_lt. apply (hget_allocated h a "context").
    cbn [read] in Hpc. rewrite Hpc. discriminate. }
  assert (Hpc1 : read h1 app "context" = VRef pc).
  { unfold h1, anon_heap. rewrite read_old by assumption. exact Hpc. }
  assert (Hpcl : pc < n).
  { pose proof (read_closed h app "context" Hcl) as Hc.
    rewrite Hpc in Hc. now apply Nat.ltb_lt. }
  assert (Hold : forall l k, l < n -> hget (h1 ++ t) l k = hget h l k).
  { intros l k Hl. rewrite hget_old by (assumption || lia).
    unfold h1, anon_heap. now apply hget_old. }
  assert (Hm : hget (h1 ++ t) (n + 5) "runInBackground" = VRef f).
  { rewrite (hget_unfold _ _ _ HwfB), Hctx. rewrite Hpc1.
    cbn [own_lookup enumerable_own kind props List.app own_get pkey_eqb
         String.eqb Ascii.eqb Bool.eqb proto ref_loc].
    rewrite Hold by assumption. exact Hmethod. }
  assert (Hkind : hkind (h1 ++ t) (VRef f) = hkind h (VRef f)).
  { cbn [hkind]. cbn [hkind] in Hcall.
    destruct (h !! f) as [o|] eqn:Ho; [|discriminate].
    unfold h1, anon_heap. rewrite <- app_assoc.
    now rewrite (lookup_app_l_Some _ _ _ _ Ho). }
  assert (Hurl : hget (h1 ++ t) (n + 3) "url" = VStr "/").
  { rewrite hget_old by (assumption || lia).
    now rewrite (hget_plain_root _ _ _ _ (anon_heap_lookup h VUndef 3 ltac:(lia))). }
  exists (set_heap w (h1 ++ t)), (n + 5).
  split; [exact Hrun|]. split; [lia|]. cbn [w_heap set_heap read].
  split.
  { erewrite (hget_own _ _ _ "req" (VRef (n + 3)) Hctx) by reflexivity.
    exact Hurl. }
  cbn zeta. unfold runInBackground.
  erewrite bind_run by exact Hrun.
  erewrite bind_run by (apply run_get; reflexivity).
  cbn [w_heap set_heap read]. rewrite Hold by assumption. fold h.
  assert (Hcm : forall wt,
            hget (w_heap wt) (n + 5) "runInBackground" = VRef f ->
            hkind (w_heap wt) (VRef f) = hkind h (VRef f) ->
            call_method (VRef (n + 5)) "runInBackground" [VRef s] wt =
            call_function (VRef f) (VRef (n + 5)) [VRef s] wt).
  { intros wt H1 H2. unfold call_method.
    erewrite bind_run by (apply run_get; reflexivity).
    cbn [read]. rewrite H1. erewrite bind_run by reflexivity.
    now rewrite H2, Hcall. }
  destruct (truthy (hget h s "name")).
  - rewrite bind_ret. unfold bindM at 1.
    rewrite Hcm by assumption.
    now destruct (call_function _ _ _ _) as [w2 [r|e]].
  - erewrite bind_run.
    2: { erewrite bind_run by reflexivity. reflexivity. }
    unfold bindM at 1. rewrite Hcm.
    + now destruct (call_function _ _ _ _) as [w2 [r|e]].
    + cbn [w_heap set_heap]. rewrite hget_hset_ne_key by discriminate.
      exact Hm.
    + cbn [w_heap set_heap]. now rewrite hkind_hset.
Qed.

Lemma runInBackground_hands_over_witness :
  let B := sample_background in
  let w := mkWorld sample_background_heap 0 [] [] 0 in
  let h := sample_background_heap in
  exists w1 l,
    createAnonymousContext sample_app VUndef w = (w1, Ok (VRef l)) /\
    length h <= l /\
    read (w_heap w1) (read (w_heap w1) (VRef l) "req") "url" = VStr "/" /\
    let tagged :=
      if truthy (hget h 9 "name") then w1
      else set_heap w1 (hset (w_heap w1) 9 "_name"
                          (VStr (@getCalleeFromStack B w1))) in
    @runInBackground B sample_app (VRef 9) w =
    match @call_function B (VRef 8) (VRef l) [VRef 9] tagged with
    | (w2, Ok _) => (w2, Ok VUndef)
    | (w2, Throw e) => (w2, Throw e)
    end.
Proof.
  apply (@runInBackground_hands_over sample_background
           (mkWorld sample_background_heap 0 [] [] 0) sample_app 1 8 9);
    [ reflexivity | reflexivity | reflexivity | reflexivity | reflexivity
    | reflexivity | vm_compute; lia ].
Defined.

(** The unnamed task of the sample is tagged and handed to the method of
    the context prototype, on the new context (15). *)
Example runInBackground_sample :
  let r := @runInBackground sample_background sample_app (VRef 9)
             (mkWorld sample_background_heap 0 [] [] 0) in
  snd r = Ok VUndef /\
  w_trace (fst r) = [EvLog (LoggerAt (VRef 15)) LError [VRef 8; VRef 9]] /\
  read (w_heap (fst r)) (VRef 9) "_name" = VStr "app/schedule/sync.js:12:5".
Proof. vm_compute. repeat split. Qed.
